(** * Cornerstone LP rebalancer ability: shallow embedding and properties

    The development follows the registry-driven ability of
    [cornerstone-lp-rebalancer-ability] (the module with project
    discovery, metrics, position matching and the rebalance loop).  Chain
    reads and state-mutating calls are threaded through an explicit
    world; a rejected promise is an explicit outcome; [BigNumber] values
    are unbounded integers.  Console logging is left out throughout. *)

From Stdlib Require Import ZArith String Ascii Lia List Bool.
From Stdlib Require Import DecimalString Sorted.
From stdpp Require Import base gmap strings list.
From Equations Require Import Equations.
Import ListNotations.

Open Scope string_scope.
Open Scope list_scope.
Open Scope Z_scope.

(** ** JavaScript values that the ability inspects *)

Module Js.

(** An object that reaches a [catch] clause.  [isError] records
    [error instanceof Error]; [code] and [status] are the optional
    fields that ethers attaches to RPC failures. *)
Record JsObject := mkObject {
  isError : bool;
  message : string;
  code : option string;
  status : option Z
}.

(** A thrown value is an object or a primitive (a string, [undefined],
    [null], ...), the latter kept as its [String(_)] rendering. *)
Inductive thrown :=
| ThrownObject (o : JsObject)
| ThrownPrimitive (rendering : string).

Definition newError (msg : string) : thrown :=
  ThrownObject (mkObject true msg None None).

(** [error instanceof Error ? error.message : String(error)].  The
    [String(_)] rendering of a non-[Error] object is not modelled
    further than its message field. *)
Definition errorText (e : thrown) : string :=
  match e with
  | ThrownObject o => message o
  | ThrownPrimitive s => s
  end.

(** Truthiness of a possibly missing string: [undefined] and the empty
    string are falsy. *)
Definition truthy (s : option string) : bool :=
  match s with
  | Some s => negb (String.eqb s "")
  | None => false
  end.

(** [String.prototype.toLowerCase] on the ASCII range, which covers
    hexadecimal addresses and URLs. *)
Definition lowerAscii (c : ascii) : ascii :=
  let n := nat_of_ascii c in
  if (Nat.leb 65 n && Nat.leb n 90)%bool then ascii_of_nat (n + 32) else c.

Fixpoint toLowerCase (s : string) : string :=
  match s with
  | EmptyString => EmptyString
  | String c s' => String (lowerAscii c) (toLowerCase s')
  end.

(** [String.prototype.includes]. *)
Fixpoint includes (s sub : string) : bool :=
  (String.prefix sub s ||
   match s with
   | EmptyString => false
   | String _ s' => includes s' sub
   end)%bool.

(** [[a, b].sort()]: the default comparison orders strings by code
    unit, and leaves equal elements in place. *)
Definition sortPair (a b : string) : string * string :=
  if String.leb a b then (a, b) else (b, a).

(** [[a, b].join(':')]. *)
Definition joinColon (p : string * string) : string :=
  fst p +:+ ":" +:+ snd p.

End Js.
Export Js.

(** ** Outcomes of promises and the world-passing monad *)

Inductive outcome (A : Type) :=
| Resolved (a : A)
| Rejected (e : thrown).
Arguments Resolved {A} a.
Arguments Rejected {A} e.

Definition obind {A B} (r : outcome A) (k : A -> outcome B) : outcome B :=
  match r with
  | Resolved a => k a
  | Rejected e => Rejected e
  end.

(** A computation over a world [W]: it either resolves or rejects, and
    in both cases leaves the world it has changed. *)
Definition M (W A : Type) : Type := W -> outcome A * W.

Definition ret {W A} (a : A) : M W A := fun w => (Resolved a, w).

Definition throw {W A} (e : thrown) : M W A := fun w => (Rejected e, w).

Definition bind {W A B} (m : M W A) (k : A -> M W B) : M W B :=
  fun w =>
    match m w with
    | (Resolved a, w') => k a w'
    | (Rejected e, w') => (Rejected e, w')
    end.

(** [try { m } catch (e) { h e }]. *)
Definition tryCatch {W A} (m : M W A) (h : thrown -> M W A) : M W A :=
  fun w =>
    match m w with
    | (Resolved a, w') => (Resolved a, w')
    | (Rejected e, w') => h e w'
    end.

Definition liftOutcome {W A} (r : outcome A) : M W A := fun w => (r, w).

Declare Scope rpc_scope.
Delimit Scope rpc_scope with rpc.
Notation "x <~ c ;; k" := (bind c (fun x => k))
  (at level 100, c at next level, right associativity) : rpc_scope.
Notation "c ;;; k" := (bind c (fun _ => k))
  (at level 100, right associativity) : rpc_scope.
Notation "x <?~ c ;; k" := (obind c (fun x => k))
  (at level 100, c at next level, right associativity) : rpc_scope.
Open Scope rpc_scope.

(** ** BigNumber (ethers v5): unbounded signed integers *)

Module BigNumber.

(** The error ethers throws on a numeric fault: its code is
    NUMERIC_FAULT; of its message only the name of the fault is kept. *)
Definition numericFault (what : string) : thrown :=
  ThrownObject (mkObject true what (Some "NUMERIC_FAULT") None).

Definition isZero (a : Z) : bool := a =? 0.
Definition eq (a b : Z) : bool := a =? b.
Definition gt (a b : Z) : bool := b <? a.
Definition lt (a b : Z) : bool := a <? b.
Definition gte (a b : Z) : bool := b <=? a.
Definition add (a b : Z) : Z := a + b.
Definition sub (a b : Z) : Z := a - b.
Definition mul (a b : Z) : Z := a * b.

(** [div] truncates toward zero and throws on a zero divisor. *)
Definition div (a b : Z) : outcome Z :=
  if b =? 0 then Rejected (numericFault "division-by-zero")
  else Resolved (Z.quot a b).

(** [toNumber] throws once the value needs more than 53 bits. *)
Definition toNumber (a : Z) : outcome Z :=
  if Z.abs a <? 2 ^ 53 then Resolved a
  else Rejected (numericFault "overflow").

(** [toString]: the decimal rendering. *)
Definition toString (a : Z) : string :=
  NilZero.string_of_int (Z.to_int a).

End BigNumber.

(** ** Constants of the ability *)

Definition DEFAULT_DEVIATION_THRESHOLD_BPS : Z := 150.
Definition DEFAULT_REBALANCE_LIQUIDITY_BPS : Z := 2500.
Definition MAX_EVENT_BLOCK_SPAN : Z := 10.
Definition RPC_MAX_RETRIES : Z := 3.
Definition RPC_RETRY_BASE_DELAY_MS : Z := 1000.
Definition WEI_PER_ETHER : Z := 10 ^ 18.
Definition Q192 : Z := 2 ^ 192.
Definition MAX_UINT128 : Z := 2 ^ 128 - 1.
Definition AddressZero : string := "0x0000000000000000000000000000000000000000".

(** ** Resilient chain reader *)

(** The only effect the retry wrapper performs itself is waiting. *)
Class Timer (W : Type) := { delay : Z -> M W unit }.

Definition isRetryableRpcError (error : thrown) : bool :=
  match error with
  | ThrownPrimitive _ => false
  | ThrownObject maybeError =>
      if match status maybeError with
         | Some s => negb (s =? 0) && (500 <=? s)
         | None => false
         end
      then true
      else if negb (truthy (code maybeError)) then false
      else match code maybeError with
           | Some c => String.eqb c "SERVER_ERROR" || String.eqb c "NETWORK_ERROR"
           | None => false
           end
  end.

Section WithRpcRetry.
Context {W : Type} `{Timer W} {T : Type}.
Variable operation : M W T.

(** The [while (attempt < RPC_MAX_RETRIES)] loop.  The source bumps
    [attempt] first; here the bumped value is written [attempt + 1].  The
    [context] argument of the source only labels the logged warning. *)
Equations? retryLoop (attempt : Z) (lastError : thrown) : M W T
  by wf (Z.to_nat (RPC_MAX_RETRIES - attempt)) lt :=
  retryLoop attempt lastError with Z_lt_dec attempt RPC_MAX_RETRIES := {
    | left _ =>
        tryCatch operation (fun error =>
          if negb (isRetryableRpcError error) || (attempt + 1 =? RPC_MAX_RETRIES)
          then throw error
          else
            let backoffMs := RPC_RETRY_BASE_DELAY_MS * (attempt + 1) in
            delay backoffMs ;;;
            retryLoop (attempt + 1) error)
    | right _ => throw lastError }.
Proof. lia. Qed.

Definition withRpcRetry : M W T :=
  retryLoop 0 (ThrownPrimitive "undefined").

End WithRpcRetry.

(** An instrumented world for the retry wrapper alone: it carries the
    state of an arbitrary operation, counts how often the operation was
    invoked and logs every delay in order. *)
Record Probe (St : Type) := mkProbe {
  opState : St;
  opCalls : nat;
  delays : list Z
}.
Arguments mkProbe {St}.
Arguments opState {St}.
Arguments opCalls {St}.
Arguments delays {St}.

#[export] Instance probeTimer (St : Type) : Timer (Probe St) :=
  {| delay ms := fun w =>
       (Resolved tt, mkProbe (opState w) (opCalls w) (delays w ++ [ms])) |}.

Definition probed {St T} (step : St -> outcome T * St) : M (Probe St) T :=
  fun w =>
    let '(r, s) := step (opState w) in
    (r, mkProbe s (S (opCalls w)) (delays w)).

(** An operation that replays a fixed list of outcomes. *)
Definition scripted {T} (l : list (outcome T)) : outcome T * list (outcome T) :=
  match l with
  | [] => (Rejected (ThrownPrimitive "script exhausted"), [])
  | r :: l' => (r, l')
  end.

(** ** Deviation *)

Inductive Direction := increase | decrease | none.

Record Deviation := mkDeviation {
  deviation : Z;
  dev_deviationBps : Z;
  dev_direction : Direction
}.

Definition calculateDeviation (currentPrice targetPrice : Z) : outcome Deviation :=
  if BigNumber.isZero targetPrice then
    Resolved (mkDeviation 0 0 none)
  else if BigNumber.eq currentPrice targetPrice then
    Resolved (mkDeviation 0 0 none)
  else
    let direction := if BigNumber.gt currentPrice targetPrice then decrease else increase in
    let deviation :=
      if BigNumber.gt currentPrice targetPrice
      then BigNumber.sub currentPrice targetPrice
      else BigNumber.sub targetPrice currentPrice in
    deviationBps <?~ BigNumber.div (BigNumber.mul deviation 10000) targetPrice ;;
    Resolved (mkDeviation deviation deviationBps direction).

(** ** Data model *)

Record NetworkConfig := mkNetworkConfig {
  uniswapFactory : string;
  positionManager : string
}.

Definition NETWORK_CONFIG (chainId : Z) : option NetworkConfig :=
  if chainId =? 1 then
    Some (mkNetworkConfig "0x1F98431c8aD98523631AE4a59f267346ea31F984"
                          "0xC36442b4a4522E871399CD717aBDD847Ab11FE88")
  else if chainId =? 11155111 then
    Some (mkNetworkConfig "0x0227628f3F023bb0B980b67D528571c95c6DaC1c"
                          "0x1238536071E1c677A632429e3655c799b22cDA52")
  else None.

Record ProjectInfo := mkProjectInfo {
  projectAddress : string;
  tokenAddress : string;
  pyusdAddress : string
}.

Record PositionInfo := mkPositionInfo {
  tokenId : string;
  token0 : string;
  token1 : string;
  fee : Z;
  liquidity : Z;
  tickLower : Z;
  tickUpper : Z
}.

Record ProjectMetrics := mkProjectMetrics {
  project : ProjectInfo;
  poolAddress : option string;
  navPerShare : Z;
  targetPoolPrice : Z;
  currentPoolPrice : Z;
  poolLiquidity : Z;
  deviationBps : Z;
  direction : Direction;
  positions : list PositionInfo
}.

Record ActionRecord := mkActionRecord {
  act_projectAddress : string;
  act_tokenId : option string;
  name : string;
  txHash : string
}.

(** A decoded [ProjectCreated] log.  [args] is missing when the log could
    not be decoded; [args[0]] and [args.project] are the same field. *)
Record EventArgs := mkEventArgs {
  arg_project : option string;
  arg_token : option string;
  arg_creator : option string
}.

Record Event := mkEvent {
  blockNumber : Z;
  args : option EventArgs
}.

(** [event.args?.project] and [event.args?.token]. *)
Definition eventProject (event : Event) : option string :=
  match args event with
  | Some a => arg_project a
  | None => None
  end.

Definition eventToken (event : Event) : option string :=
  match args event with
  | Some a => arg_token a
  | None => None
  end.

(** The tuple returned by [positions(tokenId)], restricted to the
    components the ability reads (indices 2 to 7). *)
Record PositionData := mkPositionData {
  pd_token0 : string;
  pd_token1 : string;
  pd_fee : Z;
  pd_tickLower : Z;
  pd_tickUpper : Z;
  pd_liquidity : Z
}.

(** Arguments of the state-mutating calls the ability issues. *)
Inductive CallArgs :=
| AccrueInterestArgs
| DecreaseLiquidityArgs (tokenId liquidity : string) (amount0Min amount1Min deadline : Z)
| CollectArgs (tokenId recipient amount0Max amount1Max : string)
| ApproveArgs (spender amount : string)
| IncreaseLiquidityArgs (tokenId amount0Desired amount1Desired : string)
                        (amount0Min amount1Min deadline : Z).

(** The ABI a call is encoded against. *)
Inductive Abi :=
| CORNERSTONE_PROJECT_ABI
| NONFUNGIBLE_POSITION_MANAGER_ABI
| ERC20_ABI.

(** The request handed to [laUtils.transaction.handler.contractCall]; the
    provider is the one of the run. *)
Record CallRequest := mkCallRequest {
  call_pkpPublicKey : string;
  callerAddress : string;
  abi : Abi;
  contractAddress : string;
  functionName : string;
  call_args : CallArgs
}.

Record Provider := mkProvider {
  providerUrl : string;
  staticNetwork : option (Z * string)
}.

(** ** The chain as the ability sees it

    Every read and every state-mutating call is a computation over the
    world; what the chain answers is left to the instance. *)
Class Chain (W : Type) := {
  chainTimer :: Timer W;
  getNetwork : Provider -> M W Z;
  getBlockNumber : M W Z;
  projectCount : string -> M W Z;
  queryFilter : string -> Z -> Z -> M W (list Event);
  pyusd : string -> M W string;
  getNAVPerShare : string -> M W Z;
  getTargetPoolPrice : string -> M W Z;
  getPool : string -> string -> string -> Z -> M W string;
  slot0 : string -> M W Z;
  poolLiquidityOf : string -> M W Z;
  positionBalanceOf : string -> string -> M W Z;
  tokenOfOwnerByIndex : string -> string -> Z -> M W Z;
  positionsOf : string -> Z -> M W PositionData;
  erc20BalanceOf : string -> string -> M W Z;
  erc20Allowance : string -> string -> string -> M W Z;
  contractCall : CallRequest -> M W string;
  dateNow : M W Z
}.

(** ** Network configuration *)

Definition DEFAULT_RPC_URL : string := "https://yellowstone-rpc.litprotocol.com/".

Definition inferChainIdFromRpc (rpcUrl : option string) : option Z :=
  match rpcUrl with
  | None => None
  | Some url =>
      if negb (truthy (Some url)) then None
      else
        let lowered := toLowerCase url in
        if includes lowered "sepolia" then Some 11155111
        else if includes lowered "mainnet" then Some 1
        else None
  end.

Definition createProvider (rpcUrl : option string) : Provider :=
  let url := match rpcUrl with Some u => u | None => DEFAULT_RPC_URL end in
  match inferChainIdFromRpc (Some url) with
  | Some inferredChainId =>
      let networkName := if inferredChainId =? 1 then "mainnet" else "sepolia" in
      mkProvider url (Some (inferredChainId, networkName))
  | None => mkProvider url None
  end.

(** ** Project discovery *)

(** [events.sort((a, b) => a.blockNumber - b.blockNumber)]: the sort is
    stable, so it is determined by the comparison; it is written here as
    a stable insertion sort. *)
Fixpoint insertByBlock (e : Event) (l : list Event) : list Event :=
  match l with
  | [] => [e]
  | x :: l' =>
      if blockNumber e <=? blockNumber x then e :: x :: l'
      else x :: insertByBlock e l'
  end.

Definition sortByBlock (l : list Event) : list Event :=
  fold_right insertByBlock [] l.

(** The body of [for (const event of batch)]. *)
Definition recordEvent (acc : list Event * gset string) (event : Event)
  : list Event * gset string :=
  let '(events, seenProjects) := acc in
  match args event with
  | None => acc
  | Some a =>
      match arg_project a with
      | None => acc
      | Some projectAddress =>
          if negb (truthy (Some projectAddress)) then acc
          else
            let normalized := toLowerCase projectAddress in
            if decide (normalized ∈ seenProjects) then acc
            else (events ++ [event], {[normalized]} ∪ seenProjects)
      end
  end.

(** [projectsMap.has(key)]. *)
Definition projectsMapHas (projectsMap : list ProjectInfo) (key : string) : bool :=
  existsb (fun p => String.eqb (projectAddress p) key) projectsMap.

Section Discovery.
Context {W : Type} `{Chain W}.

Definition discoverNetworkConfig (provider : Provider) (rpcUrl : option string)
  : M W NetworkConfig :=
  tryCatch
    (chainId <~ getNetwork provider ;;
     match NETWORK_CONFIG chainId with
     | Some config => ret config
     | None => throw (newError ("Unsupported network " +:+ BigNumber.toString chainId))
     end)
    (fun error =>
       match inferChainIdFromRpc rpcUrl with
       | Some fallbackChainId =>
           match NETWORK_CONFIG fallbackChainId with
           | Some config => ret config
           | None => throw error
           end
       | None => throw error
       end).

(** The [while (currentEndBlock >= 0 && seenProjects.size < totalProjects)]
    loop over 10-block windows, newest window first. *)
Equations? scanLoop (registry : string) (totalProjects : Z) (currentEndBlock : Z)
    (events : list Event) (seenProjects : gset string) : M W (list Event)
  by wf (Z.to_nat (currentEndBlock + 1)) lt :=
  scanLoop registry totalProjects currentEndBlock events seenProjects
    with Sumbool.sumbool_of_bool
           ((0 <=? currentEndBlock) && (Z.of_nat (size seenProjects) <? totalProjects)) := {
    | left _ =>
        let currentStartBlock := Z.max 0 (currentEndBlock - MAX_EVENT_BLOCK_SPAN + 1) in
        batch <~ withRpcRetry (queryFilter registry currentStartBlock currentEndBlock) ;;
        scanLoop registry totalProjects (currentStartBlock - 1)
                 (fst (fold_left recordEvent batch (events, seenProjects)))
                 (snd (fold_left recordEvent batch (events, seenProjects)))
    | right _ => ret events }.
Proof.
  apply andb_prop in e as [Hge _]. apply Z.leb_le in Hge.
  subst currentStartBlock. unfold MAX_EVENT_BLOCK_SPAN. lia.
Qed.

Definition fetchProjectCreationEvents (registry : string) : M W (list Event) :=
  latestBlock <~ withRpcRetry getBlockNumber ;;
  projectCountBn <~ withRpcRetry (projectCount registry) ;;
  totalProjects <~ liftOutcome (BigNumber.toNumber projectCountBn) ;;
  if totalProjects =? 0 then ret []
  else
    events <~ scanLoop registry totalProjects latestBlock [] ∅ ;;
    ret (sortByBlock events).

(** [projectsMap] is a [Map] that is only ever extended under a fresh
    key and read back in insertion order: an ordered list. *)
Fixpoint discoverLoop (events : list Event) (projectsMap : list ProjectInfo)
  : M W (list ProjectInfo) :=
  match events with
  | [] => ret projectsMap
  | event :: rest =>
      match eventProject event, eventToken event with
      | Some projectAddress, Some tokenAddress =>
          if negb (truthy (Some projectAddress)) || negb (truthy (Some tokenAddress))
          then discoverLoop rest projectsMap
          else if projectsMapHas projectsMap projectAddress
          then discoverLoop rest projectsMap
          else
            pyusdAddress <~ withRpcRetry (pyusd projectAddress) ;;
            discoverLoop rest
              (projectsMap ++ [mkProjectInfo projectAddress tokenAddress pyusdAddress])
      | _, _ => discoverLoop rest projectsMap
      end
  end.

Definition discoverProjects (registryAddress : string) : M W (list ProjectInfo) :=
  events <~ fetchProjectCreationEvents registryAddress ;;
  discoverLoop events [].

End Discovery.

(** ** Metrics *)

Definition computePoolPrice (sqrtPriceX96 : Z) : outcome Z :=
  let priceX192 := BigNumber.mul sqrtPriceX96 sqrtPriceX96 in
  BigNumber.div (BigNumber.mul priceX192 WEI_PER_ETHER) Q192.

(** [poolAddress && poolAddress !== ethers.constants.AddressZero]. *)
Definition poolExists (poolAddress : string) : bool :=
  truthy (Some poolAddress) && negb (String.eqb poolAddress AddressZero).

Section Metrics.
Context {W : Type} `{Chain W}.

(** The three reads of the [Promise.all] are issued in the order in
    which they are listed; a rejection of one of them rejects the
    whole.  When more than one of them fails, the source reports the
    failure that settles first, the model the first in this order. *)
Definition fetchProjectMetrics (project : ProjectInfo) (config : NetworkConfig)
  : M W ProjectMetrics :=
  navPerShare <~ withRpcRetry (getNAVPerShare (projectAddress project)) ;;
  targetPoolPrice <~ withRpcRetry (getTargetPoolPrice (projectAddress project)) ;;
  poolAddress <~ withRpcRetry
    (getPool (uniswapFactory config) (tokenAddress project) (pyusdAddress project) 3000) ;;
  if BigNumber.isZero targetPoolPrice then
    throw (newError "Target pool price returned 0 from CornerstoneProject")
  else
    pool <~ (if poolExists poolAddress then
               sqrtPriceX96 <~ withRpcRetry (slot0 poolAddress) ;;
               currentPoolPrice <~ liftOutcome (computePoolPrice sqrtPriceX96) ;;
               poolLiquidity <~ withRpcRetry (poolLiquidityOf poolAddress) ;;
               ret (currentPoolPrice, poolLiquidity)
             else ret (0, 0)) ;;
    d <~ liftOutcome (calculateDeviation (fst pool) targetPoolPrice) ;;
    ret {| project := project;
           poolAddress := if poolExists poolAddress then Some poolAddress else None;
           navPerShare := navPerShare;
           targetPoolPrice := targetPoolPrice;
           currentPoolPrice := fst pool;
           poolLiquidity := snd pool;
           deviationBps := dev_deviationBps d;
           direction := dev_direction d;
           positions := [] |}.

(** [Promise.all(projects.map(...))], project by project.  The source
    starts the reads of every project at once and, when several of them
    fail, rejects with the failure that settles first in time; the order
    in which reads settle is not part of this model, which reports the
    first failure in the order of the list.  The statements about
    [fetchAllMetrics] rely only on what a run resolves to and on whether
    it rejects. *)
Fixpoint fetchAllMetrics (projects : list ProjectInfo) (config : NetworkConfig)
  : M W (list ProjectMetrics) :=
  match projects with
  | [] => ret []
  | project :: rest =>
      metric <~ fetchProjectMetrics project config ;;
      metrics <~ fetchAllMetrics rest config ;;
      ret (metric :: metrics)
  end.

(** The [for (let index = 0; index < count; index += 1)] loop;
    [remaining] is [count - index]. *)
Fixpoint ownedLoop (config : NetworkConfig) (ownerAddress : string)
    (remaining : nat) (index : Z) (positions : list PositionInfo)
  : M W (list PositionInfo) :=
  match remaining with
  | O => ret positions
  | S remaining' =>
      tokenId <~ withRpcRetry
        (tokenOfOwnerByIndex (positionManager config) ownerAddress index) ;;
      position <~ withRpcRetry (positionsOf (positionManager config) tokenId) ;;
      ownedLoop config ownerAddress remaining' (index + 1)
        (positions ++
           [{| tokenId := BigNumber.toString tokenId;
               token0 := pd_token0 position;
               token1 := pd_token1 position;
               fee := pd_fee position;
               tickLower := pd_tickLower position;
               tickUpper := pd_tickUpper position;
               liquidity := pd_liquidity position |}])
  end.

Definition fetchOwnedPositions (config : NetworkConfig) (ownerAddress : string)
  : M W (list PositionInfo) :=
  balance <~ withRpcRetry (positionBalanceOf (positionManager config) ownerAddress) ;;
  count <~ liftOutcome (BigNumber.toNumber balance) ;;
  ownedLoop config ownerAddress (Z.to_nat count) 0 [].

End Metrics.

(** ** Position-project matching *)

(** [[a.toLowerCase(), b.toLowerCase()].sort().join(':')]. *)
Definition pairKey (a b : string) : string :=
  joinColon (sortPair (toLowerCase a) (toLowerCase b)).

Definition metricKey (metric : ProjectMetrics) : string :=
  pairKey (tokenAddress (project metric)) (pyusdAddress (project metric)).

Definition positionKey (position : PositionInfo) : string :=
  pairKey (token0 position) (token1 position).

(** [projectTokenPairs]: the values of the [Map] are references to the
    metric objects of the [metrics] array; a reference is the index of
    the object in the array.  [set] under a key that is already present
    replaces the reference. *)
Fixpoint indexTokenPairs (metrics : list ProjectMetrics) (index : nat)
    (projectTokenPairs : gmap string nat) : gmap string nat :=
  match metrics with
  | [] => projectTokenPairs
  | metric :: rest =>
      indexTokenPairs rest (S index) (<[metricKey metric := index]> projectTokenPairs)
  end.

(** [metric.positions.push(position)]. *)
Definition pushPosition (position : PositionInfo) (metric : ProjectMetrics)
  : ProjectMetrics :=
  {| project := project metric;
     poolAddress := poolAddress metric;
     navPerShare := navPerShare metric;
     targetPoolPrice := targetPoolPrice metric;
     currentPoolPrice := currentPoolPrice metric;
     poolLiquidity := poolLiquidity metric;
     deviationBps := deviationBps metric;
     direction := direction metric;
     positions := positions metric ++ [position] |}.

Definition attachPosition (projectTokenPairs : gmap string nat)
    (metrics : list ProjectMetrics) (position : PositionInfo) : list ProjectMetrics :=
  match projectTokenPairs !! positionKey position with
  | Some index => alter (pushPosition position) index metrics
  | None => metrics
  end.

(** The source mutates the metric objects in place; the updated array is
    returned here. *)
Definition attachPositionsToProjects (metrics : list ProjectMetrics)
    (positions : list PositionInfo) : list ProjectMetrics :=
  fold_left (attachPosition (indexTokenPairs metrics 0 ∅)) positions metrics.

(** ** Reports *)

Record ProjectSummary := mkProjectSummary {
  sum_projectAddress : string;
  sum_tokenAddress : string;
  sum_pyusdAddress : string;
  sum_poolAddress : option string;
  sum_navPerShare : string;
  sum_targetPoolPrice : string;
  sum_currentPoolPrice : string;
  sum_poolLiquidity : string;
  totalPositionLiquidity : string;
  sum_deviationBps : Z;
  sum_direction : Direction;
  positionCount : Z;
  positionTokenIds : list string
}.

(** [deviationBps] is reported as [Number(deviationBps.toString())],
    which is exact below 2^53; the exact integer is kept here. *)
Definition summarizeMetric (metric : ProjectMetrics) : ProjectSummary :=
  {| sum_projectAddress := projectAddress (project metric);
     sum_tokenAddress := tokenAddress (project metric);
     sum_pyusdAddress := pyusdAddress (project metric);
     sum_poolAddress := poolAddress metric;
     sum_navPerShare := BigNumber.toString (navPerShare metric);
     sum_targetPoolPrice := BigNumber.toString (targetPoolPrice metric);
     sum_currentPoolPrice := BigNumber.toString (currentPoolPrice metric);
     sum_poolLiquidity := BigNumber.toString (poolLiquidity metric);
     totalPositionLiquidity :=
       BigNumber.toString
         (fold_left (fun acc position => BigNumber.add acc (liquidity position))
                    (positions metric) 0);
     sum_deviationBps := deviationBps metric;
     sum_direction := direction metric;
     positionCount := Z.of_nat (length (positions metric));
     positionTokenIds := map tokenId (positions metric) |}.

Record ExecuteProjectReport := mkExecuteProjectReport {
  summary : ProjectSummary;
  actions : list ActionRecord
}.

Inductive KnownError :=
| INVALID_REGISTRY_ADDRESS
| PROJECT_DISCOVERY_FAILED
| POSITION_DISCOVERY_FAILED
| NAV_TARGET_ZERO
| PROVIDER_ERROR
| POLICY_ERROR.

Inductive PrecheckResult :=
| PrecheckSucceed (registryAddress : string)
                  (projectCount trackedPositions backfilledPositions : Z)
                  (projects : list ProjectSummary)
| PrecheckFail (reason : KnownError) (error : string).

Inductive ExecuteResult :=
| ExecuteSucceed (registryAddress : string) (totalActions backfilledPositions : Z)
                 (projects : list ExecuteProjectReport)
| ExecuteFail (error : string) (reason : KnownError).

Record AbilityParams := mkAbilityParams {
  registryAddress : string;
  rpcUrl : option string
}.

(** [delegation?.delegatorPkpInfo]: either field may be missing. *)
Record Delegation := mkDelegation {
  ethAddress : option string;
  publicKey : option string
}.

(** ** Rebalance decision *)

Definition isNone (d : Direction) : bool :=
  match d with none => true | _ => false end.

Definition isDecrease (d : Direction) : bool :=
  match d with decrease => true | _ => false end.

Definition shouldRebalance (metric : ProjectMetrics) : bool :=
  negb (isNone (direction metric)) &&
  BigNumber.gte (deviationBps metric) DEFAULT_DEVIATION_THRESHOLD_BPS.


(** ** Execution *)

(** [for (const x of l) { acc = body(acc, x) }] with awaited bodies. *)
Fixpoint forEach {W A B} (body : B -> A -> M W B) (l : list A) (acc : B) : M W B :=
  match l with
  | [] => ret acc
  | x :: rest => acc' <~ body acc x ;; forEach body rest acc'
  end.


Section Rebalance.
Context {W : Type} `{Chain W}.
Variable networkConfig : NetworkConfig.
Variables pkpPublicKey pkpAddress : string.

(** [laUtils.transaction.handler.contractCall] with the provider, the
    PKP and the caller fixed for the run. *)
Definition dispatch (abi : Abi) (contract fn : string) (a : CallArgs) : M W string :=
  contractCall {| call_pkpPublicKey := pkpPublicKey;
                  callerAddress := pkpAddress;
                  abi := abi;
                  contractAddress := contract;
                  functionName := fn;
                  call_args := a |}.

(** [Math.floor(Date.now() / 1000) + 900]. *)
Definition deadline : M W Z :=
  nowMs <~ dateNow ;; ret (nowMs / 1000 + 900).

Definition approveIfNeeded (projectAddress : string) (position : PositionInfo)
    (token label : string) (balance allowance : Z) (actions : list ActionRecord)
  : M W (list ActionRecord) :=
  if BigNumber.gt balance 0 && BigNumber.lt allowance balance then
    approveTxHash <~ dispatch ERC20_ABI token "approve"
      (ApproveArgs (positionManager networkConfig) (BigNumber.toString balance)) ;;
    ret (actions ++
           [{| act_projectAddress := projectAddress;
               act_tokenId := Some (tokenId position);
               name := label;
               txHash := approveTxHash |}])
  else ret actions.

(** The body of [for (const position of metric.positions)]; [actions] is
    the array that [recordAction] extends.  The four balance and
    allowance reads of the [Promise.all] are issued in the order in which
    they are listed. *)
Definition rebalancePosition (metric : ProjectMetrics) (projectAddress : string)
    (actions : list ActionRecord) (position : PositionInfo)
  : M W (list ActionRecord) :=
  if BigNumber.isZero (liquidity position) then ret actions
  else
    liquidityToUse <~ liftOutcome
      (BigNumber.div
         (BigNumber.mul (liquidity position) DEFAULT_REBALANCE_LIQUIDITY_BPS) 10000) ;;
    if BigNumber.isZero liquidityToUse && isDecrease (direction metric) then ret actions
    else
      match direction metric with
      | decrease =>
          deadlineAt <~ deadline ;;
          decreaseTxHash <~ dispatch NONFUNGIBLE_POSITION_MANAGER_ABI
            (positionManager networkConfig) "decreaseLiquidity"
            (DecreaseLiquidityArgs
               (tokenId position)
               (if BigNumber.isZero liquidityToUse
                then BigNumber.toString (liquidity position)
                else BigNumber.toString liquidityToUse)
               0 0 deadlineAt) ;;
          let actions :=
            actions ++
              [{| act_projectAddress := projectAddress;
                  act_tokenId := Some (tokenId position);
                  name := "decreaseLiquidity";
                  txHash := decreaseTxHash |}] in
          collectTxHash <~ dispatch NONFUNGIBLE_POSITION_MANAGER_ABI
            (positionManager networkConfig) "collect"
            (CollectArgs (tokenId position) pkpAddress
               (BigNumber.toString MAX_UINT128) (BigNumber.toString MAX_UINT128)) ;;
          ret (actions ++
                 [{| act_projectAddress := projectAddress;
                     act_tokenId := Some (tokenId position);
                     name := "collect";
                     txHash := collectTxHash |}])
      | increase =>
          balance0 <~ erc20BalanceOf (token0 position) pkpAddress ;;
          balance1 <~ erc20BalanceOf (token1 position) pkpAddress ;;
          allowance0 <~ erc20Allowance (token0 position) pkpAddress
                                       (positionManager networkConfig) ;;
          allowance1 <~ erc20Allowance (token1 position) pkpAddress
                                       (positionManager networkConfig) ;;
          if BigNumber.isZero balance0 && BigNumber.isZero balance1 then ret actions
          else
            actions <~ approveIfNeeded projectAddress position (token0 position)
                         "approveToken0" balance0 allowance0 actions ;;
            actions <~ approveIfNeeded projectAddress position (token1 position)
                         "approveToken1" balance1 allowance1 actions ;;
            deadlineAt <~ deadline ;;
            increaseTxHash <~ dispatch NONFUNGIBLE_POSITION_MANAGER_ABI
              (positionManager networkConfig) "increaseLiquidity"
              (IncreaseLiquidityArgs
                 (tokenId position)
                 (BigNumber.toString balance0) (BigNumber.toString balance1)
                 0 0 deadlineAt) ;;
            ret (actions ++
                   [{| act_projectAddress := projectAddress;
                       act_tokenId := Some (tokenId position);
                       name := "increaseLiquidity";
                       txHash := increaseTxHash |}])
      | none => ret actions
      end.

(** The body of [for (const metric of metrics)]. *)
Definition rebalanceProject (actions : list ActionRecord) (metric : ProjectMetrics)
  : M W (list ActionRecord) :=
  if negb (shouldRebalance metric) then ret actions
  else
    let projectAddress := projectAddress (project metric) in
    accrueTx <~ dispatch CORNERSTONE_PROJECT_ABI projectAddress "accrueInterest"
      AccrueInterestArgs ;;
    let actions :=
      actions ++
        [{| act_projectAddress := projectAddress;
            act_tokenId := None;
            name := "accrueInterest";
            txHash := accrueTx |}] in
    forEach (rebalancePosition metric projectAddress) (positions metric) actions.

Definition rebalanceAll (metrics : list ProjectMetrics) : M W (list ActionRecord) :=
  forEach rebalanceProject metrics [].

End Rebalance.

(** [actions.filter((action) => action.projectAddress === projectAddress)]. *)
Definition actionsOf (projectAddress : string) (actions : list ActionRecord)
  : list ActionRecord :=
  filter (fun action => act_projectAddress action = projectAddress) actions.

Definition reportProject (actions : list ActionRecord) (metric : ProjectMetrics)
  : ExecuteProjectReport :=
  {| summary := summarizeMetric metric;
     actions := actionsOf (projectAddress (project metric)) actions |}.

Section Ability.
Context {W : Type} `{Chain W}.
(** [ethers.utils.isAddress], a library predicate. *)
Variable isAddress : string -> bool.

(** The registry-driven evaluation shared by [precheck] and [execute]:
    network, projects, then the metrics of every project. *)
Definition evaluateRegistry (abilityParams : AbilityParams)
  : M W (NetworkConfig * list ProjectMetrics) :=
  let provider := createProvider (rpcUrl abilityParams) in
  networkConfig <~ discoverNetworkConfig provider (rpcUrl abilityParams) ;;
  projects <~ discoverProjects (registryAddress abilityParams) ;;
  metrics <~ fetchAllMetrics projects networkConfig ;;
  ret (networkConfig, metrics).

(** [ENABLE_BACKFILL] is [false]: the backfilled set stays empty and its
    reported size is 0. *)
Definition precheck (abilityParams : AbilityParams) (delegation : option Delegation)
  : M W PrecheckResult :=
  if negb (isAddress (registryAddress abilityParams)) then
    ret (PrecheckFail INVALID_REGISTRY_ADDRESS
           ("Invalid registry address: " +:+ registryAddress abilityParams))
  else
    tryCatch
      (evaluated <~ evaluateRegistry abilityParams ;;
       let pkpAddress := match delegation with Some d => ethAddress d | None => None end in
       ownedPositions <~
         match pkpAddress with
         | Some pkp =>
             if truthy pkpAddress then fetchOwnedPositions (fst evaluated) pkp
             else ret []
         | None => ret []
         end ;;
       let metrics := attachPositionsToProjects (snd evaluated) ownedPositions in
       ret (PrecheckSucceed (registryAddress abilityParams)
              (Z.of_nat (length metrics))
              (Z.of_nat (length ownedPositions))
              0
              (map summarizeMetric metrics)))
      (fun error =>
         ret (PrecheckFail
                (match error with
                 | ThrownObject o =>
                     if isError o && includes (message o) "Target pool price"
                     then NAV_TARGET_ZERO else PROVIDER_ERROR
                 | ThrownPrimitive _ => PROVIDER_ERROR
                 end)
                (errorText error))).

Definition execute (abilityParams : AbilityParams) (delegation : option Delegation)
  : M W ExecuteResult :=
  tryCatch
    (if negb (isAddress (registryAddress abilityParams)) then
       throw (newError ("Invalid registry address: " +:+ registryAddress abilityParams))
     else
       evaluated <~ evaluateRegistry abilityParams ;;
       let pkpPublicKey := match delegation with Some d => publicKey d | None => None end in
       let pkpAddress := match delegation with Some d => ethAddress d | None => None end in
       match pkpPublicKey, pkpAddress with
       | Some pkpPublicKey, Some pkpAddress =>
           if negb (truthy (Some pkpPublicKey)) || negb (truthy (Some pkpAddress)) then
             throw (newError "Delegation context missing PKP information")
           else
             ownedPositions <~ fetchOwnedPositions (fst evaluated) pkpAddress ;;
             let metrics := attachPositionsToProjects (snd evaluated) ownedPositions in
             actions <~ rebalanceAll (fst evaluated) pkpPublicKey pkpAddress metrics ;;
             ret (ExecuteSucceed (registryAddress abilityParams)
                    (Z.of_nat (length actions))
                    0
                    (map (reportProject actions) metrics))
       | _, _ => throw (newError "Delegation context missing PKP information")
       end)
    (fun error =>
       ret (ExecuteFail
              (errorText error)
              (match error with
               | ThrownObject o =>
                   if isError o && includes (message o) "registry address"
                   then INVALID_REGISTRY_ADDRESS else PROVIDER_ERROR
               | ThrownPrimitive _ => PROVIDER_ERROR
               end))).

End Ability.


(** ** A chain that answers from a fixed snapshot

    Reads never fail and answer from the snapshot; the world only records
    which event windows were queried, which state-mutating calls were
    dispatched and which delays were taken.  The on-chain effect of a
    dispatched call is not modelled. *)
Record Sim := mkSim {
  sim_chainId : Z;
  sim_latestBlock : Z;
  sim_projectCount : Z;
  sim_log : list Event;
  sim_pyusd : string -> string;
  sim_nav : string -> Z;
  sim_target : string -> Z;
  sim_pool : string -> string -> string;
  sim_sqrtPrice : string -> Z;
  sim_poolLiquidity : string -> Z;
  sim_owned : list (Z * PositionData);
  sim_balance : string -> string -> Z;
  sim_allowance : string -> string -> string -> Z;
  sim_clock : Z;
  sim_queries : list (Z * Z);
  sim_sent : list CallRequest;
  sim_waited : list Z
}.

Definition setTrace (w : Sim) (queries : list (Z * Z)) (sent : list CallRequest)
    (waited : list Z) : Sim :=
  {| sim_chainId := sim_chainId w;
     sim_latestBlock := sim_latestBlock w;
     sim_projectCount := sim_projectCount w;
     sim_log := sim_log w;
     sim_pyusd := sim_pyusd w;
     sim_nav := sim_nav w;
     sim_target := sim_target w;
     sim_pool := sim_pool w;
     sim_sqrtPrice := sim_sqrtPrice w;
     sim_poolLiquidity := sim_poolLiquidity w;
     sim_owned := sim_owned w;
     sim_balance := sim_balance w;
     sim_allowance := sim_allowance w;
     sim_clock := sim_clock w;
     sim_queries := queries;
     sim_sent := sent;
     sim_waited := waited |}.

Definition noteQuery (fromBlock toBlock : Z) (w : Sim) : Sim :=
  setTrace w (sim_queries w ++ [(fromBlock, toBlock)]) (sim_sent w) (sim_waited w).

Definition noteCall (request : CallRequest) (w : Sim) : Sim :=
  setTrace w (sim_queries w) (sim_sent w ++ [request]) (sim_waited w).

Definition noteDelay (ms : Z) (w : Sim) : Sim :=
  setTrace w (sim_queries w) (sim_sent w) (sim_waited w ++ [ms]).

(** The logs of a block range, in the order of the chain. *)
Definition inWindow (fromBlock toBlock : Z) (log : list Event) : list Event :=
  List.filter (fun e => (fromBlock <=? blockNumber e) && (blockNumber e <=? toBlock)) log.

Definition read {A} (f : Sim -> A) : M Sim A := fun w => (Resolved (f w), w).

Definition revert {A} : M Sim A :=
  throw (ThrownObject (mkObject true "call revert exception" (Some "CALL_EXCEPTION") None)).

#[export] Instance simTimer : Timer Sim :=
  {| delay ms := fun w => (Resolved tt, noteDelay ms w) |}.

#[export] Instance simChain : Chain Sim :=
  {| chainTimer := simTimer;
     getNetwork provider :=
       match staticNetwork provider with
       | Some (chainId, _) => ret chainId
       | None => read sim_chainId
       end;
     getBlockNumber := read sim_latestBlock;
     projectCount _ := read sim_projectCount;
     queryFilter _ fromBlock toBlock := fun w =>
       (Resolved (inWindow fromBlock toBlock (sim_log w)), noteQuery fromBlock toBlock w);
     pyusd p := read (fun w => sim_pyusd w p);
     getNAVPerShare p := read (fun w => sim_nav w p);
     getTargetPoolPrice p := read (fun w => sim_target w p);
     getPool _ tokenA tokenB _ := read (fun w => sim_pool w tokenA tokenB);
     slot0 pool := read (fun w => sim_sqrtPrice w pool);
     poolLiquidityOf pool := read (fun w => sim_poolLiquidity w pool);
     positionBalanceOf _ _ := read (fun w => Z.of_nat (length (sim_owned w)));
     tokenOfOwnerByIndex _ _ index := fun w =>
       match nth_error (sim_owned w) (Z.to_nat index) with
       | Some (id, _) => (Resolved id, w)
       | None => revert w
       end;
     positionsOf _ id := fun w =>
       match List.find (fun p => fst p =? id) (sim_owned w) with
       | Some (_, data) => (Resolved data, w)
       | None => revert w
       end;
     erc20BalanceOf token owner := read (fun w => sim_balance w token owner);
     erc20Allowance token owner spender := read (fun w => sim_allowance w token owner spender);
     contractCall request := fun w =>
       (Resolved ("0xtx" +:+ BigNumber.toString (Z.of_nat (length (sim_sent w)))),
        noteCall request w);
     dateNow := read sim_clock |}.

(** * The positions-only variant of the ability

    The same package also ships a variant of the ability that skips
    project discovery: it reads the positions of the PKP, looks up the
    symbols of their tokens, and reports.  [inferChainIdFromRpc],
    [createProvider], [withRpcRetry] and [fetchOwnedPositions] are the
    same text in both variants and are shared here; the network table,
    the result shapes and the two entry points are its own. *)
Module PositionsOnly.

Definition NETWORK_CONFIG (chainId : Z) : option NetworkConfig :=
  if chainId =? 1 then
    Some (mkNetworkConfig "0x1F98431c8aD98523631AE4a59f267346ea31F984"
                          "0xC36442b4a4522E871399CD717aBDD847Ab11FE88")
  else if chainId =? 11155111 then
    Some (mkNetworkConfig "0x0227628f3F023bb0B980b67D528571c95c6DaC1c"
                          "0x1238536071E1c677A632429e3655c799b22cDA52")
  else if chainId =? 175188 then
    Some (mkNetworkConfig "0x0227628f3F023bb0B980b67D528571c95c6DaC1c"
                          "0x1238536071E1c677A632429e3655c799b22cDA52")
  else if chainId =? 8453 then
    Some (mkNetworkConfig "0x1F98431c8aD98523631AE4a59f267346ea31F984"
                          "0xC36442b4a4522E871399CD717aBDD847Ab11FE88")
  else None.

Inductive PrecheckResult :=
| PrecheckSucceed (registryAddress : string) (projectCount trackedPositions : Z)
                  (projects : list ProjectSummary)
| PrecheckFail (reason : KnownError) (error : string).

Inductive ExecuteResult :=
| ExecuteSucceed (registryAddress : string) (totalActions : Z)
                 (projects : list ExecuteProjectReport)
| ExecuteFail (error : string) (reason : KnownError).

Section Ability.
Context {W : Type} `{Chain W}.
(** [ethers.utils.isAddress], a library predicate. *)
Variable isAddress : string -> bool.
(** [symbol()] of an ERC-20 token, the one read this variant adds. *)
Variable symbol : string -> M W string.

Definition discoverNetworkConfig (provider : Provider) (rpcUrl : option string)
  : M W NetworkConfig :=
  tryCatch
    (chainId <~ getNetwork provider ;;
     match NETWORK_CONFIG chainId with
     | Some config => ret config
     | None => throw (newError ("Unsupported network " +:+ BigNumber.toString chainId))
     end)
    (fun error =>
       match inferChainIdFromRpc rpcUrl with
       | Some fallbackChainId =>
           match NETWORK_CONFIG fallbackChainId with
           | Some config => ret config
           | None => throw error
           end
       | None => throw error
       end).

(** [Promise.all([a, b])] of two retried reads: both are started, and the
    whole rejects with the first rejection in listed order.  The two runs
    are taken one after the other. *)
Definition promiseAll2 {A B} (a : M W A) (b : M W B) : M W (A * B) :=
  fun w =>
    let '(ra, w1) := a w in
    let '(rb, w2) := b w1 in
    (match ra, rb with
     | Resolved x, Resolved y => Resolved (x, y)
     | Rejected e, _ => Rejected e
     | Resolved _, Rejected e => Rejected e
     end, w2).

(** The body of [for (const position of ownedPositions)]: the symbols are
    only logged, and a failure to read them is caught on the spot. *)
Definition inspectPosition (_ : unit) (position : PositionInfo) : M W unit :=
  tryCatch
    (promiseAll2 (withRpcRetry (symbol (token0 position)))
                 (withRpcRetry (symbol (token1 position))) ;;;
     ret tt)
    (fun _ => ret tt).

Definition precheck (abilityParams : AbilityParams) (delegation : option Delegation)
  : M W PrecheckResult :=
  if negb (isAddress (registryAddress abilityParams)) then
    ret (PrecheckFail INVALID_REGISTRY_ADDRESS
           ("Invalid registry address: " +:+ registryAddress abilityParams))
  else
    tryCatch
      (let provider := createProvider (rpcUrl abilityParams) in
       networkConfig <~ discoverNetworkConfig provider (rpcUrl abilityParams) ;;
       let pkpAddress := match delegation with Some d => ethAddress d | None => None end in
       match pkpAddress with
       | Some pkp =>
           if negb (truthy pkpAddress) then
             ret (PrecheckSucceed (registryAddress abilityParams) 0 0 [])
           else
             ownedPositions <~ fetchOwnedPositions networkConfig pkp ;;
             ret (PrecheckSucceed (registryAddress abilityParams) 0
                    (Z.of_nat (length ownedPositions)) [])
       | None => ret (PrecheckSucceed (registryAddress abilityParams) 0 0 [])
       end)
      (fun error => ret (PrecheckFail PROVIDER_ERROR (errorText error))).

Definition execute (abilityParams : AbilityParams) (delegation : option Delegation)
  : M W ExecuteResult :=
  tryCatch
    (if negb (isAddress (registryAddress abilityParams)) then
       throw (newError ("Invalid registry address: " +:+ registryAddress abilityParams))
     else
       let provider := createProvider (rpcUrl abilityParams) in
       networkConfig <~ discoverNetworkConfig provider (rpcUrl abilityParams) ;;
       let pkpPublicKey := match delegation with Some d => publicKey d | None => None end in
       let pkpAddress := match delegation with Some d => ethAddress d | None => None end in
       match pkpPublicKey, pkpAddress with
       | Some pkpPublicKey, Some pkpAddress =>
           if negb (truthy (Some pkpPublicKey)) || negb (truthy (Some pkpAddress)) then
             throw (newError "Delegation context missing PKP information")
           else
             ownedPositions <~ fetchOwnedPositions networkConfig pkpAddress ;;
             if (length ownedPositions =? 0)%nat then
               ret (ExecuteSucceed (registryAddress abilityParams) 0 [])
             else
               forEach inspectPosition ownedPositions tt ;;;
               ret (ExecuteSucceed (registryAddress abilityParams) 0 [])
       | _, _ => throw (newError "Delegation context missing PKP information")
       end)
    (fun error =>
       ret (ExecuteFail
              (errorText error)
              (match error with
               | ThrownObject o =>
                   if isError o && includes (message o) "registry address"
                   then INVALID_REGISTRY_ADDRESS else PROVIDER_ERROR
               | ThrownPrimitive _ => PROVIDER_ERROR
               end))).

End Ability.

End PositionsOnly.

(** * The address schema

    [ethereumAddressSchema]: the regular expression
    [/^0x[a-fA-F0-9]{40}$/] that the parameters and the reports are
    validated against. *)
Definition isHexDigit (c : ascii) : bool :=
  let n := nat_of_ascii c in
  ((48 <=? n) && (n <=? 57) || (65 <=? n) && (n <=? 70) || (97 <=? n) && (n <=? 102))%nat.

(** [[a-fA-F0-9]{n}$]. *)
Fixpoint hexDigits (n : nat) (s : string) : bool :=
  match n, s with
  | O, EmptyString => true
  | S n', String c s' => isHexDigit c && hexDigits n' s'
  | _, _ => false
  end.

Definition ethereumAddressSchema (s : string) : bool :=
  match s with
  | String "0" (String "x" digits) => hexDigits 40 digits
  | _ => false
  end.

(** * Vocabulary of the statements

    Shapes, predicates and sample data that the properties below are
    phrased with; none of them is part of the ability. *)

(** ** Deviation and retry *)

Definition flipDirection (d : Direction) : Direction :=
  match d with
  | increase => decrease
  | decrease => increase
  | none => none
  end.

Definition serverError : thrown :=
  ThrownObject (mkObject true "bad gateway" (Some "SERVER_ERROR") (Some 502)).

(** ** The action log *)

Definition accrueRecord (addr h : string) : ActionRecord :=
  mkActionRecord addr None "accrueInterest" h.

Definition positionRecord (addr tid label h : string) : ActionRecord :=
  mkActionRecord addr (Some tid) label h.

Definition approvalRecords (addr tid label : string) (h : option string)
  : list ActionRecord :=
  match h with
  | Some h => [positionRecord addr tid label h]
  | None => []
  end.

(** What one position contributes to the log. *)
Inductive positionBlock (addr tid : string) : list ActionRecord -> Prop :=
| block_skipped : positionBlock addr tid []
| block_decrease h1 h2 :
    positionBlock addr tid
      [positionRecord addr tid "decreaseLiquidity" h1;
       positionRecord addr tid "collect" h2]
| block_increase a0 a1 h :
    positionBlock addr tid
      (approvalRecords addr tid "approveToken0" a0 ++
       approvalRecords addr tid "approveToken1" a1 ++
       [positionRecord addr tid "increaseLiquidity" h]).

Inductive positionBlocks (addr : string) : list PositionInfo -> list ActionRecord -> Prop :=
| blocks_nil : positionBlocks addr [] []
| blocks_cons p ps b bs :
    positionBlock addr (tokenId p) b ->
    positionBlocks addr ps bs ->
    positionBlocks addr (p :: ps) (b ++ bs).

(** What a run over [metrics] records, project by project. *)
Inductive runBlocks : list ProjectMetrics -> list ActionRecord -> Prop :=
| run_nil : runBlocks [] []
| run_skip m ms l :
    shouldRebalance m = false ->
    runBlocks ms l ->
    runBlocks (m :: ms) l
| run_rebalance m ms h bs l :
    shouldRebalance m = true ->
    positionBlocks (projectAddress (project m)) (positions m) bs ->
    runBlocks ms l ->
    runBlocks (m :: ms) (accrueRecord (projectAddress (project m)) h :: bs ++ l).

Definition samePosition (a b : ActionRecord) : Prop :=
  act_tokenId b = act_tokenId a /\ act_projectAddress b = act_projectAddress a.

Definition isApproval (a : ActionRecord) : Prop :=
  name a = "approveToken0" \/ name a = "approveToken1".

(** Every decrease is directly followed by the collect of the same
    position, every collect directly preceded by such a decrease, and
    every approval is followed, at most one record later, by the increase
    of the same position. *)
Definition ordered (l : list ActionRecord) : Prop :=
  forall (i : nat) (a : ActionRecord),
    l !! i = Some a ->
    (name a = "decreaseLiquidity" ->
       exists b, l !! S i = Some b /\ name b = "collect" /\ samePosition a b)
    /\ (name a = "collect" ->
       exists j b, i = S j /\ l !! j = Some b /\ name b = "decreaseLiquidity"
                   /\ samePosition a b)
    /\ (isApproval a ->
       exists j b, (i < j <= i + 2)%nat /\ l !! j = Some b
                   /\ name b = "increaseLiquidity" /\ samePosition a b).

(** The amount a decrease is to remove, in the words of the
    specification: floor(L * rebalanceBps / 10000) with the default 2500,
    and all of L when that floor is 0. *)
Definition specLiquidityToRemove (liquidity : Z) : Z :=
  let q := liquidity * DEFAULT_REBALANCE_LIQUIDITY_BPS / 10000 in
  if q =? 0 then liquidity else q.

Definition decreaseRequest (config : NetworkConfig) (pkpPublicKey pkpAddress : string)
    (position : PositionInfo) (amount : string) (deadline : Z) : CallRequest :=
  mkCallRequest pkpPublicKey pkpAddress NONFUNGIBLE_POSITION_MANAGER_ABI
    (positionManager config) "decreaseLiquidity"
    (DecreaseLiquidityArgs (tokenId position) amount 0 0 deadline).

Definition collectRequest (config : NetworkConfig) (pkpPublicKey pkpAddress : string)
    (position : PositionInfo) : CallRequest :=
  mkCallRequest pkpPublicKey pkpAddress NONFUNGIBLE_POSITION_MANAGER_ABI
    (positionManager config) "collect"
    (CollectArgs (tokenId position) pkpAddress
       (BigNumber.toString MAX_UINT128) (BigNumber.toString MAX_UINT128)).

Definition targetZeroMessage : string :=
  "Target pool price returned 0 from CornerstoneProject".

(** ** Matching *)

(** Hexadecimal addresses contain no colon. *)
Fixpoint colonFree (s : string) : bool :=
  match s with
  | EmptyString => true
  | String c s' => negb (Ascii.eqb c ":") && colonFree s'
  end.

(** The index under which a key ends up in [projectTokenPairs]: the last
    metric of the array with that key. *)
Fixpoint lastKeyIndex (key : string) (metrics : list ProjectMetrics) : option nat :=
  match metrics with
  | [] => None
  | metric :: rest =>
      match lastKeyIndex key rest with
      | Some j => Some (S j)
      | None => if decide (metricKey metric = key) then Some 0%nat else None
      end
  end.

Definition attachedAt (metrics : list ProjectMetrics) (i : nat) (position : PositionInfo)
  : Prop :=
  lastKeyIndex (positionKey position) metrics = Some i.

#[export] Instance attachedAt_dec metrics i position :
  Decision (attachedAt metrics i position).
Proof. unfold attachedAt. apply _. Defined.

(** ** Discovery *)

(** The key under which [recordEvent] files an event: the lower-cased
    project address, when the log was decoded and carries one. *)
Definition creationKey (e : Event) : option string :=
  match eventProject e with
  | Some projectAddress =>
      if truthy (Some projectAddress) then Some (toLowerCase projectAddress) else None
  | None => None
  end.

(** The projects a log records. *)
Definition recordedProjects (log : list Event) : gset string :=
  list_to_set (omap creationKey log).

Definition blockLe (a b : Event) : Prop := blockNumber a <= blockNumber b.

(** What the scan maintains: [seen] is the set of keys of [events], no
    key occurs twice, and every collected event is one of the log. *)
Definition scanInv (log events : list Event) (seen : gset string) : Prop :=
  (forall k, k ∈ seen <-> k ∈ omap creationKey events)
  /\ NoDup (omap creationKey events)
  /\ Forall (fun e => is_Some (creationKey e)) events
  /\ (forall e, e ∈ events -> e ∈ log)
  /\ size seen = length events.

(** The project record [discoverProjects] builds from a creation event. *)
Definition projectOfEvent (w : Sim) (e : Event) : ProjectInfo :=
  let projectAddress := default "" (eventProject e) in
  mkProjectInfo projectAddress (default "" (eventToken e)) (sim_pyusd w projectAddress).

(** ** A concrete registry, used to exercise the statements below *)

Definition sampleRegistry : string := "0x00000000000000000000000000000000000000aa".
Definition sampleProject : string := "0x00000000000000000000000000000000000000b1".
Definition sampleToken : string := "0x00000000000000000000000000000000000000C1".
Definition sampleStable : string := "0x00000000000000000000000000000000000000d1".
Definition samplePool : string := "0x00000000000000000000000000000000000000e1".
Definition samplePkp : string := "0x00000000000000000000000000000000000000f1".
Definition sampleOther : string := "0x00000000000000000000000000000000000000f9".
Definition samplePublicKey : string := "0x04abcd".

(** One project created in block 7; the wallet owns position 7 (1000
    units, token pair of the project in the other order and case),
    position 8 (an unrelated pair) and position 9 (3 units). *)
Definition sampleWorld (sqrtPriceX96 target : Z) : Sim :=
  {| sim_chainId := 11155111;
     sim_latestBlock := 25;
     sim_projectCount := 1;
     sim_log :=
       [mkEvent 7 (Some (mkEventArgs (Some sampleProject) (Some sampleToken)
                                     (Some samplePkp)))];
     sim_pyusd := fun _ => sampleStable;
     sim_nav := fun _ => 10 ^ 18;
     sim_target := fun _ => target;
     sim_pool := fun _ _ => samplePool;
     sim_sqrtPrice := fun _ => sqrtPriceX96;
     sim_poolLiquidity := fun _ => 5000;
     sim_owned :=
       [(7, mkPositionData sampleStable (toLowerCase sampleToken) 3000 (-60) 60 1000);
        (8, mkPositionData sampleStable sampleOther 3000 (-60) 60 1000);
        (9, mkPositionData sampleToken sampleStable 3000 (-60) 60 3)];
     sim_balance := fun _ _ => 50;
     sim_allowance := fun _ _ _ => 0;
     sim_clock := 1700000000123;
     sim_queries := [];
     sim_sent := [];
     sim_waited := [] |}.

Definition sampleParams : AbilityParams := mkAbilityParams sampleRegistry None.

Definition sampleDelegation : option Delegation :=
  Some (mkDelegation (Some samplePkp) (Some samplePublicKey)).

Definition sampleConfig : NetworkConfig :=
  mkNetworkConfig "0x0227628f3F023bb0B980b67D528571c95c6DaC1c"
                  "0x1238536071E1c677A632429e3655c799b22cDA52".

Definition samplePosition (id : string) (amount : Z) : PositionInfo :=
  mkPositionInfo id sampleStable sampleToken 3000 amount (-60) 60.

Definition sampleMetric (addr : string) (bps : Z) (d : Direction)
    (ps : list PositionInfo) : ProjectMetrics :=
  {| project := mkProjectInfo addr sampleToken sampleStable;
     poolAddress := Some samplePool;
     navPerShare := 10 ^ 18;
     targetPoolPrice := 2 * 10 ^ 18;
     currentPoolPrice := 10 ^ 18;
     poolLiquidity := 5000;
     deviationBps := bps;
     direction := d;
     positions := ps |}.

(** Current price 1.0 against target 2.0 (increase), and current price
    4.0 against target 2.0 (decrease). *)
Definition sampleIncreaseWorld : Sim := sampleWorld (2 ^ 96) (2 * 10 ^ 18).
Definition sampleDecreaseWorld : Sim := sampleWorld (2 ^ 97) (2 * 10 ^ 18).

(** Current price 1.0 against target 1.005: 49 bps, below the threshold. *)
Definition sampleQuietWorld : Sim := sampleWorld (2 ^ 96) (1005 * 10 ^ 15).

Definition sampleQuietReports : list ExecuteProjectReport :=
  match fst (execute (fun _ => true) sampleParams sampleDelegation sampleQuietWorld) with
  | Resolved (ExecuteSucceed _ _ _ reports) => reports
  | _ => []
  end.

(** Two eligible projects: the first is rebalanced downward, the second
    upward. *)
Definition sampleMetrics : list ProjectMetrics :=
  [sampleMetric sampleProject 10000 decrease [samplePosition "7" 1000];
   sampleMetric sampleOther 5000 increase [samplePosition "11" 400]].

Definition sampleActions : list ActionRecord :=
  [accrueRecord sampleProject "0xtx0";
   positionRecord sampleProject "7" "decreaseLiquidity" "0xtx1";
   positionRecord sampleProject "7" "collect" "0xtx2";
   accrueRecord sampleOther "0xtx3";
   positionRecord sampleOther "11" "approveToken0" "0xtx4";
   positionRecord sampleOther "11" "approveToken1" "0xtx5";
   positionRecord sampleOther "11" "increaseLiquidity" "0xtx6"].

(** The metrics of the sample project before matching, and the three
    positions the sample wallet owns. *)
Definition sampleFresh : list ProjectMetrics :=
  [sampleMetric sampleProject 10000 decrease []].

Definition sampleOwned : list PositionInfo :=
  [mkPositionInfo "7" sampleStable (toLowerCase sampleToken) 3000 1000 (-60) 60;
   mkPositionInfo "8" sampleStable sampleOther 3000 1000 (-60) 60;
   mkPositionInfo "9" sampleToken sampleStable 3000 3 (-60) 60].

Definition sampleMatchedActions : list ActionRecord :=
  match fst (rebalanceAll sampleConfig samplePublicKey samplePkp
               (attachPositionsToProjects sampleFresh sampleOwned)
               sampleDecreaseWorld) with
  | Resolved acts => acts
  | Rejected _ => []
  end.

(** The sample registry with a project whose target price reads 0. *)
Definition sampleZeroTargetWorld : Sim := sampleWorld (2 ^ 96) 0.

(** A registry with three projects created in blocks 2, 14 and 21, seen
    at block 25: the scan visits the windows 16..25, 6..15 and 0..5. *)
Definition sampleCreation (block : Z) (addr : string) : Event :=
  mkEvent block (Some (mkEventArgs (Some addr) (Some sampleToken) (Some samplePkp))).

Definition sampleLog : list Event :=
  [sampleCreation 2 sampleProject;
   sampleCreation 14 sampleOther;
   sampleCreation 21 samplePool].

Definition sampleRegistryWorld : Sim :=
  {| sim_chainId := 11155111;
     sim_latestBlock := 25;
     sim_projectCount := 3;
     sim_log := sampleLog;
     sim_pyusd := fun _ => sampleStable;
     sim_nav := fun _ => 10 ^ 18;
     sim_target := fun _ => 2 * 10 ^ 18;
     sim_pool := fun _ _ => samplePool;
     sim_sqrtPrice := fun _ => 2 ^ 96;
     sim_poolLiquidity := fun _ => 5000;
     sim_owned := [];
     sim_balance := fun _ _ => 0;
     sim_allowance := fun _ _ _ => 0;
     sim_clock := 1700000000123;
     sim_queries := [];
     sim_sent := [];
     sim_waited := [] |}.

(** ** Further fixtures *)

(** The projects discovered in the three-project registry. *)
Definition sampleProjects : list ProjectInfo :=
  match fst (discoverProjects sampleRegistry sampleRegistryWorld) with
  | Resolved projects => projects
  | Rejected _ => []
  end.

Definition sampleInfo : ProjectInfo :=
  mkProjectInfo sampleProject sampleToken sampleStable.

(** The sample registry when the factory knows no pool for the pair. *)
Definition sampleNoPoolWorld : Sim :=
  {| sim_chainId := 11155111;
     sim_latestBlock := 25;
     sim_projectCount := 1;
     sim_log := sim_log sampleIncreaseWorld;
     sim_pyusd := fun _ => sampleStable;
     sim_nav := fun _ => 10 ^ 18;
     sim_target := fun _ => 2 * 10 ^ 18;
     sim_pool := fun _ _ => AddressZero;
     sim_sqrtPrice := fun _ => 2 ^ 96;
     sim_poolLiquidity := fun _ => 5000;
     sim_owned := sim_owned sampleIncreaseWorld;
     sim_balance := fun _ _ => 50;
     sim_allowance := fun _ _ _ => 0;
     sim_clock := 1700000000123;
     sim_queries := [];
     sim_sent := [];
     sim_waited := [] |}.

Definition sampleFetched (w : Sim) : ProjectMetrics :=
  match fst (fetchProjectMetrics sampleInfo sampleConfig w) with
  | Resolved m => m
  | Rejected _ => sampleMetric sampleProject 0 none []
  end.

(** The snapshot chain, except that the position manager reports a
    balance of 2^53 for every owner. *)
Definition hugeBalanceChain : Chain Sim :=
  {| chainTimer := simTimer;
     getNetwork := @getNetwork Sim simChain;
     getBlockNumber := @getBlockNumber Sim simChain;
     projectCount := @projectCount Sim simChain;
     queryFilter := @queryFilter Sim simChain;
     pyusd := @pyusd Sim simChain;
     getNAVPerShare := @getNAVPerShare Sim simChain;
     getTargetPoolPrice := @getTargetPoolPrice Sim simChain;
     getPool := @getPool Sim simChain;
     slot0 := @slot0 Sim simChain;
     poolLiquidityOf := @poolLiquidityOf Sim simChain;
     positionBalanceOf _ _ := ret (2 ^ 53);
     tokenOfOwnerByIndex := @tokenOfOwnerByIndex Sim simChain;
     positionsOf := @positionsOf Sim simChain;
     erc20BalanceOf := @erc20BalanceOf Sim simChain;
     erc20Allowance := @erc20Allowance Sim simChain;
     contractCall := @contractCall Sim simChain;
     dateNow := @dateNow Sim simChain |}.

Definition sampleEvaluated : NetworkConfig * list ProjectMetrics :=
  match fst (evaluateRegistry sampleParams sampleIncreaseWorld) with
  | Resolved evaluated => evaluated
  | Rejected _ => (sampleConfig, [])
  end.

(** [!pkpPublicKey || !pkpAddress] on the delegation context. *)
Definition missingPkp (delegation : option Delegation) : bool :=
  match delegation with
  | Some d => negb (truthy (publicKey d)) || negb (truthy (ethAddress d))
  | None => true
  end.

Definition missingAddress (delegation : option Delegation) : bool :=
  match delegation with
  | Some d => negb (truthy (ethAddress d))
  | None => true
  end.

Definition precheckReason (r : PrecheckResult) : option KnownError :=
  match r with
  | PrecheckSucceed _ _ _ _ _ => None
  | PrecheckFail reason _ => Some reason
  end.

Definition executeReason (r : ExecuteResult) : option KnownError :=
  match r with
  | ExecuteSucceed _ _ _ _ => None
  | ExecuteFail _ reason => Some reason
  end.

(** ** Observations that reads leave alone *)

(** A computation preserves an observation of the world when the
    observation reads the same before and after every run of it,
    resolved or rejected. *)
Definition preserves {W X A : Type} (obs : W -> X) (m : M W A) : Prop :=
  forall w, obs (snd (m w)) = obs w.

(** Every operation of the chain other than [contractCall] preserves the
    observation. *)
Definition readsPreserve {W X : Type} `{Chain W} (obs : W -> X) : Prop :=
  (forall ms, preserves obs (delay ms))
  /\ (forall provider, preserves obs (getNetwork provider))
  /\ preserves obs getBlockNumber
  /\ (forall registry, preserves obs (projectCount registry))
  /\ (forall registry fromBlock toBlock,
         preserves obs (queryFilter registry fromBlock toBlock))
  /\ (forall project, preserves obs (pyusd project))
  /\ (forall project, preserves obs (getNAVPerShare project))
  /\ (forall project, preserves obs (getTargetPoolPrice project))
  /\ (forall factory tokenA tokenB fee, preserves obs (getPool factory tokenA tokenB fee))
  /\ (forall pool, preserves obs (slot0 pool))
  /\ (forall pool, preserves obs (poolLiquidityOf pool))
  /\ (forall manager owner, preserves obs (positionBalanceOf manager owner))
  /\ (forall manager owner index, preserves obs (tokenOfOwnerByIndex manager owner index))
  /\ (forall manager id, preserves obs (positionsOf manager id))
  /\ (forall token owner, preserves obs (erc20BalanceOf token owner))
  /\ (forall token owner spender, preserves obs (erc20Allowance token owner spender))
  /\ preserves obs dateNow.

(** ** Requests of the increase path *)

Definition approveRequest (config : NetworkConfig) (pkpPublicKey pkpAddress : string)
    (token amount : string) : CallRequest :=
  mkCallRequest pkpPublicKey pkpAddress ERC20_ABI token "approve"
    (ApproveArgs (positionManager config) amount).

Definition increaseRequest (config : NetworkConfig) (pkpPublicKey pkpAddress : string)
    (position : PositionInfo) (amount0 amount1 : string) (deadline : Z) : CallRequest :=
  mkCallRequest pkpPublicKey pkpAddress NONFUNGIBLE_POSITION_MANAGER_ABI
    (positionManager config) "increaseLiquidity"
    (IncreaseLiquidityArgs (tokenId position) amount0 amount1 0 0 deadline).

(** The approval requested for a token of which the wallet holds
    [balance] and the position manager may spend [allowance]. *)
Definition approvalRequests (config : NetworkConfig) (pkpPublicKey pkpAddress : string)
    (token : string) (balance allowance : Z) : list CallRequest :=
  if (0 <? balance) && (allowance <? balance)
  then [approveRequest config pkpPublicKey pkpAddress token (BigNumber.toString balance)]
  else [].

(** ** Reading the results of the entry points *)

Definition precheckCount (r : PrecheckResult) : Z :=
  match r with PrecheckSucceed _ count _ _ _ => count | PrecheckFail _ _ => 0 end.

Definition precheckTracked (r : PrecheckResult) : Z :=
  match r with PrecheckSucceed _ _ tracked _ _ => tracked | PrecheckFail _ _ => 0 end.

Definition precheckProjects (r : PrecheckResult) : list ProjectSummary :=
  match r with PrecheckSucceed _ _ _ _ projects => projects | PrecheckFail _ _ => [] end.

Definition executeTotal (r : ExecuteResult) : Z :=
  match r with ExecuteSucceed _ total _ _ => total | ExecuteFail _ _ => 0 end.

Definition executeReports (r : ExecuteResult) : list ExecuteProjectReport :=
  match r with ExecuteSucceed _ _ _ reports => reports | ExecuteFail _ _ => [] end.

Definition samplePrecheck : PrecheckResult :=
  match fst (precheck (fun _ => true) sampleParams sampleDelegation sampleIncreaseWorld) with
  | Resolved r => r
  | Rejected _ => PrecheckFail POLICY_ERROR "rejected"
  end.

Definition sampleExecute : ExecuteResult :=
  match fst (execute (fun _ => true) sampleParams sampleDelegation sampleIncreaseWorld) with
  | Resolved r => r
  | Rejected _ => ExecuteFail "rejected" POLICY_ERROR
  end.

(** ** Shape of a backward scan *)

(** The windows of a scan that starts at [endBlock] and walks toward
    block 0: each window ends where the scan stands, spans at most
    [MAX_EVENT_BLOCK_SPAN] blocks, and the next one ends just below it. *)
Fixpoint contiguousFrom (endBlock : Z) (windows : list (Z * Z)) : Prop :=
  match windows with
  | [] => True
  | (fromBlock, toBlock) :: rest =>
      toBlock = endBlock
      /\ 0 <= toBlock
      /\ fromBlock = Z.max 0 (toBlock - MAX_EVENT_BLOCK_SPAN + 1)
      /\ contiguousFrom (fromBlock - 1) rest
  end.

(** ** The positions-only variant on the snapshot chain *)

(** A token contract whose [symbol()] always reverts. *)
Definition brokenSymbol (token : string) : M Sim string := revert.

(** ** Records against requests *)

(** A record of the action log mirrors a dispatched request: the request
    was made for the PKP of the run, and the record names the call, the
    project or the position it was made for. *)
Definition mirrors (config : NetworkConfig) (pkpPublicKey pkpAddress : string)
    (a : ActionRecord) (r : CallRequest) : Prop :=
  call_pkpPublicKey r = pkpPublicKey
  /\ callerAddress r = pkpAddress
  /\ match call_args r with
     | AccrueInterestArgs =>
         name a = "accrueInterest" /\ functionName r = "accrueInterest"
         /\ abi r = CORNERSTONE_PROJECT_ABI
         /\ contractAddress r = act_projectAddress a /\ act_tokenId a = None
     | DecreaseLiquidityArgs id _ _ _ _ =>
         name a = "decreaseLiquidity" /\ functionName r = "decreaseLiquidity"
         /\ abi r = NONFUNGIBLE_POSITION_MANAGER_ABI
         /\ contractAddress r = positionManager config /\ act_tokenId a = Some id
     | CollectArgs id recipient _ _ =>
         name a = "collect" /\ functionName r = "collect"
         /\ abi r = NONFUNGIBLE_POSITION_MANAGER_ABI
         /\ contractAddress r = positionManager config /\ act_tokenId a = Some id
         /\ recipient = pkpAddress
     | ApproveArgs spender _ =>
         isApproval a /\ functionName r = "approve"
         /\ abi r = ERC20_ABI
         /\ spender = positionManager config
     | IncreaseLiquidityArgs id _ _ _ _ _ =>
         name a = "increaseLiquidity" /\ functionName r = "increaseLiquidity"
         /\ abi r = NONFUNGIBLE_POSITION_MANAGER_ABI
         /\ contractAddress r = positionManager config /\ act_tokenId a = Some id
     end.

(** ** Characters of a message *)

Fixpoint occurs (c : ascii) (s : string) : bool :=
  match s with
  | EmptyString => false
  | String d s' => Ascii.eqb c d || occurs c s'
  end.

(** The sample registry seen through the default RPC endpoint, whose
    chain reports the id 175188. *)
Definition sampleYellowstoneWorld : Sim :=
  {| sim_chainId := 175188;
     sim_latestBlock := 25;
     sim_projectCount := 1;
     sim_log := sim_log sampleIncreaseWorld;
     sim_pyusd := fun _ => sampleStable;
     sim_nav := fun _ => 10 ^ 18;
     sim_target := fun _ => 2 * 10 ^ 18;
     sim_pool := fun _ _ => samplePool;
     sim_sqrtPrice := fun _ => 2 ^ 96;
     sim_poolLiquidity := fun _ => 5000;
     sim_owned := sim_owned sampleIncreaseWorld;
     sim_balance := fun _ _ => 50;
     sim_allowance := fun _ _ _ => 0;
     sim_clock := 1700000000123;
     sim_queries := [];
     sim_sent := [];
     sim_waited := [] |}.

(** Three projects of which the second reads a target price of 0. *)
Definition sampleMixedWorld : Sim :=
  {| sim_chainId := 11155111;
     sim_latestBlock := 25;
     sim_projectCount := 3;
     sim_log := sampleLog;
     sim_pyusd := fun _ => sampleStable;
     sim_nav := fun _ => 10 ^ 18;
     sim_target := fun p => if String.eqb p sampleOther then 0 else 2 * 10 ^ 18;
     sim_pool := fun _ _ => samplePool;
     sim_sqrtPrice := fun _ => 2 ^ 96;
     sim_poolLiquidity := fun _ => 5000;
     sim_owned := [];
     sim_balance := fun _ _ => 0;
     sim_allowance := fun _ _ _ => 0;
     sim_clock := 1700000000123;
     sim_queries := [];
     sim_sent := [];
     sim_waited := [] |}.

Definition sampleMixedProjects : list ProjectInfo :=
  [sampleInfo;
   mkProjectInfo sampleOther sampleToken sampleStable;
   mkProjectInfo samplePool sampleToken sampleStable].

(** * Properties *)

(** ** Deviation *)

Lemma calculateDeviation_nonzero (c t : Z) :
  t <> 0 ->
  calculateDeviation c t =
    Resolved (mkDeviation (Z.abs (c - t))
                          (Z.quot (Z.abs (c - t) * 10000) t)
                          (if t <? c then decrease
                           else if c <? t then increase else none)).
Proof.
  intros Ht. unfold calculateDeviation, BigNumber.isZero, BigNumber.eq,
    BigNumber.gt, BigNumber.sub, BigNumber.mul, BigNumber.div.
  destruct (Z.eqb_spec t 0) as [|_]; [contradiction|].
  destruct (Z.eqb_spec c t) as [->|Hne].
  - rewrite Z.sub_diag, Z.ltb_irrefl. simpl. rewrite Z.quot_0_l by assumption.
    reflexivity.
  - destruct (Z.ltb_spec t c) as [Hgt|Hle]; simpl;
      destruct (Z.eqb_spec t 0) as [|_]; try contradiction.
    + rewrite Z.abs_eq by lia. reflexivity.
    + destruct (Z.ltb_spec c t) as [_|Hge]; [|lia].
      replace (Z.abs (c - t)) with (t - c) by lia. reflexivity.
Qed.

(** C4: for every current price and every nonzero (unsigned, hence
    positive) target price, [calculateDeviation] returns
    deviationBps = floor(|current - target| * 10000 / target), with
    direction decrease when current > target, increase when
    current < target and none when they are equal. *)
Theorem calculateDeviation_formula (currentPrice targetPrice : Z) :
  0 < targetPrice ->
  exists d,
    calculateDeviation currentPrice targetPrice = Resolved d
    /\ dev_deviationBps d = Z.abs (currentPrice - targetPrice) * 10000 / targetPrice
    /\ (targetPrice < currentPrice -> dev_direction d = decrease)
    /\ (currentPrice < targetPrice -> dev_direction d = increase)
    /\ (currentPrice = targetPrice -> dev_direction d = none).
Proof.
  intros Ht. eexists. split; [apply calculateDeviation_nonzero; lia|].
  simpl. split; [|repeat split; intros Hc].
  - apply Z.quot_div_nonneg; lia.
  - destruct (Z.ltb_spec targetPrice currentPrice); [reflexivity|lia].
  - destruct (Z.ltb_spec targetPrice currentPrice); [lia|].
    destruct (Z.ltb_spec currentPrice targetPrice); [reflexivity|lia].
  - subst. now rewrite Z.ltb_irrefl.
Qed.

Lemma calculateDeviation_formula_witness :
  0 < 2000 /\
  exists d,
    calculateDeviation 1950 2000 = Resolved d
    /\ dev_deviationBps d = Z.abs (1950 - 2000) * 10000 / 2000
    /\ (2000 < 1950 -> dev_direction d = decrease)
    /\ (1950 < 2000 -> dev_direction d = increase)
    /\ (1950 = 2000 -> dev_direction d = none).
Proof. split; [lia | apply (calculateDeviation_formula 1950 2000); lia]. Defined.

(** C10: [calculateDeviation] is total.  [BigNumber.div] rejects on a zero
    divisor, and no pair of inputs makes the computation reject: a zero
    target returns deviationBps = 0 with direction none before the
    division is reached. *)
Theorem calculateDeviation_total :
  (forall currentPrice targetPrice,
      exists d, calculateDeviation currentPrice targetPrice = Resolved d)
  /\ (forall currentPrice,
      calculateDeviation currentPrice 0 = Resolved (mkDeviation 0 0 none)).
Proof.
  split.
  - intros c t. destruct (Z.eq_dec t 0) as [->|Ht].
    + eexists. reflexivity.
    + eexists. apply calculateDeviation_nonzero. assumption.
  - intros c. reflexivity.
Qed.

(** C3 as stated fails: with current = 1.95 and target = 2.00 (18-decimal
    fixed point) the deviation is 250 bps, and 256 bps after the swap. *)
Lemma deviation_swap_bps_counterexample :
  ~ (forall current target d1 d2,
        0 < current -> 0 < target ->
        calculateDeviation current target = Resolved d1 ->
        calculateDeviation target current = Resolved d2 ->
        dev_deviationBps d1 = dev_deviationBps d2).
Proof.
  intros Hclaim.
  specialize (Hclaim 1950000000000000000 2000000000000000000
                     (mkDeviation 50000000000000000 250 increase)
                     (mkDeviation 50000000000000000 256 decrease)).
  simpl in Hclaim.
  assert (250 = 256) as Habs by (apply Hclaim; reflexivity).
  discriminate Habs.
Qed.

(** C3, amended: for positive prices, the absolute deviation is
    |current - target| before and after the swap; deviationBps is
    floor(|current - target| * 10000 / target) before it and
    floor(|current - target| * 10000 / current) after it; the direction
    is decrease exactly when current > target, increase exactly when
    current < target and none exactly when the two prices are equal, and
    the swap flips it. *)
Theorem calculateDeviation_swap (current target : Z) :
  0 < current -> 0 < target ->
  exists d1 d2,
    calculateDeviation current target = Resolved d1
    /\ calculateDeviation target current = Resolved d2
    /\ deviation d1 = Z.abs (current - target)
    /\ deviation d2 = deviation d1
    /\ dev_deviationBps d1 = Z.abs (current - target) * 10000 / target
    /\ dev_deviationBps d2 = Z.abs (current - target) * 10000 / current
    /\ (dev_direction d1 = decrease <-> target < current)
    /\ (dev_direction d1 = increase <-> current < target)
    /\ (dev_direction d1 = none <-> current = target)
    /\ dev_direction d2 = flipDirection (dev_direction d1).
Proof.
  intros Hc Ht. do 2 eexists.
  split; [apply calculateDeviation_nonzero; lia|].
  split; [apply calculateDeviation_nonzero; lia|].
  cbn [deviation dev_deviationBps dev_direction].
  replace (Z.abs (target - current)) with (Z.abs (current - target)) by lia.
  split; [reflexivity|]. split; [reflexivity|].
  split; [apply Z.quot_div_nonneg; lia|]. split; [apply Z.quot_div_nonneg; lia|].
  destruct (Z.ltb_spec target current), (Z.ltb_spec current target);
    cbn [flipDirection]; repeat split; try reflexivity; try discriminate;
    intros; lia.
Qed.

Lemma calculateDeviation_swap_witness :
  exists d1 d2,
    calculateDeviation 1950 2000 = Resolved d1
    /\ calculateDeviation 2000 1950 = Resolved d2
    /\ deviation d1 = Z.abs (1950 - 2000)
    /\ deviation d2 = deviation d1
    /\ dev_deviationBps d1 = Z.abs (1950 - 2000) * 10000 / 2000
    /\ dev_deviationBps d2 = Z.abs (1950 - 2000) * 10000 / 1950
    /\ (dev_direction d1 = decrease <-> 2000 < 1950)
    /\ (dev_direction d1 = increase <-> 1950 < 2000)
    /\ (dev_direction d1 = none <-> 1950 = 2000)
    /\ dev_direction d2 = flipDirection (dev_direction d1).
Proof. apply (calculateDeviation_swap 1950 2000); lia. Defined.
Lemma retryLoop_step {W} `{Timer W} {T} (operation : M W T) attempt lastError :
  retryLoop operation attempt lastError =
    if Z_lt_dec attempt RPC_MAX_RETRIES then
      tryCatch operation (fun error =>
            if negb (isRetryableRpcError error) || (attempt + 1 =? RPC_MAX_RETRIES)
            then throw error
            else
              let backoffMs := RPC_RETRY_BASE_DELAY_MS * (attempt + 1) in
              delay backoffMs ;;;
              retryLoop operation (attempt + 1) error)
    else throw lastError.
Proof.
  simp retryLoop. destruct (Z_lt_dec attempt RPC_MAX_RETRIES); reflexivity.
Qed.

Lemma isRetryableRpcError_iff (e : thrown) :
  isRetryableRpcError e = true <->
  exists o, e = ThrownObject o /\
    (code o = Some "SERVER_ERROR" \/ code o = Some "NETWORK_ERROR" \/
     exists s, status o = Some s /\ 500 <= s).
Proof.
  destruct e as [o|s]; simpl.
  - split.
    + intros Hr. exists o. split; [reflexivity|].
      destruct (status o) as [s|] eqn:Hs.
      * destruct (Z.leb_spec 500 s) as [Hge|Hlt].
        { right. right. exists s. split; [reflexivity|assumption]. }
        rewrite andb_false_r in Hr.
        destruct (code o) as [c|]; simpl in Hr; [|discriminate].
        destruct (String.eqb c ""); simpl in Hr; [discriminate|].
        apply orb_true_iff in Hr as [Hc|Hc]; apply String.eqb_eq in Hc; subst; auto.
      * destruct (code o) as [c|]; simpl in Hr; [|discriminate].
        destruct (String.eqb c ""); simpl in Hr; [discriminate|].
        apply orb_true_iff in Hr as [Hc|Hc]; apply String.eqb_eq in Hc; subst; auto.
    + intros (o' & Heq & Hcase). injection Heq as <-.
      destruct Hcase as [Hc|[Hc|(s & Hs & Hge)]].
      * rewrite Hc. simpl. destruct (status o) as [s|]; [|reflexivity].
        destruct (negb (s =? 0) && (500 <=? s)); reflexivity.
      * rewrite Hc. simpl. destruct (status o) as [s|]; [|reflexivity].
        destruct (negb (s =? 0) && (500 <=? s)); reflexivity.
      * rewrite Hs. destruct (Z.eqb_spec s 0); [lia|].
        destruct (Z.leb_spec 500 s); [reflexivity|lia].
  - split; [discriminate|]. intros (o & Heq & _). discriminate.
Qed.

Section RetryFacts.
Context {St T : Type}.
Variable step : St -> outcome T * St.

Lemma retryLoop_calls_bound :
  forall (n : nat) (attempt : Z) (lastError : thrown) (w : Probe St),
    Z.to_nat (RPC_MAX_RETRIES - attempt) = n ->
    (opCalls (snd (retryLoop (probed step) attempt lastError w)) <= opCalls w + n)%nat.
Proof.
  induction n as [|n IH]; intros attempt lastError w Hn;
    rewrite retryLoop_step.
  - destruct (Z_lt_dec attempt RPC_MAX_RETRIES) as [Hlt|_]; [lia|].
    simpl. lia.
  - destruct (Z_lt_dec attempt RPC_MAX_RETRIES) as [_|Hge]; [|lia].
    unfold tryCatch, probed at 1.
    destruct (step (opState w)) as [[v|e] s] eqn:Hstep; simpl; [lia|].
    destruct (negb (isRetryableRpcError e) || (attempt + 1 =? RPC_MAX_RETRIES));
      simpl; [lia|].
    unfold bind. simpl.
    etransitivity; [apply IH; lia|]. simpl. lia.
Qed.
End RetryFacts.

(** C5: the retry wrapper invokes the operation at most three times; two
    retryable failures followed by a success return the success value
    after exactly the delays 1000 ms and 2000 ms; a non-retryable failure
    is rethrown at once, with no delay; and an error is retryable iff it
    carries code SERVER_ERROR or NETWORK_ERROR or a status of at least
    500. *)
Theorem withRpcRetry_contract :
  forall (St T : Type) (step : St -> outcome T * St) (s0 : St),
    let run := withRpcRetry (probed step) (mkProbe s0 0 []) in
    (opCalls (snd run) <= 3)%nat
    /\ (forall e1 s1 e2 s2 v s3,
          step s0 = (Rejected e1, s1) -> isRetryableRpcError e1 = true ->
          step s1 = (Rejected e2, s2) -> isRetryableRpcError e2 = true ->
          step s2 = (Resolved v, s3) ->
          run = (Resolved v, mkProbe s3 3 [1000; 2000]))
    /\ (forall e s1,
          step s0 = (Rejected e, s1) -> isRetryableRpcError e = false ->
          run = (Rejected e, mkProbe s1 1 []))
    /\ (forall e,
          isRetryableRpcError e = true <->
          exists o, e = ThrownObject o /\
            (code o = Some "SERVER_ERROR" \/ code o = Some "NETWORK_ERROR" \/
             exists s, status o = Some s /\ 500 <= s)).
Proof.
  intros St T step s0 run. subst run. unfold withRpcRetry.
  split; [|split; [|split]].
  - apply (retryLoop_calls_bound step 3 0). reflexivity.
  - intros e1 s1 e2 s2 v s3 H1 R1 H2 R2 H3.
    rewrite retryLoop_step. simpl.
    unfold tryCatch, probed at 1. simpl. rewrite H1, R1. simpl.
    unfold bind at 1. simpl.
    rewrite retryLoop_step. simpl.
    unfold tryCatch, probed at 1. simpl. rewrite H2, R2. simpl.
    unfold bind at 1. simpl.
    rewrite retryLoop_step. simpl.
    unfold tryCatch, probed at 1. simpl. rewrite H3. reflexivity.
  - intros e s1 H1 R1.
    rewrite retryLoop_step. simpl.
    unfold tryCatch, probed at 1. simpl. rewrite H1, R1. reflexivity.
  - apply isRetryableRpcError_iff.
Qed.

Lemma withRpcRetry_contract_witness :
  withRpcRetry (probed scripted)
    (mkProbe [Rejected serverError; Rejected serverError; Resolved 7] 0 [])
  = (Resolved 7, mkProbe [] 3 [1000; 2000]).
Proof.
  refine (proj1 (proj2 (withRpcRetry_contract _ _ scripted
            [Rejected serverError; Rejected serverError; Resolved 7]))
            serverError _ serverError _ 7 _ _ _ _ _ _);
    reflexivity.
Defined.

(** ** The world-passing monad *)

Lemma bind_resolved {W A B} (m : M W A) (k : A -> M W B) w b w' :
  bind m k w = (Resolved b, w') ->
  exists a w1, m w = (Resolved a, w1) /\ k a w1 = (Resolved b, w').
Proof.
  unfold bind. destruct (m w) as [[a|e] w1]; [eauto|discriminate].
Qed.

Lemma bind_step {W A B} (m : M W A) (k : A -> M W B) w a w1 :
  m w = (Resolved a, w1) -> bind m k w = k a w1.
Proof. unfold bind. now intros ->. Qed.

Lemma bind_rejected {W A B} (m : M W A) (k : A -> M W B) w e w1 :
  m w = (Rejected e, w1) -> bind m k w = (Rejected e, w1).
Proof. unfold bind. now intros ->. Qed.

Lemma ret_resolved {W A} (a b : A) (w w' : W) :
  ret a w = (Resolved b, w') -> a = b /\ w = w'.
Proof. unfold ret. intros [= -> ->]. auto. Qed.

Lemma liftOutcome_resolved {W A} (r : outcome A) (w w' : W) a :
  liftOutcome r w = (Resolved a, w') -> r = Resolved a /\ w = w'.
Proof. unfold liftOutcome. intros [= -> ->]. auto. Qed.

(** Inversion of a successful run, one binder at a time. *)
Ltac run_inv H :=
  lazymatch type of H with
  | bind _ _ _ = (Resolved _, _) =>
      let a := fresh "v" in
      let w := fresh "w" in
      let H1 := fresh "Hrun" in
      apply bind_resolved in H as (a & w & H1 & H)
  | ret _ _ = (Resolved _, _) =>
      apply ret_resolved in H as [? ?]; subst
  | liftOutcome _ _ = (Resolved _, _) =>
      apply liftOutcome_resolved in H as [? ?]; subst
  | throw _ _ = (Resolved _, _) => discriminate H
  | (Rejected _, _) = (Resolved _, _) => discriminate H
  | (Resolved _, _) = (Resolved _, _) => injection H as ? ?; subst
  end.

(** ** Shape of the action log *)

Section RebalanceShape.
Context {W : Type} `{Chain W}.
Variable networkConfig : NetworkConfig.
Variables pkpPublicKey pkpAddress : string.

Lemma approveIfNeeded_appends addr p token label balance allowance acts w acts' w' :
  approveIfNeeded networkConfig pkpPublicKey pkpAddress addr p token label
                  balance allowance acts w = (Resolved acts', w') ->
  exists h, acts' = acts ++ approvalRecords addr (tokenId p) label h.
Proof.
  unfold approveIfNeeded. intros Hrun.
  destruct (BigNumber.gt balance 0 && BigNumber.lt allowance balance).
  - run_inv Hrun. run_inv Hrun. exists (Some v). reflexivity.
  - run_inv Hrun. exists None. simpl. now rewrite app_nil_r.
Qed.

Lemma rebalancePosition_appends m addr acts p w acts' w' :
  rebalancePosition networkConfig pkpPublicKey pkpAddress m addr acts p w
    = (Resolved acts', w') ->
  exists b, acts' = acts ++ b /\ positionBlock addr (tokenId p) b.
Proof.
  unfold rebalancePosition. intros Hrun.
  destruct (BigNumber.isZero (liquidity p)).
  { run_inv Hrun. exists []. rewrite app_nil_r. split; [reflexivity|constructor]. }
  run_inv Hrun. run_inv Hrun0.
  destruct (BigNumber.isZero v && isDecrease (direction m)).
  { run_inv Hrun. exists []. rewrite app_nil_r. split; [reflexivity|constructor]. }
  destruct (direction m).
  - do 4 run_inv Hrun.
    destruct (BigNumber.isZero v0 && BigNumber.isZero v1).
    { run_inv Hrun. exists []. rewrite app_nil_r. split; [reflexivity|constructor]. }
    do 4 run_inv Hrun. run_inv Hrun.
    apply approveIfNeeded_appends in Hrun4 as [a0 ->].
    apply approveIfNeeded_appends in Hrun5 as [a1 ->].
    eexists. split; [|apply (block_increase addr (tokenId p) a0 a1 v7)].
    now rewrite <- !app_assoc.
  - do 3 run_inv Hrun. run_inv Hrun.
    eexists. split; [|apply (block_decrease addr (tokenId p) v1 v2)].
    now rewrite <- app_assoc.
  - run_inv Hrun. exists []. rewrite app_nil_r. split; [reflexivity|constructor].
Qed.

Lemma forEach_positions_appends m addr ps :
  forall acts w acts' w',
    forEach (rebalancePosition networkConfig pkpPublicKey pkpAddress m addr) ps acts w
      = (Resolved acts', w') ->
    exists bs, acts' = acts ++ bs /\ positionBlocks addr ps bs.
Proof.
  induction ps as [|p ps IH]; intros acts w acts' w' Hrun; simpl in Hrun.
  - run_inv Hrun. exists []. rewrite app_nil_r. split; [reflexivity|constructor].
  - run_inv Hrun.
    apply rebalancePosition_appends in Hrun0 as (b & -> & Hb).
    apply IH in Hrun as (bs & -> & Hbs).
    exists (b ++ bs). rewrite app_assoc. split; [reflexivity|now constructor].
Qed.

Lemma forEach_projects_appends ms :
  forall acts w acts' w',
    forEach (rebalanceProject networkConfig pkpPublicKey pkpAddress) ms acts w
      = (Resolved acts', w') ->
    exists l, acts' = acts ++ l /\ runBlocks ms l.
Proof.
  induction ms as [|m ms IH]; intros acts w acts' w' Hrun; simpl in Hrun.
  - run_inv Hrun. exists []. rewrite app_nil_r. split; [reflexivity|constructor].
  - run_inv Hrun. unfold rebalanceProject in Hrun0.
    destruct (shouldRebalance m) eqn:Hm; simpl in Hrun0.
    + run_inv Hrun0.
      apply forEach_positions_appends in Hrun0 as (bs & -> & Hbs).
      apply IH in Hrun as (l & -> & Hl).
      exists (accrueRecord (projectAddress (project m)) v0 :: bs ++ l).
      split; [|now constructor].
      rewrite <- !app_assoc. reflexivity.
    + run_inv Hrun0.
      apply IH in Hrun as (l & -> & Hl).
      exists l. split; [reflexivity|now constructor].
Qed.

Lemma rebalanceAll_shape metrics w actions w' :
  rebalanceAll networkConfig pkpPublicKey pkpAddress metrics w = (Resolved actions, w') ->
  runBlocks metrics actions.
Proof.
  unfold rebalanceAll. intros Hrun.
  apply forEach_projects_appends in Hrun as (l & -> & Hl). exact Hl.
Qed.

End RebalanceShape.

(** ** Ordering inside the action log *)

Lemma ordered_app (l1 l2 : list ActionRecord) :
  ordered l1 -> ordered l2 -> ordered (l1 ++ l2).
Proof.
  intros H1 H2 i a Hi.
  destruct (lookup_app_Some l1 l2 i a) as [Hcase _].
  destruct (Hcase Hi) as [Hl|[Hge Hr]]; clear Hcase.
  - destruct (H1 i a Hl) as (Hd & Hc & Ha). split; [|split].
    + intros Hn. destruct (Hd Hn) as (b & Hb & Hrest). exists b.
      split; [now apply lookup_app_l_Some|exact Hrest].
    + intros Hn. destruct (Hc Hn) as (j & b & Hj & Hb & Hrest). exists j, b.
      split; [exact Hj|]. split; [now apply lookup_app_l_Some|exact Hrest].
    + intros Hn. destruct (Ha Hn) as (j & b & Hj & Hb & Hrest). exists j, b.
      split; [exact Hj|]. split; [now apply lookup_app_l_Some|exact Hrest].
  - destruct (H2 _ a Hr) as (Hd & Hc & Ha). split; [|split].
    + intros Hn. destruct (Hd Hn) as (b & Hb & Hrest). exists b.
      split; [|exact Hrest]. rewrite lookup_app_r by lia.
      replace (S i - length l1)%nat with (S (i - length l1)) by lia. exact Hb.
    + intros Hn. destruct (Hc Hn) as (j & b & Hj & Hb & Hrest).
      exists (length l1 + j)%nat, b. split; [lia|]. split; [|exact Hrest].
      rewrite lookup_app_r by lia.
      replace (length l1 + j - length l1)%nat with j by lia. exact Hb.
    + intros Hn. destruct (Ha Hn) as (j & b & Hj & Hb & Hrest).
      exists (length l1 + j)%nat, b. split; [lia|]. split; [|exact Hrest].
      rewrite lookup_app_r by lia.
      replace (length l1 + j - length l1)%nat with j by lia. exact Hb.
Qed.

Lemma ordered_nil : ordered [].
Proof. intros i a Hi. discriminate. Qed.

Lemma ordered_accrue addr h : ordered [accrueRecord addr h].
Proof.
  intros [|i] a Hi; [|discriminate]. injection Hi as <-.
  unfold isApproval. simpl. repeat split; intros; try discriminate.
  destruct H; discriminate.
Qed.

Ltac ordered_block :=
  let i := fresh "i" in
  let a := fresh "a" in
  let Hi := fresh "Hi" in
  intros i a Hi;
  repeat (destruct i as [|i]; [injection Hi as <-|]);
  try discriminate Hi;
  unfold isApproval, samePosition; simpl;
  repeat split;
  try (intros; discriminate);
  try (intros [|]; discriminate).

Lemma ordered_positionBlock addr tid b : positionBlock addr tid b -> ordered b.
Proof.
  intros [|h1 h2|[a0|] [a1|] h]; simpl.
  - apply ordered_nil.
  - ordered_block.
    + intros _. eexists. split; [reflexivity|]. simpl. auto.
    + intros _. exists 0%nat. eexists. split; [reflexivity|].
      split; [reflexivity|]. simpl. auto.
  - ordered_block.
    + intros _. exists 2%nat. eexists. split; [lia|].
      split; [reflexivity|]. simpl. auto.
    + intros _. exists 2%nat. eexists. split; [lia|].
      split; [reflexivity|]. simpl. auto.
  - ordered_block.
    intros _. exists 1%nat. eexists. split; [lia|].
    split; [reflexivity|]. simpl. auto.
  - ordered_block.
    intros _. exists 1%nat. eexists. split; [lia|].
    split; [reflexivity|]. simpl. auto.
  - ordered_block.
Qed.

Lemma ordered_positionBlocks addr ps bs : positionBlocks addr ps bs -> ordered bs.
Proof.
  induction 1 as [|p ps b bs Hb _ IH]; [apply ordered_nil|].
  apply ordered_app; [eapply ordered_positionBlock; eassumption|exact IH].
Qed.

Lemma ordered_runBlocks ms l : runBlocks ms l -> ordered l.
Proof.
  induction 1 as [|m ms l _ _ IH|m ms h bs l _ Hbs _ IH];
    [apply ordered_nil|exact IH|].
  change (ordered ([accrueRecord (projectAddress (project m)) h] ++ bs ++ l)).
  apply ordered_app; [apply ordered_accrue|].
  apply ordered_app; [eapply ordered_positionBlocks; eassumption|exact IH].
Qed.

(** ** Provenance of the records *)

Lemma positionBlock_provenance addr tid b :
  positionBlock addr tid b ->
  Forall (fun a => act_projectAddress a = addr /\ act_tokenId a = Some tid) b.
Proof.
  intros [|h1 h2|[a0|] [a1|] h]; simpl; repeat constructor.
Qed.

Lemma positionBlocks_provenance addr ps bs :
  positionBlocks addr ps bs ->
  Forall (fun a => act_projectAddress a = addr /\
                   exists p, In p ps /\ act_tokenId a = Some (tokenId p)) bs.
Proof.
  induction 1 as [|p ps b bs Hb _ IH]; [constructor|].
  apply Forall_app. split.
  - apply positionBlock_provenance in Hb.
    eapply Forall_impl; [exact Hb|]. simpl. intros a [? ?].
    split; [assumption|]. exists p. split; [now left|assumption].
  - eapply Forall_impl; [exact IH|]. simpl. intros a [? (q & ? & ?)].
    split; [assumption|]. exists q. split; [now right|assumption].
Qed.

(** Each record of a run belongs to an eligible project of the run, and a
    record that names a position names one attached to that project. *)
Lemma runBlocks_provenance ms l :
  runBlocks ms l ->
  Forall (fun a =>
            exists m, In m ms /\ shouldRebalance m = true
                      /\ act_projectAddress a = projectAddress (project m)
                      /\ (forall tid, act_tokenId a = Some tid ->
                            exists p, In p (positions m) /\ tokenId p = tid)) l.
Proof.
  induction 1 as [|m ms l _ _ IH|m ms h bs l Hm Hbs _ IH].
  - constructor.
  - eapply Forall_impl; [exact IH|]. simpl. intros a (m' & ? & ?).
    exists m'. split; [now right|assumption].
  - constructor; [|apply Forall_app; split].
    + exists m. split; [now left|]. split; [assumption|].
      split; [reflexivity|]. intros tid Hid. discriminate.
    + apply positionBlocks_provenance in Hbs.
      eapply Forall_impl; [exact Hbs|]. simpl. intros a [Ha (p & Hp & Hid)].
      exists m. split; [now left|]. split; [assumption|]. split; [assumption|].
      intros tid Htid. exists p. split; [assumption|]. congruence.
    + eapply Forall_impl; [exact IH|]. simpl. intros a (m' & ? & ?).
      exists m'. split; [now right|assumption].
Qed.

Lemma actionsOf_position_blocks addr ps bs p :
  positionBlocks addr ps bs -> addr <> p -> actionsOf p bs = [].
Proof.
  intros Hbs Hne. apply positionBlocks_provenance in Hbs.
  unfold actionsOf. induction Hbs as [|a bs [Ha _] _ IH]; [reflexivity|].
  rewrite filter_cons_False by congruence. exact IH.
Qed.

(** The records of one project, in the order of the log, start with the
    accrual. *)
Lemma runBlocks_first ms l p :
  runBlocks ms l ->
  match actionsOf p l with
  | [] => forall m, In m ms -> shouldRebalance m = true ->
                    projectAddress (project m) <> p
  | a :: _ => name a = "accrueInterest" /\ act_tokenId a = None
  end.
Proof.
  induction 1 as [|m ms l Hm _ IH|m ms h bs l Hm Hbs _ IH].
  - simpl. intros m [].
  - destruct (actionsOf p l); [|exact IH].
    intros m' [<-|Hin] Hel; [congruence|now apply IH].
  - unfold actionsOf in *.
    destruct (decide (projectAddress (project m) = p)) as [Heq|Hne].
    + rewrite filter_cons_True by exact Heq. simpl. auto.
    + rewrite filter_cons_False by exact Hne. rewrite filter_app.
      change (filter _ bs) with (actionsOf p bs).
      rewrite (actionsOf_position_blocks _ _ _ _ Hbs Hne). simpl.
      destruct (filter _ l); [|exact IH].
      intros m' [<-|Hin] Hel; [assumption|now apply IH].
Qed.

(** ** Match keys *)

Lemma sortPair_comm (a b : string) : sortPair a b = sortPair b a.
Proof.
  unfold sortPair.
  destruct (String.leb a b) eqn:Hab, (String.leb b a) eqn:Hba; try reflexivity.
  - now rewrite (String.leb_antisym a b Hab Hba).
  - destruct (String.leb_total a b); congruence.
Qed.

Lemma pairKey_comm (a b : string) : pairKey a b = pairKey b a.
Proof. unfold pairKey. now rewrite sortPair_comm. Qed.

Lemma pairKey_case (a a' b b' : string) :
  toLowerCase a = toLowerCase a' -> toLowerCase b = toLowerCase b' ->
  pairKey a b = pairKey a' b'.
Proof. unfold pairKey. now intros -> ->. Qed.

Lemma lowerAscii_colon (c : ascii) :
  Ascii.eqb (lowerAscii c) ":" = Ascii.eqb c ":".
Proof.
  destruct c as [[] [] [] [] [] [] [] []]; reflexivity.
Qed.

Lemma colonFree_toLowerCase (s : string) :
  colonFree (toLowerCase s) = colonFree s.
Proof.
  induction s as [|c s IH]; [reflexivity|].
  simpl. now rewrite lowerAscii_colon, IH.
Qed.

Lemma append_nil_l (s : string) : "" +:+ s = s.
Proof. reflexivity. Qed.

Lemma append_cons_l (c : ascii) (s t : string) :
  String c s +:+ t = String c (s +:+ t).
Proof. reflexivity. Qed.

Lemma joinColon_inj (a b c d : string) :
  colonFree a = true -> colonFree c = true ->
  joinColon (a, b) = joinColon (c, d) -> a = c /\ b = d.
Proof.
  unfold joinColon. cbn [fst snd].
  change (":" +:+ b) with (String ":" b). change (":" +:+ d) with (String ":" d).
  revert c.
  induction a as [|x a IH]; intros [|y c] Ha Hc Heq;
    rewrite ?append_nil_l, ?append_cons_l in Heq; simpl in Ha, Hc.
  - injection Heq as ->. auto.
  - injection Heq as <- _. rewrite Ascii.eqb_refl in Hc. discriminate.
  - injection Heq as -> _. rewrite Ascii.eqb_refl in Ha. discriminate.
  - injection Heq as -> Heq.
    apply andb_prop in Ha as [_ Ha]. apply andb_prop in Hc as [_ Hc].
    destruct (IH c Ha Hc Heq) as [-> ->]. auto.
Qed.

Lemma sortPair_cases (a b : string) :
  sortPair a b = (a, b) \/ sortPair a b = (b, a).
Proof. unfold sortPair. destruct (String.leb a b); auto. Qed.

(** On colon-free addresses the key determines the unordered pair of the
    lower-cased addresses, and conversely. *)
Lemma pairKey_eq_iff (a b c d : string) :
  colonFree a = true -> colonFree b = true ->
  colonFree c = true -> colonFree d = true ->
  pairKey a b = pairKey c d <->
  (toLowerCase a = toLowerCase c /\ toLowerCase b = toLowerCase d) \/
  (toLowerCase a = toLowerCase d /\ toLowerCase b = toLowerCase c).
Proof.
  intros Ha Hb Hc Hd. split.
  - unfold pairKey. intros Heq.
    rewrite <- colonFree_toLowerCase in Ha, Hb, Hc, Hd.
    destruct (sortPair_cases (toLowerCase a) (toLowerCase b)) as [E1|E1],
             (sortPair_cases (toLowerCase c) (toLowerCase d)) as [E2|E2];
      rewrite E1, E2 in Heq;
      apply joinColon_inj in Heq as [? ?]; auto.
  - intros [[H1 H2]|[H1 H2]].
    + now apply pairKey_case.
    + rewrite (pairKey_comm c d). now apply pairKey_case.
Qed.

(** ** Attaching positions *)

Lemma indexTokenPairs_lookup (metrics : list ProjectMetrics) :
  forall (start : nat) (acc : gmap string nat) (key : string),
    indexTokenPairs metrics start acc !! key =
      match lastKeyIndex key metrics with
      | Some j => Some (start + j)%nat
      | None => acc !! key
      end.
Proof.
  induction metrics as [|m rest IH]; intros start acc key; simpl; [reflexivity|].
  rewrite IH. destruct (lastKeyIndex key rest) as [j|].
  - f_equal. lia.
  - rewrite lookup_insert. destruct (decide (metricKey m = key)); [|reflexivity].
    f_equal. lia.
Qed.

Lemma lastKeyIndex_None (key : string) (metrics : list ProjectMetrics) :
  lastKeyIndex key metrics = None ->
  forall j m', metrics !! j = Some m' -> metricKey m' <> key.
Proof.
  induction metrics as [|m rest IH]; simpl; [discriminate 2|].
  destruct (lastKeyIndex key rest); [discriminate|].
  destruct (decide (metricKey m = key)) as [|Hk]; [discriminate|].
  intros _ [|j] m' Hj.
  - injection Hj as <-. exact Hk.
  - now apply (IH eq_refl j).
Qed.

Lemma lastKeyIndex_Some (key : string) (metrics : list ProjectMetrics) :
  forall i, lastKeyIndex key metrics = Some i ->
    (exists m, metrics !! i = Some m /\ metricKey m = key) /\
    (forall j m', (i < j)%nat -> metrics !! j = Some m' -> metricKey m' <> key).
Proof.
  induction metrics as [|m rest IH]; simpl; [discriminate 1|].
  intros i. destruct (lastKeyIndex key rest) as [j|] eqn:Hlast.
  - intros [= <-]. destruct (IH j eq_refl) as [Hhere Hlater].
    split; [exact Hhere|].
    intros [|j'] m' Hlt Hj'; [lia|]. apply (Hlater j'); [lia|exact Hj'].
  - destruct (decide (metricKey m = key)) as [Hk|]; [|discriminate].
    intros [= <-]. split; [exists m; auto|].
    intros [|j'] m' Hlt Hj'; [lia|].
    now apply (lastKeyIndex_None key rest Hlast j').
Qed.

Lemma lastKeyIndex_spec (key : string) (metrics : list ProjectMetrics) (i : nat) :
  lastKeyIndex key metrics = Some i <->
  (exists m, metrics !! i = Some m /\ metricKey m = key) /\
  (forall j m', (i < j)%nat -> metrics !! j = Some m' -> metricKey m' <> key).
Proof.
  split; [apply lastKeyIndex_Some|].
  intros [(m & Hm & Hk) Hlater].
  destruct (lastKeyIndex key metrics) as [i'|] eqn:Hlast.
  - destruct (lastKeyIndex_Some _ _ _ Hlast) as [(m' & Hm' & Hk') Hlater'].
    f_equal. destruct (Nat.lt_trichotomy i i') as [Hlt|[Heq|Hgt]]; [|exact (eq_sym Heq)|].
    + exfalso. exact (Hlater i' m' Hlt Hm' Hk').
    + exfalso. exact (Hlater' i m Hgt Hm Hk).
  - exfalso. exact (lastKeyIndex_None _ _ Hlast i m Hm Hk).
Qed.

Lemma attachPosition_lookup (pairs : gmap string nat) (ms : list ProjectMetrics)
    (p : PositionInfo) (i : nat) :
  attachPosition pairs ms p !! i =
    (fun m => if decide (pairs !! positionKey p = Some i) then pushPosition p m else m)
      <$> ms !! i.
Proof.
  unfold attachPosition. destruct (pairs !! positionKey p) as [j|] eqn:Hj.
  - rewrite list_lookup_alter. destruct (decide (j = i)) as [->|Hne].
    + destruct (decide (Some i = Some i)); [reflexivity|congruence].
    + destruct (decide (Some j = Some i)); [congruence|].
      destruct (ms !! i); reflexivity.
  - destruct (decide (None = Some i)); [discriminate|].
    destruct (ms !! i); reflexivity.
Qed.

(** What [attachPositionsToProjects] does to the metric at index [i]: it
    appends, in order, the positions whose key is mapped to [i]. *)
Lemma attach_fold_lookup (pairs : gmap string nat) (ps : list PositionInfo) :
  forall (ms : list ProjectMetrics) (i : nat) (m : ProjectMetrics),
    ms !! i = Some m ->
    exists m',
      fold_left (attachPosition pairs) ps ms !! i = Some m'
      /\ project m' = project m
      /\ direction m' = direction m
      /\ deviationBps m' = deviationBps m
      /\ positions m' =
           positions m ++ filter (fun p => pairs !! positionKey p = Some i) ps.
Proof.
  induction ps as [|p ps IH]; intros ms i m Hm; simpl.
  - exists m. rewrite app_nil_r. auto.
  - destruct (IH (attachPosition pairs ms p) i
                 (if decide (pairs !! positionKey p = Some i) then pushPosition p m else m))
      as (m' & Hm' & Hp & Hd & Hb & Hpos).
    { rewrite attachPosition_lookup, Hm. reflexivity. }
    exists m'. split; [exact Hm'|].
    destruct (decide (pairs !! positionKey p = Some i)) as [Hi|Hi].
    + rewrite filter_cons_True by exact Hi. simpl in *.
      rewrite <- app_assoc in Hpos. auto.
    + rewrite filter_cons_False by exact Hi. auto.
Qed.

Lemma attach_length (pairs : gmap string nat) (ps : list PositionInfo) :
  forall ms, length (fold_left (attachPosition pairs) ps ms) = length ms.
Proof.
  induction ps as [|p ps IH]; intros ms; simpl; [reflexivity|].
  rewrite IH. unfold attachPosition.
  destruct (pairs !! positionKey p); [apply length_alter|reflexivity].
Qed.

Lemma attachPositionsToProjects_lookup (metrics : list ProjectMetrics)
    (ps : list PositionInfo) (i : nat) (m : ProjectMetrics) :
  metrics !! i = Some m ->
  exists m',
    attachPositionsToProjects metrics ps !! i = Some m'
    /\ project m' = project m
    /\ direction m' = direction m
    /\ deviationBps m' = deviationBps m
    /\ positions m' = positions m ++ filter (attachedAt metrics i) ps.
Proof.
  intros Hm. unfold attachPositionsToProjects.
  destruct (attach_fold_lookup (indexTokenPairs metrics 0 ∅) ps metrics i m Hm)
    as (m' & Hm' & Hp & Hd & Hb & Hpos).
  exists m'. repeat (split; [assumption|]).
  rewrite Hpos. f_equal. apply list_filter_iff. intros p.
  unfold attachedAt. rewrite indexTokenPairs_lookup.
  destruct (lastKeyIndex (positionKey p) metrics); simpl; [tauto|].
  rewrite lookup_empty. tauto.
Qed.

(** ** Facts about the evaluation that precedes the rebalance loop *)

Lemma projectsMapHas_false (projectsMap : list ProjectInfo) (key : string) :
  projectsMapHas projectsMap key = false ->
  key ∉ (projectAddress <$> projectsMap).
Proof.
  unfold projectsMapHas. intros Hhas Hin.
  apply list_elem_of_fmap in Hin as (p & -> & Hp).
  apply list_elem_of_In in Hp.
  assert (existsb (fun q => String.eqb (projectAddress q) (projectAddress p)) projectsMap = true)
    as Habs.
  { apply existsb_exists. exists p. split; [exact Hp|apply String.eqb_refl]. }
  congruence.
Qed.

Section EvaluationFacts.
Context {W : Type} `{Chain W}.

(** [discoverProjects] returns at most one project per project address. *)
Lemma discoverLoop_distinct (events : list Event) :
  forall projectsMap w r w',
    NoDup (projectAddress <$> projectsMap) ->
    discoverLoop events projectsMap w = (Resolved r, w') ->
    NoDup (projectAddress <$> r).
Proof.
  induction events as [|event rest IH]; intros pm w r w' Hnd Hrun;
    cbn [discoverLoop] in Hrun.
  - run_inv Hrun. exact Hnd.
  - destruct (eventProject event) as [pa|]; [|eauto].
    destruct (eventToken event) as [ta|]; [|eauto].
    destruct (negb (truthy (Some pa)) || negb (truthy (Some ta))); [eauto|].
    destruct (projectsMapHas pm pa) eqn:Hhas; [eauto|].
    run_inv Hrun. eapply IH; [|exact Hrun].
    rewrite fmap_app. apply NoDup_app. split; [exact Hnd|]. split.
    + intros x Hx Hx'. simpl in Hx'. apply list_elem_of_singleton in Hx'. subst x.
      exact (projectsMapHas_false pm pa Hhas Hx).
    + simpl. apply NoDup_singleton.
Qed.

Lemma discoverProjects_distinct (registry : string) w r w' :
  discoverProjects registry w = (Resolved r, w') ->
  NoDup (projectAddress <$> r).
Proof.
  unfold discoverProjects. intros Hrun. run_inv Hrun.
  eapply discoverLoop_distinct; [|exact Hrun]. simpl. constructor.
Qed.

Lemma fetchProjectMetrics_fresh (p : ProjectInfo) (config : NetworkConfig) w m w' :
  fetchProjectMetrics p config w = (Resolved m, w') ->
  project m = p /\ positions m = [] /\ targetPoolPrice m <> 0.
Proof.
  unfold fetchProjectMetrics. intros Hrun. do 3 run_inv Hrun.
  unfold BigNumber.isZero in Hrun. destruct (Z.eqb_spec v0 0) as [|Hnz]; [run_inv Hrun|].
  do 2 run_inv Hrun. run_inv Hrun. simpl. auto.
Qed.

Lemma fetchAllMetrics_fresh (projects : list ProjectInfo) (config : NetworkConfig) :
  forall w ms w',
    fetchAllMetrics projects config w = (Resolved ms, w') ->
    project <$> ms = projects /\ Forall (fun m => positions m = []) ms.
Proof.
  induction projects as [|p rest IH]; intros w ms w' Hrun;
    cbn [fetchAllMetrics] in Hrun.
  - run_inv Hrun. split; [reflexivity|constructor].
  - do 2 run_inv Hrun. run_inv Hrun.
    apply fetchProjectMetrics_fresh in Hrun0 as (Hp & Hpos & _).
    apply IH in Hrun1 as [Hps Hfresh]. rewrite fmap_cons. split; [congruence|].
    constructor; assumption.
Qed.

End EvaluationFacts.

(** Attaching positions changes neither the projects nor their order. *)
Lemma attach_projects (metrics : list ProjectMetrics) (ps : list PositionInfo) :
  project <$> attachPositionsToProjects metrics ps = project <$> metrics.
Proof.
  apply list_eq. intros i. rewrite !list_lookup_fmap.
  destruct (metrics !! i) as [m|] eqn:Hm.
  - destruct (attachPositionsToProjects_lookup metrics ps i m Hm)
      as (m' & Hm' & Hp & _). rewrite Hm'. simpl. now rewrite Hp.
  - apply lookup_ge_None in Hm.
    rewrite (proj2 (lookup_ge_None _ i)); [reflexivity|].
    unfold attachPositionsToProjects. now rewrite attach_length.
Qed.

Lemma attach_lookup_inv (metrics : list ProjectMetrics) (ps : list PositionInfo)
    (i : nat) (m' : ProjectMetrics) :
  attachPositionsToProjects metrics ps !! i = Some m' ->
  exists m,
    metrics !! i = Some m
    /\ project m' = project m
    /\ direction m' = direction m
    /\ deviationBps m' = deviationBps m
    /\ positions m' = positions m ++ filter (attachedAt metrics i) ps.
Proof.
  intros Hm'. destruct (metrics !! i) as [m|] eqn:Hm.
  - destruct (attachPositionsToProjects_lookup metrics ps i m Hm) as (m'' & Hm'' & Hrest).
    exists m. split; [reflexivity|]. congruence.
  - apply lookup_ge_None in Hm. apply lookup_lt_Some in Hm'.
    unfold attachPositionsToProjects in Hm'. rewrite attach_length in Hm'. lia.
Qed.

Lemma shouldRebalance_iff (metric : ProjectMetrics) :
  shouldRebalance metric = true <->
  direction metric <> none /\ DEFAULT_DEVIATION_THRESHOLD_BPS <= deviationBps metric.
Proof.
  unfold shouldRebalance, BigNumber.gte. rewrite andb_true_iff, Z.leb_le.
  destruct (direction metric); simpl; split; intros [? ?]; split;
    try assumption; try discriminate; try reflexivity; congruence.
Qed.

Lemma tryCatch_resolved {W A} (m : M W A) (h : thrown -> M W A) w r w' :
  tryCatch m h w = (Resolved r, w') ->
  m w = (Resolved r, w') \/
  exists e w1, m w = (Rejected e, w1) /\ h e w1 = (Resolved r, w').
Proof.
  unfold tryCatch. destruct (m w) as [[a|e] w1]; [left|right; eauto].
  assumption.
Qed.

Section ExecuteFacts.
Context {W : Type} `{Chain W}.
Variable isAddress : string -> bool.

Lemma evaluateRegistry_resolved (abilityParams : AbilityParams) w config metrics w' :
  evaluateRegistry abilityParams w = (Resolved (config, metrics), w') ->
  NoDup (projectAddress <$> (project <$> metrics))
  /\ Forall (fun m => positions m = []) metrics.
Proof.
  unfold evaluateRegistry. intros Hrun. do 3 run_inv Hrun.
  apply ret_resolved in Hrun as [[= <- <-] <-].
  apply discoverProjects_distinct in Hrun1.
  apply fetchAllMetrics_fresh in Hrun2 as [-> Hfresh]. auto.
Qed.

(** A successful [execute] ran the rebalance loop over the discovered
    metrics with the owned positions attached, and reports its log
    project by project. *)
Lemma execute_succeed_inv abilityParams delegation w reg total backfilled reports w' :
  execute isAddress abilityParams delegation w
    = (Resolved (ExecuteSucceed reg total backfilled reports), w') ->
  exists config metrics owned pkpPublicKey pkpAddress w1 acts,
    NoDup (projectAddress <$> (project <$> metrics))
    /\ Forall (fun m => positions m = []) metrics
    /\ rebalanceAll config pkpPublicKey pkpAddress
         (attachPositionsToProjects metrics owned) w1 = (Resolved acts, w')
    /\ reports = map (reportProject acts) (attachPositionsToProjects metrics owned)
    /\ total = Z.of_nat (length acts).
Proof.
  unfold execute. intros Hrun.
  apply tryCatch_resolved in Hrun as [Hrun|(e & w1 & _ & Hrun)];
    [|run_inv Hrun; discriminate].
  destruct (negb (isAddress (registryAddress abilityParams))); [run_inv Hrun|].
  run_inv Hrun. destruct v as [config metrics].
  apply evaluateRegistry_resolved in Hrun0 as [Hnd Hfresh].
  destruct delegation as [[ea pk]|]; cbn [publicKey ethAddress fst snd] in Hrun;
    [|run_inv Hrun].
  destruct pk as [pkpPublicKey|]; [|run_inv Hrun].
  destruct ea as [pkpAddress|]; [|run_inv Hrun].
  destruct (negb (truthy (Some pkpPublicKey)) || negb (truthy (Some pkpAddress)));
    [run_inv Hrun|].
  do 2 run_inv Hrun. run_inv Hrun.
  match goal with
  | Heq : ExecuteSucceed _ _ _ _ = ExecuteSucceed _ _ _ _ |- _ =>
      injection Heq as <- <- <- <-
  end.
  exists config, metrics, v, pkpPublicKey, pkpAddress. do 2 eexists.
  split; [exact Hnd|]. split; [exact Hfresh|]. split; [eassumption|].
  split; reflexivity.
Qed.

End ExecuteFacts.

(** ** Rebalance decision and execution *)

(** C8: in the action log of a run, the records of every eligible project
    start with its accrueInterest record (which carries no token id, and
    so precedes every position record of the project); a decreaseLiquidity
    record is directly followed by the collect record of the same
    position, and a collect record is directly preceded by such a
    decrease; every approval record is followed, at most one record
    later, by the increaseLiquidity record of the same position. *)
Theorem execution_order {W : Type} `{Chain W}
    (networkConfig : NetworkConfig) (pkpPublicKey pkpAddress : string)
    (metrics : list ProjectMetrics) (w : W) (acts : list ActionRecord) (w' : W) :
  rebalanceAll networkConfig pkpPublicKey pkpAddress metrics w = (Resolved acts, w') ->
  (forall m, In m metrics -> shouldRebalance m = true ->
     exists a rest,
       actionsOf (projectAddress (project m)) acts = a :: rest
       /\ name a = "accrueInterest" /\ act_tokenId a = None)
  /\ (forall i a, acts !! i = Some a -> name a = "decreaseLiquidity" ->
        exists b, acts !! S i = Some b /\ name b = "collect" /\ samePosition a b)
  /\ (forall i a, acts !! i = Some a -> name a = "collect" ->
        exists j b, i = S j /\ acts !! j = Some b /\ name b = "decreaseLiquidity"
                    /\ samePosition a b)
  /\ (forall i a, acts !! i = Some a -> isApproval a ->
        exists j b, (i < j <= i + 2)%nat /\ acts !! j = Some b
                    /\ name b = "increaseLiquidity" /\ samePosition a b).
Proof.
  intros Hrun. apply rebalanceAll_shape in Hrun.
  pose proof (ordered_runBlocks _ _ Hrun) as Hord.
  split; [|split; [|split]].
  - intros m Hm Hyes.
    pose proof (runBlocks_first _ _ (projectAddress (project m)) Hrun) as Hfirst.
    destruct (actionsOf (projectAddress (project m)) acts) as [|a rest].
    + exfalso. exact (Hfirst m Hm Hyes eq_refl).
    + exists a, rest. split; [reflexivity|exact Hfirst].
  - intros i a Hi. exact (proj1 (Hord i a Hi)).
  - intros i a Hi. exact (proj1 (proj2 (Hord i a Hi))).
  - intros i a Hi. exact (proj2 (proj2 (Hord i a Hi))).
Qed.

Lemma execution_order_witness :
  fst (rebalanceAll sampleConfig samplePublicKey samplePkp sampleMetrics sampleIncreaseWorld)
    = Resolved sampleActions
  /\ (forall i a, sampleActions !! i = Some a -> name a = "decreaseLiquidity" ->
        exists b, sampleActions !! S i = Some b /\ name b = "collect" /\ samePosition a b).
Proof.
  split; [vm_compute; reflexivity|].
  refine (proj1 (proj2 (execution_order sampleConfig samplePublicKey samplePkp
            sampleMetrics sampleIncreaseWorld sampleActions
            (snd (rebalanceAll sampleConfig samplePublicKey samplePkp sampleMetrics
                    sampleIncreaseWorld)) _))).
  vm_compute. reflexivity.
Defined.

(** ** Sizing of a decrease *)

(** A matched position with 3 units of liquidity in a project that is
    rebalanced downward has floor(3 * 2500 / 10000) = 0; on the snapshot
    chain it is skipped, and no call is dispatched for it. *)
Lemma decrease_dust_skipped :
  let metric := sampleMetric sampleProject 10000 decrease [samplePosition "9" 3] in
  let run := rebalancePosition sampleConfig samplePublicKey samplePkp metric sampleProject []
               (samplePosition "9" 3) sampleDecreaseWorld in
  3 * 2500 / 10000 = 0
  /\ fst run = Resolved []
  /\ sim_sent (snd run) = []
  /\ ~ In (decreaseRequest sampleConfig samplePublicKey samplePkp (samplePosition "9" 3)
             (BigNumber.toString 3) (1700000000123 / 1000 + 900))
          (sim_sent (snd run)).
Proof.
  cbv zeta. split; [reflexivity|]. split; [vm_compute; reflexivity|].
  assert (sim_sent (snd (rebalancePosition sampleConfig samplePublicKey samplePkp
            (sampleMetric sampleProject 10000 decrease [samplePosition "9" 3])
            sampleProject [] (samplePosition "9" 3) sampleDecreaseWorld)) = []) as ->
    by (vm_compute; reflexivity).
  split; [reflexivity|]. intros [].
Qed.

(** C1, a defect of the code: in the decrease path, for a matched
    position with nonzero liquidity L and q = floor(L * 2500 / 10000), the
    decrease call is written to remove q, or all of L when q is 0, which
    is the amount the claim states.  When q > 0 the call removes exactly
    that amount, is followed by the collect call, and both are recorded.
    When q = 0 the amount to remove is L, but the guard that precedes the
    call leaves the loop body first: the full-liquidity branch of the
    call is never reached, the position is skipped, nothing is dispatched
    and nothing is recorded. *)
Theorem decrease_sizing {W : Type} `{Chain W}
    (networkConfig : NetworkConfig) (pkpPublicKey pkpAddress : string)
    (metric : ProjectMetrics) (addr : string) (acts : list ActionRecord)
    (position : PositionInfo) (w : W) :
  direction metric = decrease ->
  0 < liquidity position ->
  let q := liquidity position * 2500 / 10000 in
  (q = 0 ->
     specLiquidityToRemove (liquidity position) = liquidity position
     /\ rebalancePosition networkConfig pkpPublicKey pkpAddress metric addr acts position w
        = (Resolved acts, w))
  /\ (0 < q ->
      specLiquidityToRemove (liquidity position) = q
      /\ forall now w1 h1 w2 h2 w3,
        dateNow w = (Resolved now, w1) ->
        contractCall
          (decreaseRequest networkConfig pkpPublicKey pkpAddress position
             (BigNumber.toString (specLiquidityToRemove (liquidity position)))
             (now / 1000 + 900)) w1 = (Resolved h1, w2) ->
        contractCall (collectRequest networkConfig pkpPublicKey pkpAddress position) w2
          = (Resolved h2, w3) ->
        rebalancePosition networkConfig pkpPublicKey pkpAddress metric addr acts position w
          = (Resolved
               (acts ++ [positionRecord addr (tokenId position) "decreaseLiquidity" h1;
                         positionRecord addr (tokenId position) "collect" h2]),
             w3)).
Proof.
  intros Hdir Hliq q.
  assert (liftOutcome
            (BigNumber.div
               (BigNumber.mul (liquidity position) DEFAULT_REBALANCE_LIQUIDITY_BPS) 10000) w
          = (Resolved q, w)) as Hlift.
  { unfold liftOutcome, BigNumber.div, BigNumber.mul, DEFAULT_REBALANCE_LIQUIDITY_BPS.
    change (10000 =? 0) with false. cbv iota. do 2 f_equal.
    apply Z.quot_div_nonneg; lia. }
  assert (specLiquidityToRemove (liquidity position)
          = if q =? 0 then liquidity position else q) as Hspec by reflexivity.
  unfold rebalancePosition, BigNumber.isZero.
  destruct (Z.eqb_spec (liquidity position) 0) as [|_]; [lia|].
  rewrite (bind_step _ _ w q w Hlift). rewrite Hdir. rewrite Hspec.
  destruct (Z.eqb_spec q 0) as [Hz|Hnz]; cbn [isDecrease andb].
  - split; [split; reflexivity|lia].
  - split; [contradiction|].
    intros Hpos. split; [reflexivity|].
    intros now w1 h1 w2 h2 w3 Hnow Hdec Hcol.
    assert (deadline w = (Resolved (now / 1000 + 900), w1)) as Hdeadline.
    { unfold deadline. rewrite (bind_step _ _ w now w1 Hnow). reflexivity. }
    rewrite (bind_step _ _ w _ w1 Hdeadline).
    unfold dispatch. unfold decreaseRequest in Hdec. unfold collectRequest in Hcol.
    rewrite (bind_step _ _ w1 h1 w2 Hdec).
    rewrite (bind_step _ _ w2 h2 w3 Hcol).
    unfold ret. now rewrite <- app_assoc.
Qed.

Lemma decrease_sizing_witness :
  (specLiquidityToRemove 3 = 3
   /\ rebalancePosition sampleConfig samplePublicKey samplePkp
        (sampleMetric sampleProject 10000 decrease [samplePosition "9" 3])
        sampleProject [] (samplePosition "9" 3) sampleDecreaseWorld
      = (Resolved [], sampleDecreaseWorld))
  /\ fst (rebalancePosition sampleConfig samplePublicKey samplePkp
            (sampleMetric sampleProject 10000 decrease [samplePosition "7" 1000])
            sampleProject [] (samplePosition "7" 1000) sampleDecreaseWorld)
     = Resolved [positionRecord sampleProject "7" "decreaseLiquidity" "0xtx0";
                 positionRecord sampleProject "7" "collect" "0xtx1"].
Proof.
  split.
  - exact (proj1 (decrease_sizing sampleConfig samplePublicKey samplePkp
                    (sampleMetric sampleProject 10000 decrease [samplePosition "9" 3])
                    sampleProject [] (samplePosition "9" 3) sampleDecreaseWorld
                    eq_refl eq_refl) eq_refl).
  - refine (f_equal fst
      (proj2 (proj2 (decrease_sizing sampleConfig samplePublicKey samplePkp
                (sampleMetric sampleProject 10000 decrease [samplePosition "7" 1000])
                sampleProject [] (samplePosition "7" 1000) sampleDecreaseWorld
                eq_refl eq_refl) eq_refl)
         1700000000123 sampleDecreaseWorld "0xtx0" _ "0xtx1" _ eq_refl eq_refl eq_refl)).
Defined.

(** ** Position-project matching *)

(** C7 as stated fails when two projects share a token pair: the lookup
    keeps one entry per key, so only the later project receives the
    position although the pair equals the pair of both. *)
Lemma matching_shared_pair_counterexample :
  let m1 := sampleMetric sampleProject 10000 decrease [] in
  let m2 := sampleMetric sampleOther 10000 decrease [] in
  let p := samplePosition "7" 1000 in
  positionKey p = metricKey m1
  /\ attachPositionsToProjects [m1; m2] [p] = [m1; pushPosition p m2]
  /\ ~ In p (positions m1).
Proof.
  cbv zeta. split; [vm_compute; reflexivity|].
  split; [vm_compute; reflexivity|]. intros [].
Qed.

Lemma attachedAt_iff (metrics : list ProjectMetrics) (i : nat) (m : ProjectMetrics)
    (p : PositionInfo) :
  metrics !! i = Some m ->
  attachedAt metrics i p <->
  positionKey p = metricKey m /\
  (forall j m2, (i < j)%nat -> metrics !! j = Some m2 -> metricKey m2 <> metricKey m).
Proof.
  intros Hm. unfold attachedAt. rewrite lastKeyIndex_spec. split.
  - intros [(m0 & Hm0 & Hk) Hlater].
    assert (m0 = m) as -> by congruence.
    split; [congruence|]. intros j m2 Hlt Hj. rewrite Hk. eauto.
  - intros [Hk Hlater]. split; [exists m; auto|].
    intros j m2 Hlt Hj. rewrite Hk. eauto.
Qed.

(** C7, amended: the match key is invariant under the order and the
    letter case of the two addresses and, on addresses (which contain no
    colon), two keys are equal iff the unordered case-insensitive pairs
    are; a position is appended to the metrics of the project at index
    [i] iff its key equals that project's key and no later project of
    the array has the same key; a position whose key equals no project's
    key is appended to no project's metrics and no record of the run
    names it. *)
Theorem position_matching :
  (forall a b, pairKey a b = pairKey b a)
  /\ (forall a a' b b',
        toLowerCase a = toLowerCase a' -> toLowerCase b = toLowerCase b' ->
        pairKey a b = pairKey a' b')
  /\ (forall a b c d,
        colonFree a = true -> colonFree b = true ->
        colonFree c = true -> colonFree d = true ->
        pairKey a b = pairKey c d <->
        (toLowerCase a = toLowerCase c /\ toLowerCase b = toLowerCase d) \/
        (toLowerCase a = toLowerCase d /\ toLowerCase b = toLowerCase c))
  /\ (forall metrics owned i m,
        metrics !! i = Some m ->
        exists m',
          attachPositionsToProjects metrics owned !! i = Some m'
          /\ project m' = project m
          /\ forall p,
               In p (positions m') <->
               In p (positions m) \/
               (In p owned /\ positionKey p = metricKey m /\
                forall j m2, (i < j)%nat -> metrics !! j = Some m2 ->
                             metricKey m2 <> metricKey m))
  /\ (forall metrics owned p,
        Forall (fun m => positions m = []) metrics ->
        In p owned ->
        (forall m, In m metrics -> positionKey p <> metricKey m) ->
        (forall m', In m' (attachPositionsToProjects metrics owned) ->
                    ~ In p (positions m'))
        /\ (forall (W : Type) (C : Chain W) config pkpPublicKey pkpAddress
                   (w w' : W) acts,
              (forall q, In q owned -> tokenId q = tokenId p -> q = p) ->
              rebalanceAll config pkpPublicKey pkpAddress
                (attachPositionsToProjects metrics owned) w = (Resolved acts, w') ->
              forall a, In a acts -> act_tokenId a <> Some (tokenId p))).
Proof.
  split; [exact pairKey_comm|]. split; [exact pairKey_case|].
  split; [exact pairKey_eq_iff|]. split.
  - intros metrics owned i m Hm.
    destruct (attachPositionsToProjects_lookup metrics owned i m Hm)
      as (m' & Hm' & Hp & _ & _ & Hpos).
    exists m'. split; [exact Hm'|]. split; [exact Hp|].
    intros p. rewrite Hpos, in_app_iff, <- !list_elem_of_In, list_elem_of_filter.
    rewrite (attachedAt_iff metrics i m p Hm). tauto.
  - intros metrics owned p Hfresh Hp Hnone.
    assert (forall m', In m' (attachPositionsToProjects metrics owned) ->
                       ~ In p (positions m')) as Hnot.
    { intros m' Hm' Hin.
      apply list_elem_of_In, list_elem_of_lookup in Hm' as [i Hi].
      apply attach_lookup_inv in Hi as (m & Hm & _ & _ & _ & Hpos).
      rewrite Forall_forall in Hfresh.
      rewrite Hpos, (Hfresh m) in Hin
        by (apply list_elem_of_lookup; eauto).
      simpl in Hin. apply list_elem_of_In, list_elem_of_filter in Hin as [Hat _].
      apply (attachedAt_iff metrics i m p Hm) in Hat as [Hk _].
      apply (Hnone m); [|exact Hk].
      apply list_elem_of_In, list_elem_of_lookup. eauto. }
    split; [exact Hnot|].
    intros W C config pk addr w w' acts Huniq Hrun a Ha Hid.
    apply rebalanceAll_shape, runBlocks_provenance in Hrun.
    rewrite Forall_forall in Hrun.
    destruct (Hrun a (proj2 (list_elem_of_In _ _) Ha)) as (m' & Hm' & _ & _ & Hsrc).
    destruct (Hsrc _ Hid) as (q & Hq & Htid).
    assert (In q owned) as Hqo.
    { apply list_elem_of_In, list_elem_of_lookup in Hm' as [i Hi].
      apply attach_lookup_inv in Hi as (m & Hm & _ & _ & _ & Hpos).
      rewrite Forall_forall in Hfresh.
      rewrite Hpos, (Hfresh m) in Hq by (apply list_elem_of_lookup; eauto).
      simpl in Hq. apply list_elem_of_In, list_elem_of_filter in Hq as [_ Hq].
      now apply list_elem_of_In. }
    rewrite (Huniq q Hqo Htid) in Hq.
    exact (Hnot m' Hm' Hq).
Qed.

Lemma position_matching_witness :
  Forall (fun a => act_tokenId a <> Some "8") sampleMatchedActions.
Proof.
  apply Forall_forall. intros a Ha. apply list_elem_of_In in Ha. revert a Ha.
  refine (proj2 (proj2 (proj2 (proj2 (proj2 position_matching))) sampleFresh sampleOwned
            (mkPositionInfo "8" sampleStable sampleOther 3000 1000 (-60) 60) _ _ _)
          Sim simChain sampleConfig samplePublicKey samplePkp sampleDecreaseWorld
          (snd (rebalanceAll sampleConfig samplePublicKey samplePkp
                  (attachPositionsToProjects sampleFresh sampleOwned)
                  sampleDecreaseWorld)) sampleMatchedActions _ _).
  - repeat constructor.
  - right. left. reflexivity.
  - intros m [<-|[]]. vm_compute. discriminate.
  - intros q [<-|[<-|[<-|[]]]]; vm_compute; intros Hq; try reflexivity; discriminate Hq.
  - vm_compute. reflexivity.
Defined.

(** ** Failure categories *)

Lemma withRpcRetry_resolved {W : Type} `{Timer W} {T : Type}
    (operation : M W T) (w : W) (a : T) (w' : W) :
  operation w = (Resolved a, w') -> withRpcRetry operation w = (Resolved a, w').
Proof.
  intros Hop. unfold withRpcRetry. rewrite retryLoop_step.
  destruct (Z_lt_dec 0 RPC_MAX_RETRIES) as [_|Hge]; [|unfold RPC_MAX_RETRIES in Hge; lia].
  unfold tryCatch. now rewrite Hop.
Qed.

(** A project whose three reads succeed and whose target price reads as
    zero makes [fetchProjectMetrics] throw the target-zero error. *)
Lemma fetchProjectMetrics_target_zero {W : Type} `{Chain W}
    (p : ProjectInfo) (config : NetworkConfig) (w w1 w2 w3 : W) (nav : Z) (pool : string) :
  getNAVPerShare (projectAddress p) w = (Resolved nav, w1) ->
  getTargetPoolPrice (projectAddress p) w1 = (Resolved 0, w2) ->
  getPool (uniswapFactory config) (tokenAddress p) (pyusdAddress p) 3000 w2
    = (Resolved pool, w3) ->
  fetchProjectMetrics p config w = (Rejected (newError targetZeroMessage), w3).
Proof.
  intros Hnav Htarget Hpool. unfold fetchProjectMetrics.
  rewrite (bind_step _ _ w nav w1 (withRpcRetry_resolved _ _ _ _ Hnav)).
  rewrite (bind_step _ _ w1 0 w2 (withRpcRetry_resolved _ _ _ _ Htarget)).
  rewrite (bind_step _ _ w2 pool w3 (withRpcRetry_resolved _ _ _ _ Hpool)).
  reflexivity.
Qed.

(** C2: once the evaluation throws the target-zero error, [precheck]
    fails with NAV_TARGET_ZERO, whereas [execute] files the same error
    under PROVIDER_ERROR. *)
Theorem nav_target_zero_category {W : Type} `{Chain W}
    (isAddress : string -> bool) (abilityParams : AbilityParams)
    (delegation : option Delegation) (w w1 : W) :
  isAddress (registryAddress abilityParams) = true ->
  evaluateRegistry abilityParams w = (Rejected (newError targetZeroMessage), w1) ->
  precheck isAddress abilityParams delegation w
    = (Resolved (PrecheckFail NAV_TARGET_ZERO targetZeroMessage), w1)
  /\ execute isAddress abilityParams delegation w
    = (Resolved (ExecuteFail targetZeroMessage PROVIDER_ERROR), w1).
Proof.
  intros Haddr Heval. split.
  - unfold precheck. rewrite Haddr. cbn [negb]. unfold tryCatch.
    rewrite (bind_rejected _ _ w _ w1 Heval). reflexivity.
  - unfold execute. rewrite Haddr. cbn [negb]. unfold tryCatch.
    rewrite (bind_rejected _ _ w _ w1 Heval). reflexivity.
Qed.

Lemma nav_target_zero_category_witness :
  fst (precheck (fun _ => true) sampleParams sampleDelegation sampleZeroTargetWorld)
    = Resolved (PrecheckFail NAV_TARGET_ZERO targetZeroMessage)
  /\ fst (execute (fun _ => true) sampleParams sampleDelegation sampleZeroTargetWorld)
    = Resolved (ExecuteFail targetZeroMessage PROVIDER_ERROR).
Proof.
  assert (evaluateRegistry sampleParams sampleZeroTargetWorld
          = (Rejected (newError targetZeroMessage),
             snd (evaluateRegistry sampleParams sampleZeroTargetWorld))) as Heval
    by (vm_compute; reflexivity).
  destruct (nav_target_zero_category (fun _ => true) sampleParams sampleDelegation
              sampleZeroTargetWorld _ eq_refl Heval) as [-> ->].
  split; reflexivity.
Defined.

(** ** Project discovery *)

Lemma recordEvent_key (events : list Event) (seen : gset string) (e : Event) :
  recordEvent (events, seen) e =
    match creationKey e with
    | None => (events, seen)
    | Some k => if decide (k ∈ seen) then (events, seen)
                else (events ++ [e], {[k]} ∪ seen)
    end.
Proof.
  unfold recordEvent, creationKey, eventProject.
  destruct (args e) as [a|]; [|reflexivity].
  destruct (arg_project a) as [addr|]; [|reflexivity].
  destruct (truthy (Some addr)); reflexivity.
Qed.

Lemma scanInv_nil (log : list Event) : scanInv log [] ∅.
Proof.
  repeat split; simpl; try constructor; try set_solver.
Qed.

Lemma recordEvent_inv (log events : list Event) (seen : gset string) (e : Event) :
  scanInv log events seen -> e ∈ log ->
  scanInv log (fst (recordEvent (events, seen) e)) (snd (recordEvent (events, seen) e))
  /\ (forall k, k ∈ seen -> k ∈ snd (recordEvent (events, seen) e))
  /\ (forall k, creationKey e = Some k -> k ∈ snd (recordEvent (events, seen) e)).
Proof.
  intros (Hseen & Hnd & Hkeys & Hsub & Hsize) He. rewrite recordEvent_key.
  destruct (creationKey e) as [k|] eqn:Hk.
  - destruct (decide (k ∈ seen)) as [Hin|Hnew]; simpl.
    + split; [exact (conj Hseen (conj Hnd (conj Hkeys (conj Hsub Hsize))))|].
      split; [auto|]. intros k' [= <-]. exact Hin.
    + split; [|split].
      2: { intros k' Hk'. apply elem_of_union. now right. }
      2: { intros k' [= <-]. apply elem_of_union. left. now apply elem_of_singleton. }
      assert (omap creationKey (events ++ [e]) = omap creationKey events ++ [k]) as Hom.
      { rewrite omap_app. simpl. now rewrite Hk. }
      unfold scanInv. rewrite Hom. split; [|split; [|split; [|split]]].
      * intros k'. rewrite elem_of_union, elem_of_singleton, elem_of_app,
          list_elem_of_singleton, Hseen. tauto.
      * apply NoDup_app. split; [exact Hnd|]. split; [|apply NoDup_singleton].
        intros x Hx Hx'. apply list_elem_of_singleton in Hx'. subst x.
        apply Hnew, Hseen, Hx.
      * apply Forall_app. split; [exact Hkeys|]. constructor; [|constructor].
        rewrite Hk. eauto.
      * intros e' He'. apply elem_of_app in He' as [He'|He']; [auto|].
        apply list_elem_of_singleton in He'. now subst e'.
      * rewrite size_union by (now apply disjoint_singleton_l).
        rewrite size_singleton, length_app.
        simpl. lia.
  - simpl. split; [exact (conj Hseen (conj Hnd (conj Hkeys (conj Hsub Hsize))))|].
    split; [auto|discriminate].
Qed.

Lemma recordEvent_fold_inv (log : list Event) (batch : list Event) :
  forall events seen,
    scanInv log events seen ->
    (forall e, e ∈ batch -> e ∈ log) ->
    scanInv log (fst (fold_left recordEvent batch (events, seen)))
                (snd (fold_left recordEvent batch (events, seen)))
    /\ (forall k, k ∈ seen -> k ∈ snd (fold_left recordEvent batch (events, seen)))
    /\ (forall e k, e ∈ batch -> creationKey e = Some k ->
                    k ∈ snd (fold_left recordEvent batch (events, seen))).
Proof.
  induction batch as [|e batch IH]; intros events seen Hinv Hsub; cbn [fold_left].
  - split; [exact Hinv|]. split; [auto|]. intros e k He. inversion He.
  - destruct (recordEvent_inv log events seen e Hinv) as (Hinv1 & Hmono1 & Hkey1).
    { apply Hsub. left. }
    destruct (recordEvent (events, seen) e) as [events1 seen1] eqn:Hstep.
    simpl in Hinv1, Hmono1, Hkey1.
    destruct (IH events1 seen1 Hinv1) as (Hinv2 & Hmono2 & Hkey2).
    { intros e' He'. apply Hsub. now right. }
    split; [exact Hinv2|]. split; [auto|].
    intros e' k He' Hk. apply elem_of_cons in He' as [->|He'].
    + apply Hmono2, Hkey1, Hk.
    + eapply Hkey2; eassumption.
Qed.

Lemma scanLoop_step {W : Type} `{Chain W} (registry : string) (totalProjects : Z)
    (currentEndBlock : Z) (events : list Event) (seenProjects : gset string) :
  scanLoop registry totalProjects currentEndBlock events seenProjects =
    if Sumbool.sumbool_of_bool
         ((0 <=? currentEndBlock) && (Z.of_nat (size seenProjects) <? totalProjects))
    then
      let currentStartBlock := Z.max 0 (currentEndBlock - MAX_EVENT_BLOCK_SPAN + 1) in
      batch <~ withRpcRetry (queryFilter registry currentStartBlock currentEndBlock) ;;
      scanLoop registry totalProjects (currentStartBlock - 1)
               (fst (fold_left recordEvent batch (events, seenProjects)))
               (snd (fold_left recordEvent batch (events, seenProjects)))
    else ret events.
Proof.
  simp scanLoop.
  destruct (Sumbool.sumbool_of_bool
              ((0 <=? currentEndBlock) && (Z.of_nat (size seenProjects) <? totalProjects)));
    reflexivity.
Qed.

Lemma elem_of_inWindow (fromBlock toBlock : Z) (log : list Event) (e : Event) :
  e ∈ inWindow fromBlock toBlock log <->
  e ∈ log /\ fromBlock <= blockNumber e <= toBlock.
Proof.
  unfold inWindow. rewrite !list_elem_of_In, filter_In, andb_true_iff, !Z.leb_le.
  tauto.
Qed.

(** The scan over the snapshot chain terminates, keeps the invariant and
    stops only when every recorded project was seen or the authoritative
    count was reached. *)
Lemma scanLoop_sim (registry : string) (total : Z) (log : list Event) :
  forall (n : nat) (currentEndBlock : Z) (events : list Event) (seen : gset string)
         (w : Sim),
    (Z.to_nat (currentEndBlock + 1) <= n)%nat ->
    sim_log w = log ->
    scanInv log events seen ->
    (forall e k, e ∈ log -> currentEndBlock < blockNumber e ->
                 creationKey e = Some k -> k ∈ seen) ->
    exists events' seen' w',
      scanLoop registry total currentEndBlock events seen w = (Resolved events', w')
      /\ scanInv log events' seen'
      /\ ((forall e k, e ∈ log -> 0 <= blockNumber e ->
                       creationKey e = Some k -> k ∈ seen')
          \/ total <= Z.of_nat (size seen'))
      /\ sim_pyusd w' = sim_pyusd w.
Proof.
  induction n as [|n IH]; intros currentEndBlock events seen w Hn Hlog Hinv Hdone;
    rewrite scanLoop_step;
    destruct (Sumbool.sumbool_of_bool
                ((0 <=? currentEndBlock) && (Z.of_nat (size seen) <? total)))
      as [Hgo|Hstop].
  - apply andb_prop in Hgo as [Hge _]. apply Z.leb_le in Hge. lia.
  - exists events, seen, w. split; [reflexivity|]. split; [exact Hinv|].
    split; [|reflexivity].
    apply andb_false_iff in Hstop as [Hlt|Hfull].
    + left. apply Z.leb_gt in Hlt.
      intros e k He Hb Hk. apply (Hdone e k He); [lia|exact Hk].
    + right. now apply Z.ltb_ge in Hfull.
  - apply andb_prop in Hgo as [Hge _]. apply Z.leb_le in Hge.
    set (currentStartBlock := Z.max 0 (currentEndBlock - MAX_EVENT_BLOCK_SPAN + 1)).
    assert (withRpcRetry (queryFilter registry currentStartBlock currentEndBlock) w
            = (Resolved (inWindow currentStartBlock currentEndBlock log),
               noteQuery currentStartBlock currentEndBlock w)) as Hquery.
    { apply withRpcRetry_resolved. simpl. now rewrite Hlog. }
    rewrite (bind_step _ _ _ _ _ Hquery).
    destruct (recordEvent_fold_inv log
                (inWindow currentStartBlock currentEndBlock log) events seen Hinv)
      as (Hinv' & Hmono & Hkeys).
    { intros e He. now apply elem_of_inWindow in He. }
    destruct (IH (currentStartBlock - 1)
                (fst (fold_left recordEvent
                        (inWindow currentStartBlock currentEndBlock log) (events, seen)))
                (snd (fold_left recordEvent
                        (inWindow currentStartBlock currentEndBlock log) (events, seen)))
                (noteQuery currentStartBlock currentEndBlock w))
      as (events' & seen' & w' & Hrun & Hinv'' & Hstop' & Hsame).
    { subst currentStartBlock. unfold MAX_EVENT_BLOCK_SPAN. lia. }
    { exact Hlog. }
    { exact Hinv'. }
    { intros e k He Hb Hk.
      destruct (Z.lt_ge_cases currentEndBlock (blockNumber e)) as [Habove|Hin].
      { apply Hmono. eapply Hdone; eassumption. }
      apply (Hkeys e k); [|exact Hk].
      apply elem_of_inWindow. split; [exact He|lia]. }
    exists events', seen', w'. split; [exact Hrun|]. split; [exact Hinv''|].
    split; [exact Hstop'|exact Hsame].
  - exists events, seen, w. split; [reflexivity|]. split; [exact Hinv|].
    split; [|reflexivity].
    apply andb_false_iff in Hstop as [Hlt|Hfull].
    + left. apply Z.leb_gt in Hlt.
      intros e k He Hb Hk. apply (Hdone e k He); [lia|exact Hk].
    + right. now apply Z.ltb_ge in Hfull.
Qed.

Lemma insertByBlock_perm (e : Event) (l : list Event) :
  insertByBlock e l ≡ₚ e :: l.
Proof.
  induction l as [|x l IH]; simpl; [reflexivity|].
  destruct (blockNumber e <=? blockNumber x); [reflexivity|].
  rewrite IH. apply Permutation_swap.
Qed.

Lemma sortByBlock_perm (l : list Event) : sortByBlock l ≡ₚ l.
Proof.
  induction l as [|e l IH]; simpl; [reflexivity|].
  rewrite insertByBlock_perm. now rewrite IH.
Qed.

Lemma insertByBlock_sorted (e : Event) (l : list Event) :
  Sorted blockLe l -> Sorted blockLe (insertByBlock e l).
Proof.
  induction l as [|x l IH]; intros Hs; simpl.
  - repeat constructor.
  - destruct (Z.leb_spec (blockNumber e) (blockNumber x)) as [Hle|Hgt].
    + constructor; [exact Hs|]. constructor. exact Hle.
    + apply Sorted_inv in Hs as [Hs Hhd]. constructor; [now apply IH|].
      destruct l as [|y l]; simpl.
      * constructor. unfold blockLe. lia.
      * destruct (blockNumber e <=? blockNumber y); constructor.
        -- unfold blockLe. lia.
        -- now apply HdRel_inv in Hhd.
Qed.

#[export] Instance blockLe_trans : Transitive blockLe.
Proof. unfold blockLe. intros a b c. lia. Qed.

Lemma sortByBlock_sorted (l : list Event) : StronglySorted blockLe (sortByBlock l).
Proof.
  apply Sorted_StronglySorted; [apply blockLe_trans|].
  induction l as [|e l IH]; simpl; [constructor|].
  now apply insertByBlock_sorted.
Qed.

Lemma omap_perm {A B} (f : A -> option B) (l1 l2 : list A) :
  l1 ≡ₚ l2 -> omap f l1 ≡ₚ omap f l2.
Proof.
  induction 1 as [|x l1 l2 _ IH|x y l|l1 l2 l3 _ IH1 _ IH2]; simpl.
  - reflexivity.
  - destruct (f x); [now rewrite IH|exact IH].
  - destruct (f x), (f y); try reflexivity. apply Permutation_swap.
  - now rewrite IH1.
Qed.

Lemma creationKey_project (e : Event) (k : string) :
  creationKey e = Some k ->
  exists projectAddress,
    eventProject e = Some projectAddress
    /\ truthy (Some projectAddress) = true
    /\ k = toLowerCase projectAddress.
Proof.
  unfold creationKey. destruct (eventProject e) as [pa|]; [|discriminate].
  destruct (truthy (Some pa)) eqn:Ht; [|discriminate].
  intros [= <-]. eauto.
Qed.

Lemma omap_head {A B} (f : A -> option B) (x : A) (l : list A) :
  omap f (x :: l) = match f x with Some y => y :: omap f l | None => omap f l end.
Proof. reflexivity. Qed.

Lemma omap_creationKey_lower (events : list Event) :
  Forall (fun e => is_Some (creationKey e)) events ->
  omap creationKey events = toLowerCase <$> omap eventProject events.
Proof.
  induction 1 as [|e events [k Hk] _ IH]; [reflexivity|].
  rewrite !omap_head, Hk.
  destruct (creationKey_project e k Hk) as (pa & -> & _ & ->).
  rewrite fmap_cons. now rewrite IH.
Qed.

(** On the snapshot chain [discoverLoop] turns events with distinct
    project addresses, each carrying a token, into one project each, in
    the order of the events. *)
Lemma discoverLoop_sim (events : list Event) :
  forall (projectsMap : list ProjectInfo) (w : Sim),
    Forall (fun e => is_Some (creationKey e) /\ truthy (eventToken e) = true) events ->
    NoDup ((projectAddress <$> projectsMap) ++ omap eventProject events) ->
    discoverLoop events projectsMap w
      = (Resolved (projectsMap ++ (projectOfEvent w <$> events)), w).
Proof.
  induction events as [|e events IH]; intros pm w Hall Hnd; cbn [discoverLoop].
  - rewrite fmap_nil, app_nil_r. reflexivity.
  - apply Forall_cons in Hall as [[[k Hk] Htok] Hall].
    destruct (creationKey_project e k Hk) as (pa & Hpa & Htruthy & _).
    destruct (eventToken e) as [ta|] eqn:Hta; [|discriminate].
    rewrite omap_head, Hpa in Hnd.
    assert (projectsMapHas pm pa = false) as Hfresh.
    { destruct (projectsMapHas pm pa) eqn:Hhas; [exfalso|reflexivity].
      apply NoDup_app in Hnd as (_ & Hdisj & _).
      unfold projectsMapHas in Hhas. apply existsb_exists in Hhas as (p & Hp & Heq).
      apply String.eqb_eq in Heq. apply (Hdisj pa); [|left].
      apply list_elem_of_fmap. exists p. split; [auto|now apply list_elem_of_In]. }
    rewrite fmap_cons. unfold projectOfEvent at 1.
    rewrite Hpa, Hta, Htruthy, Htok, Hfresh. cbn [negb orb default].
    rewrite (bind_step _ _ w (sim_pyusd w pa) w)
      by (apply withRpcRetry_resolved; reflexivity).
    rewrite IH; [|exact Hall|].
    + now rewrite <- app_assoc.
    + rewrite fmap_app, <- app_assoc. exact Hnd.
Qed.

(** C6: over a snapshot whose log records N distinct projects in blocks
    0 .. latest and whose registry reports the count N, discovery returns
    exactly N events, one per recorded project, all taken from the log and
    sorted by ascending block number, wherever the events fall relative to
    the 10-block windows; when every creation event carries its token,
    [discoverProjects] turns them into N projects in that order; for
    N = 0 the result is the empty list and no window is queried. *)
Theorem discovery_complete (registry : string) (w : Sim) :
  Forall (fun e => 0 <= blockNumber e <= sim_latestBlock w) (sim_log w) ->
  sim_projectCount w = Z.of_nat (size (recordedProjects (sim_log w))) ->
  sim_projectCount w < 2 ^ 53 ->
  exists events w',
    fetchProjectCreationEvents registry w = (Resolved events, w')
    /\ length events = size (recordedProjects (sim_log w))
    /\ NoDup (omap creationKey events)
    /\ Forall (fun e => is_Some (creationKey e) /\ e ∈ sim_log w) events
    /\ recordedProjects events = recordedProjects (sim_log w)
    /\ StronglySorted blockLe events
    /\ (Forall (fun e => is_Some (creationKey e) -> truthy (eventToken e) = true)
               (sim_log w) ->
        exists projects,
          discoverProjects registry w = (Resolved projects, w')
          /\ length projects = size (recordedProjects (sim_log w))
          /\ projectAddress <$> projects = omap eventProject events)
    /\ (size (recordedProjects (sim_log w)) = 0%nat ->
        events = [] /\ w' = w /\ sim_queries w' = sim_queries w).
Proof.
  intros Hblocks Hcount Hsmall.
  assert (exists events w',
    fetchProjectCreationEvents registry w = (Resolved events, w')
    /\ length events = size (recordedProjects (sim_log w))
    /\ NoDup (omap creationKey events)
    /\ Forall (fun e => is_Some (creationKey e) /\ e ∈ sim_log w) events
    /\ recordedProjects events = recordedProjects (sim_log w)
    /\ StronglySorted blockLe events
    /\ sim_pyusd w' = sim_pyusd w
    /\ (size (recordedProjects (sim_log w)) = 0%nat ->
        events = [] /\ w' = w /\ sim_queries w' = sim_queries w)) as Hfetch.
  { set (log := sim_log w) in *. set (N := size (recordedProjects log)) in *.
    unfold fetchProjectCreationEvents.
    rewrite (bind_step _ _ w (sim_latestBlock w) w)
      by (apply withRpcRetry_resolved; reflexivity).
    rewrite (bind_step _ _ w (sim_projectCount w) w)
      by (apply withRpcRetry_resolved; reflexivity).
    assert (liftOutcome (BigNumber.toNumber (sim_projectCount w)) w
            = (Resolved (Z.of_nat N), w)) as Hnum.
    { unfold liftOutcome, BigNumber.toNumber. rewrite Hcount.
      rewrite Z.abs_eq by lia. rewrite <- Hcount.
      destruct (Z.ltb_spec (sim_projectCount w) (2 ^ 53)); [reflexivity|lia]. }
    rewrite (bind_step _ _ w _ w Hnum).
    destruct (Z.eqb_spec (Z.of_nat N) 0) as [Hzero|Hpos].
    - assert (N = 0%nat) as HN by lia.
      assert (recordedProjects log = ∅) as Hempty
        by (now apply size_empty_inv, leibniz_equiv in HN).
      exists [], w. split; [reflexivity|]. split; [now rewrite HN|].
      split; [constructor|]. split; [constructor|].
      split; [now rewrite Hempty|]. split; [constructor|]. auto.
    - destruct (scanLoop_sim registry (Z.of_nat N) log
                  (Z.to_nat (sim_latestBlock w + 1)) (sim_latestBlock w) [] ∅ w)
        as (events & seen & w' & Hscan & Hinv & Hstop & Hsame).
      { lia. }
      { reflexivity. }
      { apply scanInv_nil. }
      { intros e k He Hb _. rewrite Forall_forall in Hblocks.
        specialize (Hblocks e He). lia. }
      rewrite (bind_step _ _ w events w' Hscan).
      destruct Hinv as (Hseen & Hnd & Hkeys & Hsub & Hsize).
      assert (seen = recordedProjects log) as Hall.
      { assert (seen ⊆ recordedProjects log) as Hincl.
        { intros k Hk. apply Hseen, list_elem_of_omap in Hk as (e & He & Hke).
          apply elem_of_list_to_set, list_elem_of_omap. exists e. auto. }
        destruct Hstop as [Hevery|Hfull].
        - apply set_eq. intros k. split; [apply Hincl|].
          intros Hk.
          apply elem_of_list_to_set, list_elem_of_omap in Hk as (e & He & Hke).
          apply (Hevery e k He); [|exact Hke].
          rewrite Forall_forall in Hblocks. specialize (Hblocks e He). lia.
        - apply set_subseteq_size_eq; [exact Hincl|]. fold N. lia. }
      exists (sortByBlock events), w'. split; [reflexivity|].
      assert (recordedProjects (sortByBlock events) = recordedProjects log) as Hrec.
      { rewrite <- Hall. apply set_eq. intros k. unfold recordedProjects.
        rewrite elem_of_list_to_set, (omap_perm _ _ _ (sortByBlock_perm events)).
        symmetry. apply Hseen. }
      split.
      { rewrite (Permutation_length (sortByBlock_perm events)), <- Hsize, Hall.
        reflexivity. }
      split.
      { now rewrite (omap_perm _ _ _ (sortByBlock_perm events)). }
      split.
      { rewrite (sortByBlock_perm events). apply Forall_forall. intros e He.
        rewrite Forall_forall in Hkeys. auto. }
      split; [exact Hrec|]. split; [apply sortByBlock_sorted|].
      split; [exact Hsame|].
      intros HN. fold N in HN. lia. }
  destruct Hfetch as (events & w' & Hrun & Hlen & Hnd & Hkeys & Hrec & Hsorted & Hpyusd & Hzero).
  exists events, w'. repeat (split; [assumption|]). split; [|exact Hzero].
  intros Htokens.
  exists (projectOfEvent w' <$> events).
  split; [|split].
  - unfold discoverProjects. rewrite (bind_step _ _ w events w' Hrun).
    rewrite discoverLoop_sim; [reflexivity| |].
    + rewrite Forall_forall in Hkeys, Htokens. apply Forall_forall.
      intros e He. destruct (Hkeys e He) as [Hk Hlog]. auto.
    + rewrite fmap_nil, app_nil_l. apply (NoDup_fmap_1 toLowerCase).
      rewrite <- omap_creationKey_lower; [exact Hnd|].
      eapply Forall_impl; [exact Hkeys|]. simpl. tauto.
  - now rewrite length_fmap.
  - rewrite <- list_fmap_compose.
    assert (Forall (fun e => is_Some (creationKey e)) events) as Hk
      by (eapply Forall_impl; [exact Hkeys|]; simpl; tauto).
    clear -Hk. induction Hk as [|e events [k Hk] _ IH]; [reflexivity|].
    rewrite fmap_cons, omap_head.
    destruct (creationKey_project e k Hk) as (pa & Hpa & _ & _).
    rewrite Hpa, IH. unfold compose, projectOfEvent at 1. now rewrite Hpa.
Qed.

Lemma discovery_complete_witness :
  sim_projectCount sampleRegistryWorld = Z.of_nat (size (recordedProjects sampleLog))
  /\ exists events w',
       fetchProjectCreationEvents sampleRegistry sampleRegistryWorld = (Resolved events, w')
       /\ length events = 3%nat
       /\ StronglySorted blockLe events.
Proof.
  assert (sim_projectCount sampleRegistryWorld
          = Z.of_nat (size (recordedProjects (sim_log sampleRegistryWorld)))) as Hcount
    by (vm_compute; reflexivity).
  split; [exact Hcount|].
  destruct (discovery_complete sampleRegistry sampleRegistryWorld)
    as (events & w' & Hrun & Hlen & _ & _ & _ & Hsorted & _).
  - repeat constructor; simpl; lia.
  - exact Hcount.
  - reflexivity.
  - exists events, w'. split; [exact Hrun|]. split; [|exact Hsorted].
    rewrite Hlen. vm_compute. reflexivity.
Defined.

Example discovery_sample_run :
  let run := fetchProjectCreationEvents sampleRegistry sampleRegistryWorld in
  fst run = Resolved sampleLog
  /\ sim_queries (snd run) = [(16, 25); (6, 15); (0, 5)].
Proof. split; vm_compute; reflexivity. Qed.

(** * Further properties of the ability *)

(** ** Retry wrapper: exhaustion and the backoff profile *)

Lemma retryLoop_probe_step {St T : Type} (step : St -> outcome T * St)
    (attempt : Z) (lastError : thrown) (w : Probe St) :
  attempt < RPC_MAX_RETRIES ->
  retryLoop (probed step) attempt lastError w =
    match step (opState w) with
    | (Resolved v, s) => (Resolved v, mkProbe s (S (opCalls w)) (delays w))
    | (Rejected e, s) =>
        if negb (isRetryableRpcError e) || (attempt + 1 =? RPC_MAX_RETRIES)
        then (Rejected e, mkProbe s (S (opCalls w)) (delays w))
        else retryLoop (probed step) (attempt + 1) e
               (mkProbe s (S (opCalls w))
                  (delays w ++ [RPC_RETRY_BASE_DELAY_MS * (attempt + 1)]))
    end.
Proof.
  intros Hlt. rewrite retryLoop_step.
  destruct (Z_lt_dec attempt RPC_MAX_RETRIES) as [_|Hge]; [|contradiction].
  unfold tryCatch, probed. destruct (step (opState w)) as [[v|e] s]; [reflexivity|].
  destruct (negb (isRetryableRpcError e) || (attempt + 1 =? RPC_MAX_RETRIES));
    reflexivity.
Qed.

Ltac retry_case :=
  change (RPC_RETRY_BASE_DELAY_MS * (0 + 1)) with 1000;
  change (RPC_RETRY_BASE_DELAY_MS * (0 + 1 + 1)) with 2000;
  simpl;
  split; [auto|]; split; [reflexivity|];
  intros; congruence.

(** X1: whatever the operation does, the wrapper waits only between
    attempts: the delays form a prefix of 1000, 2000 and the operation
    was invoked once more than the wrapper waited; three failures, the
    first two retryable, rethrow the third error after exactly those two
    delays, whether or not the third error is retryable. *)
Theorem withRpcRetry_backoff_profile :
  forall (St T : Type) (step : St -> outcome T * St) (s0 : St),
    let run := withRpcRetry (probed step) (mkProbe s0 0 []) in
    (delays (snd run) = [] \/ delays (snd run) = [1000]
     \/ delays (snd run) = [1000; 2000])
    /\ opCalls (snd run) = S (length (delays (snd run)))
    /\ (forall e1 s1 e2 s2 e3 s3,
          step s0 = (Rejected e1, s1) -> isRetryableRpcError e1 = true ->
          step s1 = (Rejected e2, s2) -> isRetryableRpcError e2 = true ->
          step s2 = (Rejected e3, s3) ->
          run = (Rejected e3, mkProbe s3 3 [1000; 2000])).
Proof.
  intros St T step s0 run. subst run. unfold withRpcRetry.
  rewrite retryLoop_probe_step by reflexivity. cbn [opState opCalls delays].
  destruct (step s0) as [[v1|e1] s1] eqn:H1; [retry_case|].
  destruct (isRetryableRpcError e1) eqn:R1; cbn [negb orb]; [|retry_case].
  change (0 + 1 =? RPC_MAX_RETRIES) with false. cbv iota.
  rewrite retryLoop_probe_step by reflexivity. cbn [opState opCalls delays].
  destruct (step s1) as [[v2|e2] s2] eqn:H2; [retry_case|].
  destruct (isRetryableRpcError e2) eqn:R2; cbn [negb orb]; [|retry_case].
  change (0 + 1 + 1 =? RPC_MAX_RETRIES) with false. cbv iota.
  rewrite retryLoop_probe_step by reflexivity. cbn [opState opCalls delays].
  change (0 + 1 + 1 + 1 =? RPC_MAX_RETRIES) with true.
  destruct (step s2) as [[v3|e3] s3] eqn:H3; [retry_case|].
  rewrite orb_true_r. retry_case.
Qed.

Lemma withRpcRetry_backoff_profile_witness :
  withRpcRetry (probed scripted)
    (mkProbe [Rejected serverError; Rejected serverError;
              Rejected serverError; Resolved 7] 0 [])
  = (Rejected serverError, mkProbe [Resolved 7] 3 [1000; 2000]).
Proof.
  refine (proj2 (proj2 (withRpcRetry_backoff_profile _ _ scripted
            [Rejected serverError; Rejected serverError;
             Rejected serverError; Resolved 7]))
            serverError _ serverError _ serverError _ _ _ _ _ _);
    reflexivity.
Defined.

(** ** Deviation: thresholds without division, and bounds *)

Lemma calculateDeviation_level (currentPrice targetPrice : Z) :
  0 < targetPrice ->
  exists d,
    calculateDeviation currentPrice targetPrice = Resolved d
    /\ (forall k, k <= dev_deviationBps d <->
                  k * targetPrice <= Z.abs (currentPrice - targetPrice) * 10000).
Proof.
  intros Ht. eexists. split; [apply calculateDeviation_nonzero; lia|].
  cbn [dev_deviationBps]. rewrite Z.quot_div_nonneg by lia.
  intros k. split.
  - intros Hk.
    pose proof (Z.mul_div_le (Z.abs (currentPrice - targetPrice) * 10000)
                  targetPrice Ht). nia.
  - intros Hk. apply Z.div_le_lower_bound; lia.
Qed.

(** X2: for a positive target, the computed deviationBps reaches a level
    [k] exactly when |current - target| * 10000 reaches k * target; it is
    never negative, and on the increase side (0 <= current <= target) it
    never exceeds 10000. *)
Theorem calculateDeviation_threshold (currentPrice targetPrice : Z) :
  0 < targetPrice ->
  exists d,
    calculateDeviation currentPrice targetPrice = Resolved d
    /\ (forall k, k <= dev_deviationBps d <->
                  k * targetPrice <= Z.abs (currentPrice - targetPrice) * 10000)
    /\ 0 <= dev_deviationBps d
    /\ (0 <= currentPrice <= targetPrice -> dev_deviationBps d <= 10000).
Proof.
  intros Ht. eexists. split; [apply calculateDeviation_nonzero; lia|].
  cbn [dev_deviationBps]. rewrite Z.quot_div_nonneg by lia.
  split; [|split].
  - intros k. split.
    + intros Hk.
      pose proof (Z.mul_div_le (Z.abs (currentPrice - targetPrice) * 10000)
                    targetPrice Ht). nia.
    + intros Hk. apply Z.div_le_lower_bound; lia.
  - apply Z.div_pos; lia.
  - intros Hc. apply Z.div_le_upper_bound; lia.
Qed.

Lemma calculateDeviation_threshold_witness :
  exists d,
    calculateDeviation 1950 2000 = Resolved d
    /\ (forall k, k <= dev_deviationBps d <-> k * 2000 <= Z.abs (1950 - 2000) * 10000)
    /\ 0 <= dev_deviationBps d
    /\ (0 <= 1950 <= 2000 -> dev_deviationBps d <= 10000).
Proof. apply (calculateDeviation_threshold 1950 2000). lia. Defined.

(** ** Pool price *)

Lemma computePoolPrice_value (s : Z) :
  computePoolPrice s = Resolved (s * s * 10 ^ 18 / 2 ^ 192).
Proof.
  unfold computePoolPrice, BigNumber.div, BigNumber.mul, WEI_PER_ETHER, Q192.
  change (2 ^ 192 =? 0) with false. cbv iota. f_equal.
  apply Z.quot_div_nonneg; [|lia]. nia.
Qed.

(** X3: [computePoolPrice] never throws; it returns
    floor(sqrtPriceX96^2 * 10^18 / 2^192), which is nonnegative, does not
    depend on the sign of its argument, is monotone on nonnegative
    arguments, and is exact on multiples of 2^96. *)
Theorem computePoolPrice_spec :
  (forall s, computePoolPrice s = Resolved (s * s * 10 ^ 18 / 2 ^ 192)
             /\ 0 <= s * s * 10 ^ 18 / 2 ^ 192)
  /\ (forall s, computePoolPrice (- s) = computePoolPrice s)
  /\ (forall s s' p p',
        0 <= s <= s' ->
        computePoolPrice s = Resolved p -> computePoolPrice s' = Resolved p' ->
        p <= p')
  /\ (forall k, computePoolPrice (k * 2 ^ 96) = Resolved (k * k * 10 ^ 18)).
Proof.
  pose proof computePoolPrice_value as Hspec.
  split; [|split; [|split]].
  - intros s. split; [apply Hspec|]. apply Z.div_pos; [nia|lia].
  - intros s. rewrite !Hspec. do 2 f_equal. lia.
  - intros s s' p p' Hs. rewrite !Hspec. intros [= <-] [= <-].
    apply Z.div_le_mono; [lia|]. nia.
  - intros k. rewrite Hspec. f_equal.
    replace (k * 2 ^ 96 * (k * 2 ^ 96) * 10 ^ 18) with (k * k * 10 ^ 18 * 2 ^ 192).
    + apply Z.div_mul. lia.
    + change (2 ^ 192) with (2 ^ 96 * 2 ^ 96). ring.
Qed.

Lemma computePoolPrice_spec_witness :
  computePoolPrice (2 ^ 96) = Resolved (10 ^ 18) /\ 10 ^ 18 <= 4 * 10 ^ 18.
Proof.
  split; [exact (proj2 (proj2 (proj2 computePoolPrice_spec)) 1)|].
  refine (proj1 (proj2 (proj2 computePoolPrice_spec)) (2 ^ 96) (2 ^ 97) _ _ _ _ _);
    [lia|reflexivity|reflexivity].
Defined.

(** ** Network selection *)

Lemma lowerAscii_idem (c : ascii) : lowerAscii (lowerAscii c) = lowerAscii c.
Proof. destruct c as [[] [] [] [] [] [] [] []]; reflexivity. Qed.

Lemma toLowerCase_idem (s : string) : toLowerCase (toLowerCase s) = toLowerCase s.
Proof.
  induction s as [|c s IH]; [reflexivity|].
  simpl. now rewrite lowerAscii_idem, IH.
Qed.

Lemma truthy_toLowerCase (s : string) :
  truthy (Some (toLowerCase s)) = truthy (Some s).
Proof. destruct s; reflexivity. Qed.

Lemma inferChainIdFromRpc_config (rpcUrl : option string) (chainId : Z) :
  inferChainIdFromRpc rpcUrl = Some chainId ->
  (chainId = 1 \/ chainId = 11155111) /\ is_Some (NETWORK_CONFIG chainId).
Proof.
  destruct rpcUrl as [url|]; [|discriminate]. unfold inferChainIdFromRpc.
  destruct (negb (truthy (Some url))); [discriminate|].
  destruct (includes (toLowerCase url) "sepolia").
  - intros [= <-]. split; [auto|]. eexists. reflexivity.
  - destruct (includes (toLowerCase url) "mainnet"); [|discriminate].
    intros [= <-]. split; [auto|]. eexists. reflexivity.
Qed.

(** X4: the chain inferred from an RPC URL is always 1 or 11155111 and
    always has an entry in [NETWORK_CONFIG]; "sepolia" takes precedence
    over "mainnet"; the inference ignores letter case; and the provider is
    given a static network exactly when the inference succeeds on the URL
    it connects to. *)
Theorem inferChainIdFromRpc_supported :
  (forall rpcUrl chainId,
      inferChainIdFromRpc rpcUrl = Some chainId ->
      (chainId = 1 \/ chainId = 11155111) /\ is_Some (NETWORK_CONFIG chainId))
  /\ (forall url,
        includes (toLowerCase url) "sepolia" = true ->
        inferChainIdFromRpc (Some url) = Some 11155111)
  /\ (forall url,
        inferChainIdFromRpc (Some (toLowerCase url)) = inferChainIdFromRpc (Some url))
  /\ (forall rpcUrl,
        staticNetwork (createProvider rpcUrl) =
          match inferChainIdFromRpc (Some (providerUrl (createProvider rpcUrl))) with
          | Some chainId => Some (chainId, if chainId =? 1 then "mainnet" else "sepolia")
          | None => None
          end
        /\ providerUrl (createProvider rpcUrl) = default DEFAULT_RPC_URL rpcUrl).
Proof.
  split; [|split; [|split]].
  - exact inferChainIdFromRpc_config.
  - intros url Hs. unfold inferChainIdFromRpc.
    destruct url as [|c url]; [discriminate Hs|].
    cbn [truthy String.eqb negb]. now rewrite Hs.
  - intros url. unfold inferChainIdFromRpc.
    now rewrite truthy_toLowerCase, toLowerCase_idem.
  - intros rpcUrl. unfold createProvider.
    destruct rpcUrl as [u|]; cbn [default].
    + destruct (inferChainIdFromRpc (Some u)) as [c|] eqn:Hc; cbn [staticNetwork providerUrl];
        rewrite Hc; auto.
    + destruct (inferChainIdFromRpc (Some DEFAULT_RPC_URL)) as [c|] eqn:Hc;
        cbn [staticNetwork providerUrl]; rewrite Hc; auto.
Qed.

Lemma inferChainIdFromRpc_supported_witness :
  inferChainIdFromRpc (Some "https://SEPOLIA.example/mainnet") = Some 11155111.
Proof.
  apply (proj1 (proj2 inferChainIdFromRpc_supported)). reflexivity.
Defined.

(** X5: network discovery prefers the chain the provider reports; when
    that chain is unsupported or the provider fails, it falls back to the
    chain inferred from the raw RPC URL, so with a URL that names sepolia
    or mainnet it never fails; without such a URL the provider's error,
    or an "Unsupported network" error, is passed on unchanged. *)
Theorem discoverNetworkConfig_fallback {W : Type} `{Chain W}
    (provider : Provider) (rpcUrl : option string) (w : W) :
  (forall chainId config w',
      getNetwork provider w = (Resolved chainId, w') ->
      NETWORK_CONFIG chainId = Some config ->
      discoverNetworkConfig provider rpcUrl w = (Resolved config, w'))
  /\ (forall fallbackChainId,
        inferChainIdFromRpc rpcUrl = Some fallbackChainId ->
        exists config,
          discoverNetworkConfig provider rpcUrl w = (Resolved config, snd (getNetwork provider w))
          /\ (NETWORK_CONFIG fallbackChainId = Some config
              \/ exists chainId, fst (getNetwork provider w) = Resolved chainId
                                 /\ NETWORK_CONFIG chainId = Some config))
  /\ (inferChainIdFromRpc rpcUrl = None ->
      (forall e w',
          getNetwork provider w = (Rejected e, w') ->
          discoverNetworkConfig provider rpcUrl w = (Rejected e, w'))
      /\ (forall chainId w',
            getNetwork provider w = (Resolved chainId, w') ->
            NETWORK_CONFIG chainId = None ->
            discoverNetworkConfig provider rpcUrl w
              = (Rejected (newError ("Unsupported network " +:+ BigNumber.toString chainId)),
                 w'))).
Proof.
  unfold discoverNetworkConfig, tryCatch, bind. split; [|split].
  - intros chainId config w' -> ->. reflexivity.
  - intros fb Hfb. rewrite Hfb.
    destruct (inferChainIdFromRpc_config rpcUrl fb Hfb) as [_ [cfg Hcfg]]. rewrite Hcfg.
    destruct (getNetwork provider w) as [[chainId|e] w'] eqn:Hnet; cbn [fst snd].
    + destruct (NETWORK_CONFIG chainId) as [cfg'|] eqn:Hc.
      * exists cfg'. split; [reflexivity|]. right. eauto.
      * exists cfg. split; [reflexivity|]. now left.
    + exists cfg. split; [reflexivity|]. now left.
  - intros Hnone. rewrite Hnone. split.
    + intros e w' ->. reflexivity.
    + intros chainId w' -> ->. reflexivity.
Qed.

Lemma discoverNetworkConfig_fallback_witness :
  exists config,
    discoverNetworkConfig
      (createProvider None) (Some "https://rpc.sepolia.example")
      (sampleWorld (2 ^ 96) 0)
    = (Resolved config, sampleWorld (2 ^ 96) 0).
Proof.
  destruct (proj1 (proj2 (discoverNetworkConfig_fallback (createProvider None)
              (Some "https://rpc.sepolia.example") (sampleWorld (2 ^ 96) 0)))
              11155111 eq_refl) as (config & Hrun & _).
  exists config. exact Hrun.
Defined.

(** ** Discovery and metrics: what a successful read guarantees *)

Section DiscoveryFacts.
Context {W : Type} `{Chain W}.

Lemma discoverLoop_truthy (events : list Event) :
  forall projectsMap w r w',
    Forall (fun p => projectAddress p <> "" /\ tokenAddress p <> "") projectsMap ->
    discoverLoop events projectsMap w = (Resolved r, w') ->
    Forall (fun p => projectAddress p <> "" /\ tokenAddress p <> "") r.
Proof.
  induction events as [|event rest IH]; intros pm w r w' Hall Hrun;
    cbn [discoverLoop] in Hrun.
  - run_inv Hrun. exact Hall.
  - destruct (eventProject event) as [pa|]; [|eauto].
    destruct (eventToken event) as [ta|]; [|eauto].
    destruct (negb (truthy (Some pa)) || negb (truthy (Some ta))) eqn:Hfalsy; [eauto|].
    destruct (projectsMapHas pm pa) eqn:Hhas; [eauto|].
    run_inv Hrun. eapply IH; [|exact Hrun].
    apply Forall_app. split; [exact Hall|]. constructor; [|constructor].
    apply orb_false_elim in Hfalsy as [Hpa Hta]. cbn [projectAddress tokenAddress].
    split; intros ->; discriminate.
Qed.

Lemma discoverLoop_extends (events : list Event) :
  forall projectsMap w r w',
    discoverLoop events projectsMap w = (Resolved r, w') ->
    exists added,
      r = projectsMap ++ added
      /\ (length added <= length events)%nat
      /\ Forall (fun p => exists e, e ∈ events
                                    /\ eventProject e = Some (projectAddress p)
                                    /\ eventToken e = Some (tokenAddress p)) added.
Proof.
  induction events as [|event rest IH]; intros pm w r w' Hrun;
    cbn [discoverLoop] in Hrun.
  - run_inv Hrun. exists []. rewrite app_nil_r. repeat split; [simpl; lia|constructor].
  - assert (forall added : list ProjectInfo,
               r = pm ++ added /\ (length added <= length rest)%nat
               /\ Forall (fun p => exists e, e ∈ rest
                                    /\ eventProject e = Some (projectAddress p)
                                    /\ eventToken e = Some (tokenAddress p)) added ->
               r = pm ++ added /\ (length added <= length (event :: rest))%nat
               /\ Forall (fun p => exists e, e ∈ event :: rest
                                    /\ eventProject e = Some (projectAddress p)
                                    /\ eventToken e = Some (tokenAddress p)) added) as Hweak.
    { intros added (Hr & Hlen & Hall). split; [exact Hr|]. split; [simpl; lia|].
      eapply Forall_impl; [exact Hall|]. intros p (e & He & Hp).
      exists e. split; [now apply elem_of_cons; right|exact Hp]. }
    assert (discoverLoop rest pm w = (Resolved r, w') ->
            exists added,
              r = pm ++ added /\ (length added <= length (event :: rest))%nat
              /\ Forall (fun p => exists e, e ∈ event :: rest
                                    /\ eventProject e = Some (projectAddress p)
                                    /\ eventToken e = Some (tokenAddress p)) added) as Hskip.
    { intros Hrest. destruct (IH _ _ _ _ Hrest) as (added & Hadded).
      exists added. now apply Hweak. }
    destruct (eventProject event) as [pa|] eqn:Hpa; [|auto].
    destruct (eventToken event) as [ta|] eqn:Hta; [|auto].
    destruct (negb (truthy (Some pa)) || negb (truthy (Some ta))); [auto|].
    destruct (projectsMapHas pm pa); [auto|].
    run_inv Hrun. destruct (IH _ _ _ _ Hrun) as (added & Hr & Hlen & Hall).
    exists (mkProjectInfo pa ta v :: added). split; [|split].
    + rewrite Hr, <- app_assoc. reflexivity.
    + simpl. lia.
    + constructor.
      * exists event. split; [apply elem_of_cons; now left|]. cbn [projectAddress tokenAddress].
        split; assumption.
      * eapply Forall_impl; [exact Hall|]. intros p (e & He & Hp).
        exists e. split; [now apply elem_of_cons; right|exact Hp].
Qed.

Lemma scanInv_relog (log log' events : list Event) (seen : gset string) :
  scanInv log events seen -> (forall e, e ∈ events -> e ∈ log') ->
  scanInv log' events seen.
Proof.
  intros (Hseen & Hnd & Hkeys & _ & Hsize) Hsub.
  exact (conj Hseen (conj Hnd (conj Hkeys (conj Hsub Hsize)))).
Qed.

(** Whatever the chain answers, the scan collects at most one event per
    lower-cased project address. *)
Lemma scanLoop_keys (registry : string) (total : Z) :
  forall (n : nat) (currentEndBlock : Z) (events : list Event) (seen : gset string)
         (w : W) (events' : list Event) (w' : W),
    (Z.to_nat (currentEndBlock + 1) <= n)%nat ->
    scanInv events events seen ->
    scanLoop registry total currentEndBlock events seen w = (Resolved events', w') ->
    exists seen', scanInv events' events' seen'.
Proof.
  induction n as [|n IH]; intros currentEndBlock events seen w events' w' Hn Hinv;
    rewrite scanLoop_step;
    destruct (Sumbool.sumbool_of_bool
                ((0 <=? currentEndBlock) && (Z.of_nat (size seen) <? total)))
      as [Hgo|Hstop]; intros Hrun.
  - apply andb_prop in Hgo as [Hge _]. apply Z.leb_le in Hge. lia.
  - run_inv Hrun. eauto.
  - apply andb_prop in Hgo as [Hge _]. apply Z.leb_le in Hge. cbv zeta in Hrun.
    apply bind_resolved in Hrun as (batch & w1 & _ & Hrun).
    destruct (recordEvent_fold_inv (events ++ batch) batch events seen) as (Hinv' & _).
    { eapply scanInv_relog; [exact Hinv|]. intros e He. apply elem_of_app. now left. }
    { intros e He. apply elem_of_app. now right. }
    eapply IH; [| |exact Hrun].
    + unfold MAX_EVENT_BLOCK_SPAN. lia.
    + eapply scanInv_relog; [exact Hinv'|]. auto.
  - run_inv Hrun. eauto.
Qed.

Lemma fetchProjectCreationEvents_keys (registry : string) (w : W)
    (events : list Event) (w' : W) :
  fetchProjectCreationEvents registry w = (Resolved events, w') ->
  NoDup (omap creationKey events) /\ Forall (fun e => is_Some (creationKey e)) events.
Proof.
  unfold fetchProjectCreationEvents. intros Hrun.
  apply bind_resolved in Hrun as (latest & w1 & _ & Hrun).
  apply bind_resolved in Hrun as (count & w2 & _ & Hrun).
  apply bind_resolved in Hrun as (total & w3 & _ & Hrun).
  destruct (total =? 0).
  - run_inv Hrun. split; constructor.
  - apply bind_resolved in Hrun as (collected & w4 & Hscan & Hrun). run_inv Hrun.
    destruct (scanLoop_keys registry total _ latest [] ∅ w3 collected w'
                (Nat.le_refl _) (scanInv_nil []) Hscan)
      as (seen' & _ & Hnd & Hkeys & _).
    pose proof (sortByBlock_perm collected) as Hperm. split.
    + rewrite (omap_perm creationKey _ _ Hperm). exact Hnd.
    + rewrite Hperm. exact Hkeys.
Qed.

Lemma discoverLoop_sublist (events : list Event) :
  forall projectsMap w r w',
    discoverLoop events projectsMap w = (Resolved r, w') ->
    (projectAddress <$> r)
      `sublist_of` ((projectAddress <$> projectsMap) ++ omap eventProject events).
Proof.
  induction events as [|event rest IH]; intros pm w r w' Hrun;
    cbn [discoverLoop] in Hrun.
  - run_inv Hrun. simpl. now rewrite app_nil_r.
  - rewrite omap_head.
    assert (discoverLoop rest pm w = (Resolved r, w') ->
            forall tail, (exists pa, tail = pa :: omap eventProject rest)
                         \/ tail = omap eventProject rest ->
            (projectAddress <$> r) `sublist_of` ((projectAddress <$> pm) ++ tail))
      as Hskip.
    { intros Hrest tail [[pa ->]| ->].
      - etransitivity; [exact (IH _ _ _ _ Hrest)|].
        apply sublist_app; [reflexivity|]. now apply sublist_cons.
      - exact (IH _ _ _ _ Hrest). }
    destruct (eventProject event) as [pa|]; [|apply Hskip; auto].
    destruct (eventToken event) as [ta|]; [|apply Hskip; eauto].
    destruct (negb (truthy (Some pa)) || negb (truthy (Some ta))); [apply Hskip; eauto|].
    destruct (projectsMapHas pm pa); [apply Hskip; eauto|].
    apply bind_resolved in Hrun as (stable & w1 & _ & Hrun).
    apply IH in Hrun. rewrite fmap_app, <- app_assoc in Hrun. exact Hrun.
Qed.

(** X6: every project list returned by [discoverProjects] is well formed:
    no project address occurs twice, not even up to letter case, no
    project has an empty project or token address, and each project's
    address and token are the ones carried by one of the fetched creation
    events, of which there are at least as many as projects; the events
    are sorted by ascending block number and the projects follow their
    order. *)
Theorem discoverProjects_wellformed (registry : string) (w : W)
    (projects : list ProjectInfo) (w' : W) :
  discoverProjects registry w = (Resolved projects, w') ->
  NoDup (projectAddress <$> projects)
  /\ NoDup (toLowerCase <$> (projectAddress <$> projects))
  /\ Forall (fun p => projectAddress p <> "" /\ tokenAddress p <> "") projects
  /\ exists events w1,
       fetchProjectCreationEvents registry w = (Resolved events, w1)
       /\ StronglySorted blockLe events
       /\ (projectAddress <$> projects) `sublist_of` omap eventProject events
       /\ (length projects <= length events)%nat
       /\ Forall (fun p => exists e, e ∈ events
                                     /\ eventProject e = Some (projectAddress p)
                                     /\ eventToken e = Some (tokenAddress p)) projects.
Proof.
  unfold discoverProjects. intros Hrun. run_inv Hrun. split; [|split; [|split]].
  - eapply discoverLoop_distinct; [|exact Hrun]. simpl. constructor.
  - destruct (fetchProjectCreationEvents_keys _ _ _ _ Hrun0) as [Hnd Hkeys].
    rewrite (omap_creationKey_lower _ Hkeys) in Hnd.
    pose proof (discoverLoop_sublist _ _ _ _ _ Hrun) as Hsub. simpl in Hsub.
    eapply sublist_NoDup; [exact Hnd|]. now apply fmap_sublist.
  - eapply discoverLoop_truthy; [|exact Hrun]. constructor.
  - exists v, w0. split; [exact Hrun0|]. split; [|split].
    + clear Hrun. unfold fetchProjectCreationEvents in Hrun0.
      apply bind_resolved in Hrun0 as (latest & w1 & _ & Hrun0).
      apply bind_resolved in Hrun0 as (count & w2 & _ & Hrun0).
      apply bind_resolved in Hrun0 as (total & w3 & _ & Hrun0).
      destruct (total =? 0); [run_inv Hrun0; constructor|].
      apply bind_resolved in Hrun0 as (collected & w4 & _ & Hrun0). run_inv Hrun0.
      apply sortByBlock_sorted.
    + exact (discoverLoop_sublist _ _ _ _ _ Hrun).
    + destruct (discoverLoop_extends _ _ _ _ _ Hrun) as (added & -> & Hlen & Hall).
      simpl. auto.
Qed.

(** X7: the metrics of a project are internally consistent: the target
    price is nonzero, the current price is never negative, no position is
    attached yet, deviation and direction are those of
    [calculateDeviation] on the two prices, a missing pool reads as price 0
    and liquidity 0, and with a positive target the project is eligible
    exactly when 150 * target <= |current - target| * 10000. *)
Theorem fetchProjectMetrics_consistent (p : ProjectInfo) (config : NetworkConfig)
    (w : W) (m : ProjectMetrics) (w' : W) :
  fetchProjectMetrics p config w = (Resolved m, w') ->
  project m = p
  /\ positions m = []
  /\ targetPoolPrice m <> 0
  /\ 0 <= currentPoolPrice m
  /\ (exists d, calculateDeviation (currentPoolPrice m) (targetPoolPrice m) = Resolved d
                 /\ deviationBps m = dev_deviationBps d
                 /\ direction m = dev_direction d)
  /\ (poolAddress m = None -> currentPoolPrice m = 0 /\ poolLiquidity m = 0)
  /\ (forall a, poolAddress m = Some a -> poolExists a = true)
  /\ (0 < targetPoolPrice m ->
      (shouldRebalance m = true <->
       DEFAULT_DEVIATION_THRESHOLD_BPS * targetPoolPrice m
         <= Z.abs (currentPoolPrice m - targetPoolPrice m) * 10000)).
Proof.
  unfold fetchProjectMetrics. intros Hrun. do 3 run_inv Hrun.
  unfold BigNumber.isZero in Hrun. destruct (Z.eqb_spec v0 0) as [|Hnz]; [run_inv Hrun|].
  do 2 run_inv Hrun. run_inv Hrun.
  cbn [project positions targetPoolPrice currentPoolPrice deviationBps direction
       poolAddress poolLiquidity].
  apply liftOutcome_resolved in Hrun4 as [Hd ->].
  assert (0 <= fst v2 /\ (poolExists v1 = false -> v2 = (0, 0))) as [Hnonneg Hnopool].
  { destruct (poolExists v1).
    - do 3 run_inv Hrun3. run_inv Hrun3. cbn [fst]. split; [|discriminate].
      match goal with
      | Hp : liftOutcome (computePoolPrice ?s) _ = (Resolved ?c, _) |- 0 <= ?c =>
          apply liftOutcome_resolved in Hp as [Hp _];
          rewrite computePoolPrice_value in Hp; injection Hp as <-;
          apply Z.div_pos; [nia|lia]
      end.
    - run_inv Hrun3. cbn [fst]. split; [lia|reflexivity]. }
  split; [reflexivity|]. split; [reflexivity|]. split; [exact Hnz|].
  split; [exact Hnonneg|]. split; [exists v3; auto|].
  split; [|split].
  - destruct (poolExists v1) eqn:Hex; [discriminate|]. intros _.
    rewrite (Hnopool eq_refl). auto.
  - destruct (poolExists v1) eqn:Hex; [|discriminate]. now intros a [= <-].
  - intros Hpos.
    destruct (calculateDeviation_level (fst v2) v0 Hpos) as (d & Hd' & Hk).
    rewrite Hd in Hd'. injection Hd' as <-.
    rewrite shouldRebalance_iff. cbn [direction deviationBps].
    rewrite (Hk DEFAULT_DEVIATION_THRESHOLD_BPS). split; [tauto|]. intros Hle.
    split; [|exact Hle]. intros Hnone.
    unfold calculateDeviation, BigNumber.isZero, BigNumber.eq in Hd.
    destruct (Z.eqb_spec v0 0); [lia|].
    destruct (Z.eqb_spec (fst v2) v0) as [Heq|Hne].
    + rewrite Heq, Z.sub_diag in Hle. unfold DEFAULT_DEVIATION_THRESHOLD_BPS in Hle.
      simpl in Hle. lia.
    + unfold obind in Hd.
      match type of Hd with
      | context [BigNumber.div ?a ?b] => destruct (BigNumber.div a b); [|discriminate Hd]
      end.
      injection Hd as <-. cbn [dev_direction] in Hnone.
      destruct (BigNumber.gt (fst v2) v0); discriminate Hnone.
Qed.
End DiscoveryFacts.

Lemma discoverProjects_wellformed_witness :
  NoDup (projectAddress <$> sampleProjects)
  /\ Forall (fun p => projectAddress p <> "" /\ tokenAddress p <> "") sampleProjects.
Proof.
  assert (discoverProjects sampleRegistry sampleRegistryWorld
          = (Resolved sampleProjects,
             snd (discoverProjects sampleRegistry sampleRegistryWorld))) as Hrun
    by (vm_compute; reflexivity).
  destruct (discoverProjects_wellformed _ _ _ _ Hrun) as (Hnd & _ & Htruthy & _).
  split; assumption.
Defined.

Lemma fetchProjectMetrics_consistent_witness :
  targetPoolPrice (sampleFetched sampleIncreaseWorld) <> 0
  /\ shouldRebalance (sampleFetched sampleIncreaseWorld) = true.
Proof.
  assert (fetchProjectMetrics sampleInfo sampleConfig sampleIncreaseWorld
          = (Resolved (sampleFetched sampleIncreaseWorld),
             snd (fetchProjectMetrics sampleInfo sampleConfig sampleIncreaseWorld))) as Hrun
    by (vm_compute; reflexivity).
  destruct (fetchProjectMetrics_consistent _ _ _ _ _ Hrun)
    as (_ & _ & Hnz & _ & _ & _ & _ & Hgate).
  split; [exact Hnz|]. apply Hgate; vm_compute; [reflexivity|discriminate].
Defined.

(** X8: a project for which the factory reports no pool (an empty or the
    zero address) and whose target price is positive is measured as
    price 0, exactly 10000 bps below target, direction increase, and is
    therefore always eligible for rebalancing. *)
Theorem fetchProjectMetrics_no_pool {W : Type} `{Chain W}
    (p : ProjectInfo) (config : NetworkConfig) (w : W) (m : ProjectMetrics) (w' : W) :
  fetchProjectMetrics p config w = (Resolved m, w') ->
  poolAddress m = None ->
  0 < targetPoolPrice m ->
  currentPoolPrice m = 0
  /\ poolLiquidity m = 0
  /\ direction m = increase
  /\ deviationBps m = 10000
  /\ shouldRebalance m = true.
Proof.
  unfold fetchProjectMetrics. intros Hrun. do 3 run_inv Hrun.
  destruct (BigNumber.isZero v0); [run_inv Hrun|].
  do 2 run_inv Hrun. run_inv Hrun.
  apply liftOutcome_resolved in Hrun4 as [Hd ->].
  cbn [poolAddress targetPoolPrice currentPoolPrice poolLiquidity direction deviationBps].
  destruct (poolExists v1); [discriminate|]. intros _ Hpos.
  run_inv Hrun3. cbn [fst snd] in *.
  rewrite calculateDeviation_nonzero in Hd by lia. injection Hd as <-.
  cbn [dev_direction dev_deviationBps].
  assert (Z.abs (0 - v0) * 10000 ÷ v0 = 10000) as Hbps.
  { rewrite Z.quot_div_nonneg by lia.
    replace (Z.abs (0 - v0) * 10000) with (10000 * v0) by lia.
    apply Z.div_mul. lia. }
  assert ((v0 <? 0) = false) as Hlt by lia.
  assert ((0 <? v0) = true) as Hgt by lia.
  unfold shouldRebalance. cbn [direction deviationBps].
  rewrite Hlt, Hgt, Hbps. repeat split.
Qed.

Lemma fetchProjectMetrics_no_pool_witness :
  direction (sampleFetched sampleNoPoolWorld) = increase
  /\ deviationBps (sampleFetched sampleNoPoolWorld) = 10000.
Proof.
  assert (fetchProjectMetrics sampleInfo sampleConfig sampleNoPoolWorld
          = (Resolved (sampleFetched sampleNoPoolWorld),
             snd (fetchProjectMetrics sampleInfo sampleConfig sampleNoPoolWorld))) as Hrun
    by (vm_compute; reflexivity).
  destruct (fetchProjectMetrics_no_pool _ _ _ _ _ Hrun) as (_ & _ & Hdir & Hbps & _).
  - vm_compute. reflexivity.
  - vm_compute. reflexivity.
  - split; assumption.
Defined.

(** ** Owned positions *)

Section OwnedFacts.
Context {W : Type} `{Chain W}.

Lemma ownedLoop_reads (config : NetworkConfig) (owner : string) (remaining : nat) :
  forall index acc w ps w',
    ownedLoop config owner remaining index acc w = (Resolved ps, w') ->
    exists added,
      ps = acc ++ added
      /\ length added = remaining
      /\ forall (i : nat) position,
           added !! i = Some position ->
           exists id data (wa wb wc : W),
             withRpcRetry (tokenOfOwnerByIndex (positionManager config) owner
                             (index + Z.of_nat i)) wa = (Resolved id, wb)
             /\ withRpcRetry (positionsOf (positionManager config) id) wb
                = (Resolved data, wc)
             /\ tokenId position = BigNumber.toString id
             /\ liquidity position = pd_liquidity data
             /\ token0 position = pd_token0 data
             /\ token1 position = pd_token1 data.
Proof.
  induction remaining as [|n IH]; intros index acc w ps w' Hrun;
    cbn [ownedLoop] in Hrun.
  - run_inv Hrun. exists []. rewrite app_nil_r. repeat split. intros i p Hi.
    rewrite lookup_nil in Hi. discriminate.
  - apply bind_resolved in Hrun as (id0 & w1 & Hid0 & Hrun).
    apply bind_resolved in Hrun as (data0 & w2 & Hdata0 & Hrun).
    destruct (IH _ _ _ _ _ Hrun) as (added & -> & Hlen & Hreads).
    eexists (_ :: added). split; [rewrite <- app_assoc; reflexivity|].
    split; [simpl; now rewrite Hlen|].
    intros [|i] position Hi.
    + injection Hi as <-. exists id0, data0, w, w1, w2. rewrite Z.add_0_r.
      repeat split; assumption.
    + cbn in Hi. destruct (Hreads i position Hi) as (id & data & wa & wb & wc & Hid & Hrest).
      exists id, data, wa, wb, wc. split; [|exact Hrest].
      replace (index + Z.of_nat (S i)) with (index + 1 + Z.of_nat i) by lia. exact Hid.
Qed.

(** X9: [fetchOwnedPositions] returns exactly as many positions as the
    position manager reports for the owner, a count below 2^53; the i-th
    position carries the token id read at index i and the data read for
    that id; and with a balance of zero nothing further is read. *)
Theorem fetchOwnedPositions_count (config : NetworkConfig) (owner : string)
    (w : W) (owned : list PositionInfo) (w' : W) :
  fetchOwnedPositions config owner w = (Resolved owned, w') ->
  exists balance w1,
    withRpcRetry (positionBalanceOf (positionManager config) owner) w
      = (Resolved balance, w1)
    /\ Z.abs balance < 2 ^ 53
    /\ length owned = Z.to_nat balance
    /\ (balance <= 0 -> owned = [] /\ w' = w1)
    /\ forall (i : nat) position,
         owned !! i = Some position ->
         exists id data (wa wb wc : W),
           withRpcRetry (tokenOfOwnerByIndex (positionManager config) owner
                           (Z.of_nat i)) wa = (Resolved id, wb)
           /\ withRpcRetry (positionsOf (positionManager config) id) wb
              = (Resolved data, wc)
           /\ tokenId position = BigNumber.toString id
           /\ liquidity position = pd_liquidity data
           /\ token0 position = pd_token0 data
           /\ token1 position = pd_token1 data.
Proof.
  unfold fetchOwnedPositions. intros Hrun.
  apply bind_resolved in Hrun as (balance & w1 & Hbal & Hrun).
  apply bind_resolved in Hrun as (count & w2 & Hnum & Hrun).
  apply liftOutcome_resolved in Hnum as [Hnum <-].
  unfold BigNumber.toNumber in Hnum.
  destruct (Z.ltb_spec (Z.abs balance) (2 ^ 53)) as [Hsmall|]; [|discriminate].
  injection Hnum as <-. exists balance, w1. split; [exact Hbal|]. split; [exact Hsmall|].
  split; [|split].
  - destruct (ownedLoop_reads _ _ _ _ _ _ _ _ Hrun) as (added & -> & Hlen & _).
    exact Hlen.
  - intros Hle. replace (Z.to_nat balance) with 0%nat in Hrun by lia.
    cbn [ownedLoop] in Hrun. run_inv Hrun. auto.
  - destruct (ownedLoop_reads _ _ _ _ _ _ _ _ Hrun) as (added & -> & _ & Hreads).
    exact Hreads.
Qed.

(** X10: a balance that does not fit 53 bits makes [fetchOwnedPositions]
    fail with a numeric fault before any position is read. *)
Theorem fetchOwnedPositions_overflow (config : NetworkConfig) (owner : string)
    (w : W) (balance : Z) (w1 : W) :
  withRpcRetry (positionBalanceOf (positionManager config) owner) w
    = (Resolved balance, w1) ->
  2 ^ 53 <= Z.abs balance ->
  fetchOwnedPositions config owner w = (Rejected (BigNumber.numericFault "overflow"), w1).
Proof.
  intros Hbal Hbig. unfold fetchOwnedPositions.
  rewrite (bind_step _ _ _ _ _ Hbal). unfold BigNumber.toNumber.
  destruct (Z.ltb_spec (Z.abs balance) (2 ^ 53)); [lia|]. reflexivity.
Qed.
End OwnedFacts.

Lemma fetchOwnedPositions_count_witness :
  length sampleOwned = 3%nat.
Proof.
  assert (fetchOwnedPositions sampleConfig samplePkp sampleIncreaseWorld
          = (Resolved sampleOwned, sampleIncreaseWorld)) as Hrun
    by (vm_compute; reflexivity).
  destruct (fetchOwnedPositions_count _ _ _ _ _ Hrun)
    as (balance & w1 & Hbal & _ & Hlen & _).
  assert (balance = 3) as -> by (vm_compute in Hbal; congruence).
  exact Hlen.
Defined.

Lemma fetchOwnedPositions_overflow_witness :
  @fetchOwnedPositions Sim hugeBalanceChain sampleConfig samplePkp sampleIncreaseWorld
  = (Rejected (BigNumber.numericFault "overflow"), sampleIncreaseWorld).
Proof.
  apply (@fetchOwnedPositions_overflow Sim hugeBalanceChain sampleConfig samplePkp
           sampleIncreaseWorld (2 ^ 53) sampleIncreaseWorld).
  - vm_compute. reflexivity.
  - vm_compute. discriminate.
Defined.

(** ** The two entry points: failures *)

Section EntryFacts.
Context {W : Type} `{Chain W}.
Variable isAddress : string -> bool.

(** X11: neither entry point ever rejects: every run ends in a success or
    a failure result.  A failure of [precheck] is filed under
    INVALID_REGISTRY_ADDRESS, NAV_TARGET_ZERO or PROVIDER_ERROR, a failure
    of [execute] under INVALID_REGISTRY_ADDRESS or PROVIDER_ERROR; a
    success echoes the registry address and reports 0 backfilled
    positions. *)
Theorem entry_points_never_reject (abilityParams : AbilityParams)
    (delegation : option Delegation) (w : W) :
  (exists r,
      fst (precheck isAddress abilityParams delegation w) = Resolved r
      /\ match r with
         | PrecheckSucceed reg _ _ backfilled _ =>
             reg = registryAddress abilityParams /\ backfilled = 0
         | PrecheckFail reason _ =>
             reason = INVALID_REGISTRY_ADDRESS \/ reason = NAV_TARGET_ZERO
             \/ reason = PROVIDER_ERROR
         end)
  /\ (exists r,
        fst (execute isAddress abilityParams delegation w) = Resolved r
        /\ match r with
           | ExecuteSucceed reg _ backfilled _ =>
               reg = registryAddress abilityParams /\ backfilled = 0
           | ExecuteFail _ reason =>
               reason = INVALID_REGISTRY_ADDRESS \/ reason = PROVIDER_ERROR
           end).
Proof.
  split.
  - unfold precheck. destruct (negb (isAddress (registryAddress abilityParams))).
    + eexists. split; [reflexivity|]. now left.
    + unfold tryCatch.
      match goal with
      | |- context [bind ?m ?k w] => destruct (bind m k w) as [[r|e] w1] eqn:Hrun
      end.
      * exists r. split; [reflexivity|].
        do 2 run_inv Hrun. run_inv Hrun. auto.
      * eexists. split; [reflexivity|]. cbv beta iota.
        destruct e as [o|s]; [|auto].
        destruct (isError o && includes (message o) "Target pool price"); auto.
  - unfold execute, tryCatch.
    match goal with
    | |- context [(if ?c then ?a else ?b) w] =>
        destruct ((if c then a else b) w) as [[r|e] w1] eqn:Hrun
    end.
    + exists r. split; [reflexivity|].
      destruct (negb (isAddress (registryAddress abilityParams))); [run_inv Hrun|].
      run_inv Hrun.
      destruct delegation as [[ea pk]|]; cbn [publicKey ethAddress] in Hrun;
        [|run_inv Hrun].
      destruct pk as [pk|]; [|run_inv Hrun]. destruct ea as [ea|]; [|run_inv Hrun].
      destruct (negb (truthy (Some pk)) || negb (truthy (Some ea))); [run_inv Hrun|].
      do 2 run_inv Hrun. run_inv Hrun. auto.
    + eexists. split; [reflexivity|]. cbv beta iota.
      destruct e as [o|s]; [|auto].
      destruct (isError o && includes (message o) "registry address"); auto.
Qed.

Lemma includes_registry_address (registry : string) :
  includes ("Invalid registry address: " +:+ registry) "registry address" = true.
Proof. reflexivity. Qed.

(** X12: a registry address that [isAddress] refuses ends both entry
    points at once, with the same message and the category
    INVALID_REGISTRY_ADDRESS, before the chain is touched. *)
Theorem invalid_registry_short_circuit (abilityParams : AbilityParams)
    (delegation : option Delegation) (w : W) :
  isAddress (registryAddress abilityParams) = false ->
  precheck isAddress abilityParams delegation w
    = (Resolved (PrecheckFail INVALID_REGISTRY_ADDRESS
                   ("Invalid registry address: " +:+ registryAddress abilityParams)), w)
  /\ execute isAddress abilityParams delegation w
     = (Resolved (ExecuteFail
                    ("Invalid registry address: " +:+ registryAddress abilityParams)
                    INVALID_REGISTRY_ADDRESS), w).
Proof.
  intros Haddr. unfold precheck, execute, tryCatch. rewrite Haddr. cbn [negb].
  split; [reflexivity|]. unfold throw, ret, newError. cbn [isError message errorText].
  now rewrite includes_registry_address.
Qed.

(** X13: once the registry has been evaluated, a delegation context
    without PKP public key or address makes [execute] fail (category
    PROVIDER_ERROR) before any position is read, whereas [precheck]
    without a PKP address succeeds, tracking no position and summarising
    every project with no position attached. *)
Theorem missing_delegation (abilityParams : AbilityParams)
    (delegation : option Delegation) (w : W)
    (config : NetworkConfig) (metrics : list ProjectMetrics) (w1 : W) :
  isAddress (registryAddress abilityParams) = true ->
  evaluateRegistry abilityParams w = (Resolved (config, metrics), w1) ->
  (missingPkp delegation = true ->
   execute isAddress abilityParams delegation w
     = (Resolved (ExecuteFail "Delegation context missing PKP information"
                              PROVIDER_ERROR), w1))
  /\ (missingAddress delegation = true ->
      precheck isAddress abilityParams delegation w
        = (Resolved (PrecheckSucceed (registryAddress abilityParams)
                       (Z.of_nat (length metrics)) 0 0
                       (map summarizeMetric metrics)), w1)
      /\ Forall (fun s => positionCount s = 0 /\ positionTokenIds s = [])
                (map summarizeMetric metrics)).
Proof.
  intros Haddr Heval. split.
  - intros Hmissing. unfold execute, tryCatch. rewrite Haddr. cbn [negb].
    rewrite (bind_step _ _ _ _ _ Heval).
    destruct delegation as [[ea pk]|]; cbn [missingPkp publicKey ethAddress] in *;
      [|reflexivity].
    destruct pk as [pk|]; [|reflexivity]. destruct ea as [ea|]; [|reflexivity].
    rewrite Hmissing. reflexivity.
  - intros Hmissing. split.
    + unfold precheck, tryCatch. rewrite Haddr. cbn [negb].
      rewrite (bind_step _ _ _ _ _ Heval).
      destruct delegation as [[ea pk]|]; cbn [missingAddress ethAddress] in *;
        [|reflexivity].
      destruct ea as [ea|]; [|reflexivity].
      apply negb_true_iff in Hmissing. rewrite Hmissing. reflexivity.
    + apply evaluateRegistry_resolved in Heval as [_ Hfresh].
      apply Forall_map. eapply Forall_impl; [exact Hfresh|].
      intros m Hm. unfold summarizeMetric. cbn [positionCount positionTokenIds].
      rewrite Hm. auto.
Qed.
End EntryFacts.

Lemma invalid_registry_short_circuit_witness :
  fst (execute (fun _ => false) sampleParams sampleDelegation sampleIncreaseWorld)
  = Resolved (ExecuteFail ("Invalid registry address: " +:+ sampleRegistry)
                          INVALID_REGISTRY_ADDRESS).
Proof.
  destruct (invalid_registry_short_circuit (fun _ => false) sampleParams sampleDelegation
              sampleIncreaseWorld eq_refl) as [_ ->].
  reflexivity.
Defined.

Lemma missing_delegation_witness :
  executeReason
    (match fst (execute (fun _ => true) sampleParams None sampleIncreaseWorld) with
     | Resolved r => r
     | Rejected _ => ExecuteFail "" POLICY_ERROR
     end) = Some PROVIDER_ERROR
  /\ precheckReason
       (match fst (precheck (fun _ => true) sampleParams None sampleIncreaseWorld) with
        | Resolved r => r
        | Rejected _ => PrecheckFail POLICY_ERROR ""
        end) = None.
Proof.
  assert (evaluateRegistry sampleParams sampleIncreaseWorld
          = (Resolved (fst sampleEvaluated, snd sampleEvaluated),
             snd (evaluateRegistry sampleParams sampleIncreaseWorld))) as Heval
    by (vm_compute; reflexivity).
  destruct (missing_delegation (fun _ => true) sampleParams None sampleIncreaseWorld
              _ _ _ eq_refl Heval) as [Hexec Hpre].
  rewrite (Hexec eq_refl). rewrite (proj1 (Hpre eq_refl)). split; reflexivity.
Defined.

(** ** What the evaluation leaves alone *)

Lemma preserves_ret {W X A} (obs : W -> X) (a : A) : preserves obs (ret a).
Proof. intros w. reflexivity. Qed.

Lemma preserves_throw {W X A} (obs : W -> X) (e : thrown) :
  preserves obs (@throw W A e).
Proof. intros w. reflexivity. Qed.

Lemma preserves_liftOutcome {W X A} (obs : W -> X) (r : outcome A) :
  preserves obs (@liftOutcome W A r).
Proof. intros w. reflexivity. Qed.

Lemma preserves_bind {W X A B} (obs : W -> X) (m : M W A) (k : A -> M W B) :
  preserves obs m -> (forall a, preserves obs (k a)) -> preserves obs (bind m k).
Proof.
  intros Hm Hk w. unfold bind. specialize (Hm w).
  destruct (m w) as [[a|e] w1]; cbn [snd] in *; [|exact Hm].
  now rewrite Hk.
Qed.

Lemma preserves_tryCatch {W X A} (obs : W -> X) (m : M W A) (h : thrown -> M W A) :
  preserves obs m -> (forall e, preserves obs (h e)) -> preserves obs (tryCatch m h).
Proof.
  intros Hm Hh w. unfold tryCatch. specialize (Hm w).
  destruct (m w) as [[a|e] w1]; cbn [snd] in *; [exact Hm|].
  now rewrite Hh.
Qed.

Lemma preserves_retryLoop {W X T} `{Timer W} (obs : W -> X) (operation : M W T) :
  (forall ms, preserves obs (delay ms)) ->
  preserves obs operation ->
  forall (n : nat) attempt lastError,
    (Z.to_nat (RPC_MAX_RETRIES - attempt) <= n)%nat ->
    preserves obs (retryLoop operation attempt lastError).
Proof.
  intros Hdelay Hop. induction n as [|n IH]; intros attempt lastError Hn;
    rewrite retryLoop_step; destruct (Z_lt_dec attempt RPC_MAX_RETRIES) as [Hlt|Hge];
    try apply preserves_throw; [lia|].
  apply preserves_tryCatch; [exact Hop|]. intros e.
  destruct (negb (isRetryableRpcError e) || (attempt + 1 =? RPC_MAX_RETRIES));
    [apply preserves_throw|].
  apply preserves_bind; [apply Hdelay|]. intros _. apply IH. lia.
Qed.

Lemma preserves_withRpcRetry {W X T} `{Timer W} (obs : W -> X) (operation : M W T) :
  (forall ms, preserves obs (delay ms)) ->
  preserves obs operation ->
  preserves obs (withRpcRetry operation).
Proof.
  intros Hdelay Hop. unfold withRpcRetry.
  eapply preserves_retryLoop; [exact Hdelay|exact Hop|reflexivity].
Qed.

Section ReadOnly.
Context {W X : Type} `{Chain W}.
Variable obs : W -> X.
Hypothesis Hreads : readsPreserve obs.

Ltac frame :=
  repeat first
    [ apply preserves_ret
    | apply preserves_throw
    | apply preserves_liftOutcome
    | apply preserves_withRpcRetry; [apply Hreads|]
    | apply preserves_bind; [|intros ?]
    | apply preserves_tryCatch; [|intros ?]
    | apply Hreads ].

Lemma preserves_discoverNetworkConfig provider rpcUrl :
  preserves obs (discoverNetworkConfig provider rpcUrl).
Proof.
  unfold discoverNetworkConfig. apply preserves_tryCatch.
  - apply preserves_bind; [apply Hreads|]. intros chainId.
    destruct (NETWORK_CONFIG chainId); frame.
  - intros e. destruct (inferChainIdFromRpc rpcUrl) as [c|]; [|frame].
    destruct (NETWORK_CONFIG c); frame.
Qed.

Lemma preserves_scanLoop registry total :
  forall (n : nat) currentEndBlock events seen,
    (Z.to_nat (currentEndBlock + 1) <= n)%nat ->
    preserves obs (scanLoop registry total currentEndBlock events seen).
Proof.
  induction n as [|n IH]; intros currentEndBlock events seen Hn;
    rewrite scanLoop_step;
    destruct (Sumbool.sumbool_of_bool
                ((0 <=? currentEndBlock) && (Z.of_nat (size seen) <? total)))
      as [Hgo|Hstop]; try apply preserves_ret.
  - apply andb_prop in Hgo as [Hge _]. apply Z.leb_le in Hge. lia.
  - apply andb_prop in Hgo as [Hge _]. apply Z.leb_le in Hge.
    cbv zeta. apply preserves_bind.
    + apply preserves_withRpcRetry; apply Hreads.
    + intros batch. apply IH. unfold MAX_EVENT_BLOCK_SPAN. lia.
Qed.

Lemma preserves_fetchProjectCreationEvents registry :
  preserves obs (fetchProjectCreationEvents registry).
Proof.
  unfold fetchProjectCreationEvents.
  apply preserves_bind; [apply preserves_withRpcRetry; apply Hreads|]. intros latest.
  apply preserves_bind; [apply preserves_withRpcRetry; apply Hreads|]. intros count.
  apply preserves_bind; [apply preserves_liftOutcome|]. intros total.
  destruct (total =? 0); [apply preserves_ret|].
  apply preserves_bind; [|intros; apply preserves_ret].
  eapply preserves_scanLoop. reflexivity.
Qed.

Lemma preserves_discoverLoop events :
  forall projectsMap, preserves obs (discoverLoop events projectsMap).
Proof.
  induction events as [|event rest IH]; intros pm; cbn [discoverLoop];
    [apply preserves_ret|].
  destruct (eventProject event) as [pa|]; [|apply IH].
  destruct (eventToken event) as [ta|]; [|apply IH].
  destruct (negb (truthy (Some pa)) || negb (truthy (Some ta))); [apply IH|].
  destruct (projectsMapHas pm pa); [apply IH|].
  apply preserves_bind; [apply preserves_withRpcRetry; apply Hreads|].
  intros stable. apply IH.
Qed.

Lemma preserves_fetchProjectMetrics project config :
  preserves obs (fetchProjectMetrics project config).
Proof.
  unfold fetchProjectMetrics.
  apply preserves_bind; [apply preserves_withRpcRetry; apply Hreads|]. intros nav.
  apply preserves_bind; [apply preserves_withRpcRetry; apply Hreads|]. intros target.
  apply preserves_bind; [apply preserves_withRpcRetry; apply Hreads|]. intros pool.
  destruct (BigNumber.isZero target); [apply preserves_throw|].
  apply preserves_bind.
  - destruct (poolExists pool); [|apply preserves_ret].
    apply preserves_bind; [apply preserves_withRpcRetry; apply Hreads|]. intros s.
    apply preserves_bind; [apply preserves_liftOutcome|]. intros price.
    apply preserves_bind; [apply preserves_withRpcRetry; apply Hreads|]. intros l.
    apply preserves_ret.
  - intros pl. apply preserves_bind; [apply preserves_liftOutcome|]. intros d.
    apply preserves_ret.
Qed.

Lemma preserves_fetchAllMetrics projects config :
  preserves obs (fetchAllMetrics projects config).
Proof.
  induction projects as [|p rest IH]; cbn [fetchAllMetrics]; [apply preserves_ret|].
  apply preserves_bind; [apply preserves_fetchProjectMetrics|]. intros m.
  apply preserves_bind; [exact IH|]. intros ms. apply preserves_ret.
Qed.

Lemma preserves_ownedLoop config owner remaining :
  forall index acc, preserves obs (ownedLoop config owner remaining index acc).
Proof.
  induction remaining as [|n IH]; intros index acc; cbn [ownedLoop];
    [apply preserves_ret|].
  apply preserves_bind; [apply preserves_withRpcRetry; apply Hreads|]. intros id.
  apply preserves_bind; [apply preserves_withRpcRetry; apply Hreads|]. intros data.
  apply IH.
Qed.

Lemma preserves_fetchOwnedPositions config owner :
  preserves obs (fetchOwnedPositions config owner).
Proof.
  unfold fetchOwnedPositions.
  apply preserves_bind; [apply preserves_withRpcRetry; apply Hreads|]. intros balance.
  apply preserves_bind; [apply preserves_liftOutcome|]. intros count.
  apply preserves_ownedLoop.
Qed.

Lemma preserves_evaluateRegistry abilityParams :
  preserves obs (evaluateRegistry abilityParams).
Proof.
  unfold evaluateRegistry.
  apply preserves_bind; [apply preserves_discoverNetworkConfig|]. intros config.
  apply preserves_bind.
  - unfold discoverProjects.
    apply preserves_bind; [apply preserves_fetchProjectCreationEvents|].
    intros events. apply preserves_discoverLoop.
  - intros projects.
    apply preserves_bind; [apply preserves_fetchAllMetrics|]. intros ms.
    apply preserves_ret.
Qed.

(** X14: [precheck] is read-only: whatever the chain answers and whether
    the run succeeds or fails, anything about the world that the read
    operations and the retry delays leave unchanged is unchanged by the
    whole run; [contractCall] is never reached. *)
Theorem precheck_read_only (isAddress : string -> bool)
    (abilityParams : AbilityParams) (delegation : option Delegation) (w : W) :
  obs (snd (precheck isAddress abilityParams delegation w)) = obs w.
Proof.
  revert w. change (preserves obs (precheck isAddress abilityParams delegation)).
  unfold precheck.
  destruct (negb (isAddress (registryAddress abilityParams))); [apply preserves_ret|].
  apply preserves_tryCatch; [|intros e; apply preserves_ret].
  apply preserves_bind; [apply preserves_evaluateRegistry|]. intros evaluated.
  apply preserves_bind; [|intros owned; apply preserves_ret].
  destruct delegation as [[ea pk]|]; cbn [ethAddress]; [|apply preserves_ret].
  destruct ea as [ea|]; [|apply preserves_ret].
  destruct (truthy (Some ea)); [apply preserves_fetchOwnedPositions|apply preserves_ret].
Qed.
End ReadOnly.

Lemma readsPreserve_sim_sent : readsPreserve sim_sent.
Proof.
  unfold readsPreserve, preserves. repeat split; intros; try reflexivity.
  - cbn. destruct (staticNetwork provider) as [[c n]|]; reflexivity.
  - cbn. destruct (nth_error (sim_owned w) (Z.to_nat index)) as [[i d]|]; reflexivity.
  - cbn. destruct (List.find (fun p => fst p =? id) (sim_owned w)) as [[i d]|];
      reflexivity.
Qed.

Lemma precheck_read_only_witness :
  sim_sent (snd (precheck (fun _ => true) sampleParams sampleDelegation
                   sampleIncreaseWorld)) = [].
Proof.
  exact (precheck_read_only sim_sent readsPreserve_sim_sent (fun _ => true)
           sampleParams sampleDelegation sampleIncreaseWorld).
Defined.

(** ** Increase path *)

Lemma approveIfNeeded_sim (config : NetworkConfig) (pkpPublicKey pkpAddress : string)
    (addr : string) (position : PositionInfo) (token label : string)
    (balance allowance : Z) (acts : list ActionRecord) (w : Sim) :
  exists recorded w',
    approveIfNeeded config pkpPublicKey pkpAddress addr position token label
                    balance allowance acts w = (Resolved (acts ++ recorded), w')
    /\ sim_sent w' = sim_sent w
                     ++ approvalRequests config pkpPublicKey pkpAddress token
                                         balance allowance
    /\ length recorded
       = length (approvalRequests config pkpPublicKey pkpAddress token balance allowance)
    /\ Forall (fun a => act_projectAddress a = addr
                        /\ act_tokenId a = Some (tokenId position)) recorded
    /\ sim_clock w' = sim_clock w.
Proof.
  unfold approveIfNeeded, approvalRequests, BigNumber.gt, BigNumber.lt.
  destruct ((0 <? balance) && (allowance <? balance)).
  - eexists [_], _. split; [reflexivity|]. cbn. repeat split.
    repeat constructor.
  - exists [], w. rewrite !app_nil_r. repeat split. constructor.
Qed.

(** X15: on the snapshot chain, the increase path skips a position when
    the wallet holds neither token; otherwise it dispatches, in this
    order, an approval of the exact token0 balance if that balance is
    positive and exceeds the allowance, the same for token1, and one
    increaseLiquidity call whose desired amounts are the two full wallet
    balances; the size of the position plays no part beyond being
    nonzero, and every dispatched call is recorded. *)
Theorem increase_sizing (config : NetworkConfig) (pkpPublicKey pkpAddress : string)
    (metric : ProjectMetrics) (addr : string) (acts : list ActionRecord)
    (position : PositionInfo) (w : Sim) :
  direction metric = increase ->
  liquidity position <> 0 ->
  let balance0 := sim_balance w (token0 position) pkpAddress in
  let balance1 := sim_balance w (token1 position) pkpAddress in
  let allowance0 := sim_allowance w (token0 position) pkpAddress (positionManager config) in
  let allowance1 := sim_allowance w (token1 position) pkpAddress (positionManager config) in
  let run := rebalancePosition config pkpPublicKey pkpAddress metric addr acts position w in
  (balance0 = 0 /\ balance1 = 0 -> run = (Resolved acts, w))
  /\ (~ (balance0 = 0 /\ balance1 = 0) ->
      let sent :=
        approvalRequests config pkpPublicKey pkpAddress (token0 position)
                         balance0 allowance0
        ++ approvalRequests config pkpPublicKey pkpAddress (token1 position)
                            balance1 allowance1
        ++ [increaseRequest config pkpPublicKey pkpAddress position
              (BigNumber.toString balance0) (BigNumber.toString balance1)
              (sim_clock w / 1000 + 900)] in
      sim_sent (snd run) = sim_sent w ++ sent
      /\ exists recorded,
           fst run = Resolved (acts ++ recorded)
           /\ length recorded = length sent
           /\ Forall (fun a => act_projectAddress a = addr
                               /\ act_tokenId a = Some (tokenId position)) recorded).
Proof.
  intros Hdir Hliq balance0 balance1 allowance0 allowance1 run.
  assert (run =
          if BigNumber.isZero balance0 && BigNumber.isZero balance1
          then (Resolved acts, w)
          else
            (actions <~ approveIfNeeded config pkpPublicKey pkpAddress addr position
                          (token0 position) "approveToken0" balance0 allowance0 acts ;;
             actions <~ approveIfNeeded config pkpPublicKey pkpAddress addr position
                          (token1 position) "approveToken1" balance1 allowance1 actions ;;
             deadlineAt <~ deadline ;;
             increaseTxHash <~ dispatch pkpPublicKey pkpAddress
               NONFUNGIBLE_POSITION_MANAGER_ABI
               (positionManager config) "increaseLiquidity"
               (IncreaseLiquidityArgs
                  (tokenId position)
                  (BigNumber.toString balance0) (BigNumber.toString balance1)
                  0 0 deadlineAt) ;;
             ret (actions ++
                    [{| act_projectAddress := addr;
                        act_tokenId := Some (tokenId position);
                        name := "increaseLiquidity";
                        txHash := increaseTxHash |}])) w) as Hrun.
  { subst run. unfold rebalancePosition, BigNumber.isZero at 1.
    destruct (Z.eqb_spec (liquidity position) 0) as [|_]; [contradiction|].
    unfold BigNumber.div. change (10000 =? 0) with false. cbv iota.
    unfold liftOutcome at 1. unfold bind at 1. rewrite Hdir.
    cbn [isDecrease]. rewrite andb_false_r.
    unfold bind at 1 2 3 4. cbn [erc20BalanceOf erc20Allowance simChain read].
    fold balance0 balance1.
    destruct (BigNumber.isZero balance0 && BigNumber.isZero balance1); reflexivity. }
  rewrite Hrun. clear Hrun run. unfold BigNumber.isZero.
  destruct (Z.eqb_spec balance0 0) as [Hz0|Hnz0];
    [destruct (Z.eqb_spec balance1 0) as [Hz1|Hnz1]|]; cbn [andb].
  1: split; [reflexivity|tauto].
  all: split; [tauto|intros _; cbv zeta].
  all: destruct (approveIfNeeded_sim config pkpPublicKey pkpAddress addr position
                   (token0 position) "approveToken0" balance0 allowance0 acts w)
         as (r0 & w0 & Hstep0 & Hsent0 & Hlen0 & Hall0 & Hclock0).
  all: rewrite (bind_step _ _ _ _ _ Hstep0).
  all: destruct (approveIfNeeded_sim config pkpPublicKey pkpAddress addr position
                   (token1 position) "approveToken1" balance1 allowance1 (acts ++ r0) w0)
         as (r1 & w1 & Hstep1 & Hsent1 & Hlen1 & Hall1 & Hclock1).
  all: rewrite (bind_step _ _ _ _ _ Hstep1).
  all: unfold deadline, dispatch, bind, ret; cbn [dateNow contractCall simChain read fst snd].
  all: split;
    [ cbn [sim_sent noteCall setTrace]; rewrite Hsent1, Hsent0, Hclock1, Hclock0;
      unfold increaseRequest; now rewrite <- !app_assoc
    | eexists (r0 ++ r1 ++ [_]); split; [now rewrite <- !app_assoc|];
      split; [rewrite !length_app, Hlen0, Hlen1; reflexivity|];
      repeat (apply Forall_app; split); try assumption; repeat constructor ].
Qed.

Lemma increase_sizing_witness :
  sim_sent (snd (rebalancePosition sampleConfig samplePublicKey samplePkp
                   (sampleMetric sampleProject 5000 increase [samplePosition "9" 3])
                   sampleProject [] (samplePosition "9" 3) sampleIncreaseWorld))
  = [approveRequest sampleConfig samplePublicKey samplePkp sampleStable "50";
     approveRequest sampleConfig samplePublicKey samplePkp sampleToken "50";
     increaseRequest sampleConfig samplePublicKey samplePkp (samplePosition "9" 3)
       "50" "50" 1700000900].
Proof.
  destruct (increase_sizing sampleConfig samplePublicKey samplePkp
              (sampleMetric sampleProject 5000 increase [samplePosition "9" 3])
              sampleProject [] (samplePosition "9" 3) sampleIncreaseWorld eq_refl)
    as [_ Hsent].
  - vm_compute. discriminate.
  - destruct Hsent as [-> _].
    + vm_compute. intros [Hz _]. discriminate Hz.
    + vm_compute. reflexivity.
Defined.

(** ** Accounting of positions and actions *)

Lemma total_alter_push (p : PositionInfo) (ms : list ProjectMetrics) (i : nat) :
  (i < length ms)%nat ->
  sum_list_with (fun m => length (positions m)) (alter (pushPosition p) i ms)
  = S (sum_list_with (fun m => length (positions m)) ms).
Proof.
  revert i. induction ms as [|m ms IH]; intros i Hi; [simpl in Hi; lia|].
  destruct i as [|i]; cbn [alter list_alter sum_list_with].
  - cbn [pushPosition positions]. rewrite length_app. simpl. lia.
  - change (list_alter (pushPosition p) i ms) with (alter (pushPosition p) i ms).
    rewrite IH by (simpl in Hi; lia). lia.
Qed.

Lemma attach_fold_total (pairs : gmap string nat) (ps : list PositionInfo) :
  forall ms,
    (forall key i, pairs !! key = Some i -> (i < length ms)%nat) ->
    sum_list_with (fun m => length (positions m)) (fold_left (attachPosition pairs) ps ms)
    = (sum_list_with (fun m => length (positions m)) ms
       + length (filter (fun p => is_Some (pairs !! positionKey p)) ps))%nat.
Proof.
  induction ps as [|p ps IH]; intros ms Hvalid; cbn [fold_left].
  - rewrite filter_nil. simpl. lia.
  - rewrite IH.
    + unfold attachPosition. destruct (pairs !! positionKey p) as [i|] eqn:Hi.
      * rewrite filter_cons_True by (rewrite Hi; eauto).
        rewrite total_alter_push by eauto. simpl. lia.
      * rewrite filter_cons_False by (rewrite Hi; intros [? ?]; discriminate).
        reflexivity.
    + intros key i Hkey. unfold attachPosition.
      destruct (pairs !! positionKey p); [rewrite length_alter|]; eauto.
Qed.

Lemma indexTokenPairs_is_Some (metrics : list ProjectMetrics) (key : string) :
  is_Some (indexTokenPairs metrics 0 ∅ !! key)
  <-> Exists (fun m => metricKey m = key) metrics.
Proof.
  rewrite indexTokenPairs_lookup.
  destruct (lastKeyIndex key metrics) as [j|] eqn:Hlast.
  - split; [intros _|eauto].
    destruct (lastKeyIndex_Some _ _ _ Hlast) as [(m & Hm & Hk) _].
    apply Exists_exists. exists m. split; [|exact Hk].
    eapply list_elem_of_lookup_2. exact Hm.
  - rewrite lookup_empty. split; [intros [? ?]; discriminate|].
    intros Hex. apply Exists_exists in Hex as (m & Hm & Hk).
    apply list_elem_of_lookup in Hm as [j Hj].
    exfalso. exact (lastKeyIndex_None _ _ Hlast j m Hj Hk).
Qed.

Lemma indexTokenPairs_valid (metrics : list ProjectMetrics) (key : string) (i : nat) :
  indexTokenPairs metrics 0 ∅ !! key = Some i -> (i < length metrics)%nat.
Proof.
  rewrite indexTokenPairs_lookup.
  destruct (lastKeyIndex key metrics) as [j|] eqn:Hlast.
  - intros [= <-]. destruct (lastKeyIndex_Some _ _ _ Hlast) as [(m & Hm & _) _].
    simpl. eapply lookup_lt_Some. exact Hm.
  - rewrite lookup_empty. discriminate.
Qed.

Lemma attach_total (metrics : list ProjectMetrics) (owned : list PositionInfo) :
  sum_list_with (fun m => length (positions m)) (attachPositionsToProjects metrics owned)
  = (sum_list_with (fun m => length (positions m)) metrics
     + length (filter (fun p => Exists (fun m => metricKey m = positionKey p) metrics)
                      owned))%nat.
Proof.
  unfold attachPositionsToProjects.
  rewrite attach_fold_total by apply indexTokenPairs_valid.
  f_equal. f_equal. apply list_filter_iff. intros p.
  apply indexTokenPairs_is_Some.
Qed.

(** X16: attaching positions neither loses nor duplicates: the number of
    metrics is unchanged, and the positions attached over all projects
    grow by exactly the number of owned positions whose token pair is the
    pair of some project; in particular by at most the number of owned
    positions. *)
Theorem attach_conservation (metrics : list ProjectMetrics) (owned : list PositionInfo) :
  let attached := attachPositionsToProjects metrics owned in
  let total := sum_list_with (fun m => length (positions m)) in
  length attached = length metrics
  /\ total attached
     = (total metrics
        + length (filter (fun p => Exists (fun m => metricKey m = positionKey p) metrics)
                         owned))%nat
  /\ (total attached <= total metrics + length owned)%nat.
Proof.
  cbv zeta. pose proof (attach_total metrics owned) as Htotal.
  split; [unfold attachPositionsToProjects; apply attach_length|]. split; [exact Htotal|].
  rewrite Htotal. pose proof (length_filter
    (fun p => Exists (fun m => metricKey m = positionKey p) metrics) owned). lia.
Qed.

Lemma positionCount_total (ms : list ProjectMetrics) :
  foldr Z.add 0 (positionCount <$> map summarizeMetric ms)
  = Z.of_nat (sum_list_with (fun m => length (positions m)) ms).
Proof.
  induction ms as [|m ms IH]; [reflexivity|].
  cbn [map fmap list_fmap foldr sum_list_with].
  change (list_fmap _ _ positionCount (map summarizeMetric ms))
    with (positionCount <$> map summarizeMetric ms).
  rewrite IH. unfold summarizeMetric at 1. cbn [positionCount]. lia.
Qed.

Section AccountingFacts.
Context {W : Type} `{Chain W}.
Variable isAddress : string -> bool.

Lemma precheck_succeed_inv abilityParams delegation w reg count tracked backfilled
    summaries w' :
  precheck isAddress abilityParams delegation w
    = (Resolved (PrecheckSucceed reg count tracked backfilled summaries), w') ->
  exists config metrics owned w1,
    evaluateRegistry abilityParams w = (Resolved (config, metrics), w1)
    /\ summaries = map summarizeMetric (attachPositionsToProjects metrics owned)
    /\ count = Z.of_nat (length (attachPositionsToProjects metrics owned))
    /\ tracked = Z.of_nat (length owned)
    /\ backfilled = 0
    /\ reg = registryAddress abilityParams.
Proof.
  unfold precheck. intros Hrun.
  destruct (negb (isAddress (registryAddress abilityParams))); [run_inv Hrun; discriminate|].
  apply tryCatch_resolved in Hrun as [Hrun|(e & w1 & _ & Hrun)];
    [|run_inv Hrun; discriminate].
  apply bind_resolved in Hrun as ([config metrics] & w1 & Heval & Hrun).
  apply bind_resolved in Hrun as (owned & w2 & _ & Hrun).
  apply ret_resolved in Hrun as [Hres _]. injection Hres as <- <- <- <- <-.
  exists config, metrics, owned, w1. cbn [fst snd]. auto 10.
Qed.

(** X17: in a successful [precheck], projectCount is the number of
    project summaries, no project address is summarised twice, each
    summary counts exactly the token ids it lists, and the position counts
    of all summaries add up to at most trackedPositions: an owned position
    is counted for at most one project. *)
Theorem precheck_accounting abilityParams delegation w reg count tracked backfilled
    summaries w' :
  precheck isAddress abilityParams delegation w
    = (Resolved (PrecheckSucceed reg count tracked backfilled summaries), w') ->
  count = Z.of_nat (length summaries)
  /\ NoDup (sum_projectAddress <$> summaries)
  /\ Forall (fun s => positionCount s = Z.of_nat (length (positionTokenIds s))) summaries
  /\ 0 <= foldr Z.add 0 (positionCount <$> summaries) <= tracked.
Proof.
  intros Hrun.
  apply precheck_succeed_inv in Hrun
    as (config & metrics & owned & w1 & Heval & -> & -> & -> & _ & _).
  apply evaluateRegistry_resolved in Heval as [Hnd Hfresh].
  pose proof (attach_total metrics owned) as Htotal.
  pose proof (length_filter
    (fun p => Exists (fun m => metricKey m = positionKey p) metrics) owned) as Hle.
  split; [now rewrite length_map|]. split; [|split].
  - rewrite <- attach_projects with (ps := owned) in Hnd.
    replace (sum_projectAddress <$> map summarizeMetric
               (attachPositionsToProjects metrics owned))
      with (projectAddress <$> (project <$> attachPositionsToProjects metrics owned));
      [exact Hnd|].
    generalize (attachPositionsToProjects metrics owned). intros l.
    induction l as [|m l IH]; [reflexivity|].
    cbn [map fmap list_fmap] in *. now rewrite IH.
  - apply Forall_map. apply Forall_forall. intros m _.
    unfold summarizeMetric. cbn [positionCount positionTokenIds].
    now rewrite length_map.
  - rewrite positionCount_total.
    assert (sum_list_with (fun m => length (positions m)) metrics = 0%nat) as Hzero.
    { clear -Hfresh. induction Hfresh as [|m ms Hm _ IH]; [reflexivity|].
      cbn [sum_list_with]. rewrite Hm, IH. reflexivity. }
    lia.
Qed.
End AccountingFacts.

Lemma precheck_accounting_witness :
  precheckCount samplePrecheck = 1
  /\ foldr Z.add 0 (positionCount <$> precheckProjects samplePrecheck)
     <= precheckTracked samplePrecheck.
Proof.
  assert (precheck (fun _ => true) sampleParams sampleDelegation sampleIncreaseWorld
          = (Resolved (PrecheckSucceed sampleRegistry
                         (precheckCount samplePrecheck) (precheckTracked samplePrecheck) 0
                         (precheckProjects samplePrecheck)),
             snd (precheck (fun _ => true) sampleParams sampleDelegation
                    sampleIncreaseWorld))) as Hrun
    by (vm_compute; reflexivity).
  destruct (precheck_accounting _ _ _ _ _ _ _ _ _ _ Hrun) as (Hcount & _ & _ & _ & Hle).
  split; [|exact Hle]. rewrite Hcount. vm_compute. reflexivity.
Defined.

Lemma actionsOf_nil (key : string) : actionsOf key [] = [].
Proof. reflexivity. Qed.

Lemma actionsOf_cons (key : string) (a : ActionRecord) (acts : list ActionRecord) :
  actionsOf key (a :: acts)
  = if decide (act_projectAddress a = key) then a :: actionsOf key acts
    else actionsOf key acts.
Proof.
  unfold actionsOf. destruct (decide (act_projectAddress a = key)) as [Heq|Hne].
  - now rewrite filter_cons_True.
  - now rewrite filter_cons_False.
Qed.

Lemma actionsOf_count_step (a : ActionRecord) (acts : list ActionRecord)
    (addrs : list string) :
  NoDup addrs ->
  sum_list_with (fun key => length (actionsOf key (a :: acts))) addrs
  = (sum_list_with (fun key => length (actionsOf key acts)) addrs
     + if decide (act_projectAddress a ∈ addrs) then 1 else 0)%nat.
Proof.
  induction 1 as [|key addrs Hnotin Hnd IH]; cbn [sum_list_with].
  - destruct (decide (act_projectAddress a ∈ [])) as [Hin|_]; [|reflexivity].
    inversion Hin.
  - rewrite IH, actionsOf_cons.
    destruct (decide (act_projectAddress a = key)) as [Heq|Hne].
    + destruct (decide (act_projectAddress a ∈ addrs)) as [Hin|_];
        [exfalso; apply Hnotin; now rewrite <- Heq|].
      destruct (decide (act_projectAddress a ∈ key :: addrs)) as [_|Hout];
        [simpl; lia|].
      exfalso. apply Hout. rewrite Heq. left.
    + destruct (decide (act_projectAddress a ∈ addrs)) as [Hin|Hout];
        destruct (decide (act_projectAddress a ∈ key :: addrs)) as [Hin'|Hout'];
        try lia.
      * exfalso. apply Hout'. now right.
      * exfalso. apply elem_of_cons in Hin' as [?|?]; contradiction.
Qed.

Lemma actionsOf_partition (acts : list ActionRecord) (addrs : list string) :
  NoDup addrs ->
  Forall (fun a => act_projectAddress a ∈ addrs) acts ->
  sum_list_with (fun key => length (actionsOf key acts)) addrs = length acts.
Proof.
  intros Hnd. induction 1 as [|a acts Ha _ IH].
  - clear Hnd. induction addrs as [|key addrs IH]; [reflexivity|].
    cbn [sum_list_with]. now rewrite IH.
  - rewrite actionsOf_count_step by exact Hnd. rewrite IH.
    destruct (decide (act_projectAddress a ∈ addrs)); [simpl; lia|contradiction].
Qed.

(** X18: in a successful [execute], totalActions is the sum of the action
    counts of the project reports: every recorded action is reported
    under exactly one project, the one whose address it carries, and no
    project is reported twice. *)
Theorem execute_accounting {W : Type} `{Chain W} (isAddress : string -> bool)
    abilityParams delegation (w : W) reg total backfilled reports w' :
  execute isAddress abilityParams delegation w
    = (Resolved (ExecuteSucceed reg total backfilled reports), w') ->
  total = Z.of_nat (sum_list_with (fun r => length (actions r)) reports)
  /\ NoDup ((fun r => sum_projectAddress (summary r)) <$> reports)
  /\ Forall (fun r => Forall (fun a => act_projectAddress a
                                       = sum_projectAddress (summary r)) (actions r))
            reports.
Proof.
  intros Hrun.
  apply execute_succeed_inv in Hrun
    as (config & metrics & owned & pk & addr & w1 & acts & Hnd & _ & Hrun & -> & ->).
  rewrite <- attach_projects with (ps := owned) in Hnd.
  apply rebalanceAll_shape, runBlocks_provenance in Hrun.
  revert Hnd Hrun. generalize (attachPositionsToProjects metrics owned). intros ms Hnd Hprov.
  assert ((fun r => sum_projectAddress (summary r)) <$> map (reportProject acts) ms
          = projectAddress <$> (project <$> ms)) as Haddrs.
  { clear. induction ms as [|m ms IH]; [reflexivity|].
    cbn [map fmap list_fmap] in *. now rewrite IH. }
  split; [|split].
  - f_equal.
    transitivity (sum_list_with (fun key => length (actionsOf key acts))
                    (projectAddress <$> (project <$> ms))).
    + symmetry. apply actionsOf_partition; [exact Hnd|].
      eapply Forall_impl; [exact Hprov|]. intros a (m & Hm & _ & Ha & _).
      rewrite Ha. apply list_elem_of_fmap. exists (project m). split; [reflexivity|].
      apply list_elem_of_fmap. exists m. split; [reflexivity|].
      now apply list_elem_of_In.
    + clear. induction ms as [|m ms IH]; [reflexivity|].
      cbn [map fmap list_fmap sum_list_with] in *. now rewrite IH.
  - now rewrite Haddrs.
  - apply Forall_map. apply Forall_forall. intros m _.
    unfold reportProject. cbn [summary actions summarizeMetric sum_projectAddress].
    unfold actionsOf. apply Forall_forall. intros a Ha.
    now apply list_elem_of_filter in Ha as [Ha _].
Qed.

Lemma execute_accounting_witness :
  executeTotal sampleExecute
  = Z.of_nat (sum_list_with (fun r => length (actions r)) (executeReports sampleExecute)).
Proof.
  assert (execute (fun _ => true) sampleParams sampleDelegation sampleIncreaseWorld
          = (Resolved (ExecuteSucceed sampleRegistry (executeTotal sampleExecute) 0
                         (executeReports sampleExecute)),
             snd (execute (fun _ => true) sampleParams sampleDelegation
                    sampleIncreaseWorld))) as Hrun
    by (vm_compute; reflexivity).
  exact (proj1 (execute_accounting _ _ _ _ _ _ _ _ _ Hrun)).
Defined.

(** ** The windows of the creation scan *)

Lemma scanLoop_windows (registry : string) (total : Z) :
  forall (n : nat) (currentEndBlock : Z) (events : list Event) (seen : gset string)
         (w : Sim),
    (Z.to_nat (currentEndBlock + 1) <= n)%nat ->
    exists windows,
      sim_queries (snd (scanLoop registry total currentEndBlock events seen w))
        = sim_queries w ++ windows
      /\ contiguousFrom currentEndBlock windows
      /\ Forall (fun q => 0 <= fst q <= snd q /\ snd q - fst q < MAX_EVENT_BLOCK_SPAN)
                windows
      /\ (length windows <= Z.to_nat ((currentEndBlock + 10) / 10))%nat
      /\ sim_sent (snd (scanLoop registry total currentEndBlock events seen w))
         = sim_sent w
      /\ sim_waited (snd (scanLoop registry total currentEndBlock events seen w))
         = sim_waited w.
Proof.
  induction n as [|n IH]; intros currentEndBlock events seen w Hn;
    rewrite scanLoop_step;
    destruct (Sumbool.sumbool_of_bool
                ((0 <=? currentEndBlock) && (Z.of_nat (size seen) <? total)))
      as [Hgo|Hstop].
  - apply andb_prop in Hgo as [Hge _]. apply Z.leb_le in Hge. lia.
  - exists []. rewrite app_nil_r. cbn. repeat split; [constructor|lia].
  - apply andb_prop in Hgo as [Hge _]. apply Z.leb_le in Hge. cbv zeta.
    set (currentStartBlock := Z.max 0 (currentEndBlock - MAX_EVENT_BLOCK_SPAN + 1)).
    assert (withRpcRetry (queryFilter registry currentStartBlock currentEndBlock) w
            = (Resolved (inWindow currentStartBlock currentEndBlock (sim_log w)),
               noteQuery currentStartBlock currentEndBlock w)) as Hquery
      by (apply withRpcRetry_resolved; reflexivity).
    rewrite (bind_step _ _ _ _ _ Hquery).
    match goal with
    | |- context [scanLoop registry total ?e ?ev ?s ?w'] =>
        destruct (IH e ev s w') as (windows & Hq & Hchain & Hall & Hlen & Hsent & Hwait)
    end.
    { subst currentStartBlock. unfold MAX_EVENT_BLOCK_SPAN. lia. }
    exists ((currentStartBlock, currentEndBlock) :: windows).
    rewrite Hq, Hsent, Hwait. cbn [sim_queries sim_sent sim_waited noteQuery setTrace].
    split; [now rewrite <- app_assoc|]. split; [|split; [|split]].
    + cbn [contiguousFrom]. auto.
    + constructor; [|exact Hall]. cbn [fst snd]. subst currentStartBlock.
      unfold MAX_EVENT_BLOCK_SPAN. lia.
    + cbn [length]. subst currentStartBlock. unfold MAX_EVENT_BLOCK_SPAN in *.
      destruct (Z.le_gt_cases 10 currentEndBlock) as [Hbig|Hsmall].
      * replace (Z.max 0 (currentEndBlock - 10 + 1) - 1 + 10) with currentEndBlock in Hlen
          by lia.
        replace (currentEndBlock + 10) with (currentEndBlock + 1 * 10) by lia.
        rewrite Z.div_add by lia.
        assert (0 <= currentEndBlock / 10) by (apply Z.div_pos; lia). lia.
      * replace (Z.max 0 (currentEndBlock - 10 + 1) - 1 + 10) with 9 in Hlen by lia.
        change (9 / 10) with 0 in Hlen.
        assert (1 <= (currentEndBlock + 10) / 10) by (apply Z.div_le_lower_bound; lia).
        simpl in Hlen. lia.
    + split; reflexivity.
  - exists []. rewrite app_nil_r. cbn. repeat split; [constructor|lia].
Qed.

(** X19: on the snapshot chain, the creation scan asks the registry for
    its logs in windows of at most 10 blocks, the first ending at the
    latest block and each next one ending right below the previous one,
    so no block is asked twice; it issues at most ceil((latest + 1) / 10)
    queries, none at all when the registry counts no project, and it
    neither waits nor dispatches. *)
Theorem creation_scan_windows (registry : string) (w : Sim) :
  let run := fetchProjectCreationEvents registry w in
  exists windows,
    sim_queries (snd run) = sim_queries w ++ windows
    /\ contiguousFrom (sim_latestBlock w) windows
    /\ Forall (fun q => 0 <= fst q <= snd q /\ snd q - fst q < MAX_EVENT_BLOCK_SPAN)
              windows
    /\ (length windows <= Z.to_nat ((sim_latestBlock w + 10) / 10))%nat
    /\ (sim_projectCount w = 0 -> windows = [])
    /\ sim_sent (snd run) = sim_sent w
    /\ sim_waited (snd run) = sim_waited w.
Proof.
  cbv zeta. remember (fetchProjectCreationEvents registry w) as run eqn:Hrun.
  unfold fetchProjectCreationEvents in Hrun.
  assert (withRpcRetry getBlockNumber w = (Resolved (sim_latestBlock w), w)) as Hlatest
    by (apply withRpcRetry_resolved; reflexivity).
  assert (withRpcRetry (projectCount registry) w = (Resolved (sim_projectCount w), w))
    as Hcount by (apply withRpcRetry_resolved; reflexivity).
  rewrite (bind_step _ _ _ _ _ Hlatest), (bind_step _ _ _ _ _ Hcount) in Hrun.
  unfold liftOutcome at 1, bind at 1 in Hrun.
  destruct (BigNumber.toNumber (sim_projectCount w)) as [total|e] eqn:Hnum.
  - unfold BigNumber.toNumber in Hnum.
    destruct (Z.abs (sim_projectCount w) <? 2 ^ 53); [|discriminate].
    injection Hnum as <-.
    destruct (Z.eqb_spec (sim_projectCount w) 0) as [Hzero|Hnz].
    + subst run. exists []. rewrite app_nil_r. cbn.
      repeat split; try constructor; try lia.
    + destruct (scanLoop_windows registry (sim_projectCount w)
                  (Z.to_nat (sim_latestBlock w + 1)) (sim_latestBlock w) [] ∅ w
                  (Nat.le_refl _))
        as (windows & Hq & Hchain & Hall & Hlen & Hsent & Hwait).
      exists windows. unfold bind in Hrun.
      destruct (scanLoop registry (sim_projectCount w) (sim_latestBlock w) [] ∅ w)
        as [[events|e] w1]; subst run; cbn [snd] in *; repeat split; try assumption;
        intros; contradiction.
  - subst run. exists []. rewrite app_nil_r. cbn.
    repeat split; try constructor; try lia.
Qed.

(** ** The positions-only variant *)

Section PositionsOnlyFacts.
Context {W : Type} `{Chain W}.
Variable isAddress : string -> bool.
Variable symbol : string -> M W string.

Lemma inspectPosition_resolves (position : PositionInfo) (w : W) :
  exists w', PositionsOnly.inspectPosition symbol tt position w = (Resolved tt, w').
Proof.
  unfold PositionsOnly.inspectPosition, tryCatch, bind.
  destruct (PositionsOnly.promiseAll2 _ _ w) as [[pair|e] w']; eauto.
Qed.

Lemma forEach_inspect_resolves (positions : list PositionInfo) :
  forall w, exists w',
    forEach (PositionsOnly.inspectPosition symbol) positions tt w = (Resolved tt, w').
Proof.
  induction positions as [|p ps IH]; intros w; cbn [forEach]; [eexists; reflexivity|].
  destruct (inspectPosition_resolves p w) as [w1 Hstep].
  rewrite (bind_step _ _ _ _ _ Hstep). apply IH.
Qed.

(** X20: the positions-only entry points never reject; a successful
    [execute] always reports 0 actions and no project, a successful
    [precheck] 0 projects; a failed [precheck] is filed under
    INVALID_REGISTRY_ADDRESS or PROVIDER_ERROR, and so is a failed
    [execute]. *)
Theorem positions_only_reports (abilityParams : AbilityParams)
    (delegation : option Delegation) (w : W) :
  (exists r,
      fst (PositionsOnly.precheck isAddress abilityParams delegation w) = Resolved r
      /\ match r with
         | PositionsOnly.PrecheckSucceed reg count tracked projects =>
             reg = registryAddress abilityParams /\ count = 0 /\ 0 <= tracked
             /\ projects = []
         | PositionsOnly.PrecheckFail reason _ =>
             reason = INVALID_REGISTRY_ADDRESS \/ reason = PROVIDER_ERROR
         end)
  /\ (exists r,
        fst (PositionsOnly.execute isAddress symbol abilityParams delegation w)
          = Resolved r
        /\ match r with
           | PositionsOnly.ExecuteSucceed reg total projects =>
               reg = registryAddress abilityParams /\ total = 0 /\ projects = []
           | PositionsOnly.ExecuteFail _ reason =>
               reason = INVALID_REGISTRY_ADDRESS \/ reason = PROVIDER_ERROR
           end).
Proof.
  split.
  - unfold PositionsOnly.precheck.
    destruct (negb (isAddress (registryAddress abilityParams))).
    + eexists. split; [reflexivity|]. now left.
    + unfold tryCatch. cbv zeta.
      match goal with
      | |- context [bind ?m ?k w] => destruct (bind m k w) as [[r|e] w1] eqn:Hrun
      end.
      * exists r. split; [reflexivity|]. run_inv Hrun.
        destruct delegation as [[ea pk]|]; cbn [ethAddress] in Hrun;
          [|run_inv Hrun; repeat split; lia].
        destruct ea as [ea|]; [|run_inv Hrun; repeat split; lia].
        destruct (negb (truthy (Some ea))); [run_inv Hrun; repeat split; lia|].
        run_inv Hrun. run_inv Hrun. repeat split. lia.
      * eexists. split; [reflexivity|]. now right.
  - unfold PositionsOnly.execute, tryCatch.
    match goal with
    | |- context [(if ?c then ?a else ?b) w] =>
        destruct ((if c then a else b) w) as [[r|e] w1] eqn:Hrun
    end.
    + exists r. split; [reflexivity|].
      destruct (negb (isAddress (registryAddress abilityParams))); [run_inv Hrun|].
      cbv zeta in Hrun. run_inv Hrun.
      destruct delegation as [[ea pk]|]; cbn [publicKey ethAddress] in Hrun;
        [|run_inv Hrun].
      destruct pk as [pk|]; [|run_inv Hrun]. destruct ea as [ea|]; [|run_inv Hrun].
      destruct (negb (truthy (Some pk)) || negb (truthy (Some ea))); [run_inv Hrun|].
      run_inv Hrun.
      destruct (length v0 =? 0)%nat; [run_inv Hrun; auto|].
      run_inv Hrun. run_inv Hrun. auto.
    + eexists. split; [reflexivity|]. cbv beta iota.
      destruct e as [o|s]; [|auto].
      destruct (isError o && includes (message o) "registry address"); auto.
Qed.

(** X21: in the positions-only variant, once the network is known and
    the positions of the PKP have been read, the outcome no longer
    depends on the symbol reads: [execute] succeeds whatever they answer
    and however they fail, and [precheck] reports exactly the number of
    positions read. *)
Theorem positions_only_symbols_swallowed (abilityParams : AbilityParams)
    (pkpAddress pkpPublicKey : string) (w w1 w2 : W)
    (config : NetworkConfig) (owned : list PositionInfo) :
  isAddress (registryAddress abilityParams) = true ->
  pkpAddress <> "" -> pkpPublicKey <> "" ->
  PositionsOnly.discoverNetworkConfig
    (createProvider (rpcUrl abilityParams)) (rpcUrl abilityParams) w
    = (Resolved config, w1) ->
  fetchOwnedPositions config pkpAddress w1 = (Resolved owned, w2) ->
  let delegation := Some (mkDelegation (Some pkpAddress) (Some pkpPublicKey)) in
  fst (PositionsOnly.execute isAddress symbol abilityParams delegation w)
    = Resolved (PositionsOnly.ExecuteSucceed (registryAddress abilityParams) 0 [])
  /\ PositionsOnly.precheck isAddress abilityParams delegation w
     = (Resolved (PositionsOnly.PrecheckSucceed (registryAddress abilityParams) 0
                    (Z.of_nat (length owned)) []), w2).
Proof.
  intros Haddr Hpa Hpk Hnet Howned delegation.
  assert (truthy (Some pkpAddress) = true) as Hta.
  { unfold truthy. apply negb_true_iff. now apply String.eqb_neq. }
  assert (truthy (Some pkpPublicKey) = true) as Htk.
  { unfold truthy. apply negb_true_iff. now apply String.eqb_neq. }
  split.
  - unfold PositionsOnly.execute, tryCatch. rewrite Haddr. cbn [negb]. cbv zeta.
    rewrite (bind_step _ _ _ _ _ Hnet). cbn [delegation publicKey ethAddress].
    rewrite Hta, Htk. cbn [negb orb]. rewrite (bind_step _ _ _ _ _ Howned).
    destruct (length owned =? 0)%nat; [reflexivity|].
    destruct (forEach_inspect_resolves owned w2) as [w3 Hloop].
    rewrite (bind_step _ _ _ _ _ Hloop). reflexivity.
  - unfold PositionsOnly.precheck, tryCatch. rewrite Haddr. cbn [negb]. cbv zeta.
    rewrite (bind_step _ _ _ _ _ Hnet). cbn [delegation ethAddress].
    rewrite Hta. cbn [negb]. rewrite (bind_step _ _ _ _ _ Howned). reflexivity.
Qed.
End PositionsOnlyFacts.

Lemma positions_only_symbols_swallowed_witness :
  fst (PositionsOnly.execute (fun _ => true) brokenSymbol sampleParams
         sampleDelegation sampleIncreaseWorld)
  = Resolved (PositionsOnly.ExecuteSucceed sampleRegistry 0 []).
Proof.
  refine (proj1 (positions_only_symbols_swallowed (fun _ => true) brokenSymbol
            sampleParams samplePkp samplePublicKey
            sampleIncreaseWorld sampleIncreaseWorld sampleIncreaseWorld
            sampleConfig sampleOwned eq_refl _ _ _ _)).
  - discriminate.
  - discriminate.
  - vm_compute. reflexivity.
  - vm_compute. reflexivity.
Defined.

Section PositionsOnlyReadOnly.
Context {W X : Type} `{Chain W}.
Variable obs : W -> X.
Variable symbol : string -> M W string.
Hypothesis Hreads : readsPreserve obs.
Hypothesis Hsymbol : forall token, preserves obs (symbol token).

Lemma preserves_promiseAll2 {A B} (a : M W A) (b : M W B) :
  preserves obs a -> preserves obs b -> preserves obs (PositionsOnly.promiseAll2 a b).
Proof.
  intros Ha Hb w. unfold PositionsOnly.promiseAll2. specialize (Ha w).
  destruct (a w) as [ra w1]. specialize (Hb w1). destruct (b w1) as [rb w2].
  cbn [snd] in *. congruence.
Qed.

Lemma preserves_positions_only_network provider rpcUrl :
  preserves obs (PositionsOnly.discoverNetworkConfig provider rpcUrl).
Proof.
  unfold PositionsOnly.discoverNetworkConfig. apply preserves_tryCatch.
  - apply preserves_bind; [apply Hreads|]. intros chainId.
    destruct (PositionsOnly.NETWORK_CONFIG chainId);
      [apply preserves_ret|apply preserves_throw].
  - intros e. destruct (inferChainIdFromRpc rpcUrl) as [c|]; [|apply preserves_throw].
    destruct (PositionsOnly.NETWORK_CONFIG c); [apply preserves_ret|apply preserves_throw].
Qed.

Lemma preserves_forEach_inspect (positions : list PositionInfo) :
  preserves obs (forEach (PositionsOnly.inspectPosition symbol) positions tt).
Proof.
  induction positions as [|p ps IH]; cbn [forEach]; [apply preserves_ret|].
  apply preserves_bind; [|intros []; exact IH].
  unfold PositionsOnly.inspectPosition.
  apply preserves_tryCatch; [|intros e; apply preserves_ret].
  apply preserves_bind; [|intros pair; apply preserves_ret].
  apply preserves_promiseAll2; apply preserves_withRpcRetry;
    solve [apply Hreads | apply Hsymbol].
Qed.

(** X22: the positions-only variant is read-only in both entry points:
    whatever the reads and the retry delays leave unchanged, a run of its
    [precheck] or of its [execute] leaves unchanged; it never dispatches
    a transaction. *)
Theorem positions_only_read_only (isAddress : string -> bool)
    (abilityParams : AbilityParams) (delegation : option Delegation) (w : W) :
  obs (snd (PositionsOnly.precheck isAddress abilityParams delegation w)) = obs w
  /\ obs (snd (PositionsOnly.execute isAddress symbol abilityParams delegation w)) = obs w.
Proof.
  split; revert w.
  - change (preserves obs (PositionsOnly.precheck isAddress abilityParams delegation)).
    unfold PositionsOnly.precheck.
    destruct (negb (isAddress (registryAddress abilityParams))); [apply preserves_ret|].
    apply preserves_tryCatch; [|intros e; apply preserves_ret]. cbv zeta.
    apply preserves_bind; [apply preserves_positions_only_network|]. intros config.
    destruct delegation as [[ea pk]|]; cbn [ethAddress]; [|apply preserves_ret].
    destruct ea as [ea|]; [|apply preserves_ret].
    destruct (negb (truthy (Some ea))); [apply preserves_ret|].
    apply preserves_bind; [now apply preserves_fetchOwnedPositions|].
    intros owned. apply preserves_ret.
  - change (preserves obs
              (PositionsOnly.execute isAddress symbol abilityParams delegation)).
    unfold PositionsOnly.execute.
    apply preserves_tryCatch; [|intros e; apply preserves_ret].
    destruct (negb (isAddress (registryAddress abilityParams))); [apply preserves_throw|].
    cbv zeta.
    apply preserves_bind; [apply preserves_positions_only_network|]. intros config.
    destruct delegation as [[ea pk]|]; cbn [publicKey ethAddress];
      [|apply preserves_throw].
    destruct pk as [pk|]; [|apply preserves_throw].
    destruct ea as [ea|]; [|apply preserves_throw].
    destruct (negb (truthy (Some pk)) || negb (truthy (Some ea)));
      [apply preserves_throw|].
    apply preserves_bind; [now apply preserves_fetchOwnedPositions|]. intros owned.
    destruct (length owned =? 0)%nat; [apply preserves_ret|].
    apply preserves_bind; [apply preserves_forEach_inspect|].
    intros []. apply preserves_ret.
Qed.
End PositionsOnlyReadOnly.

Lemma positions_only_read_only_witness :
  sim_sent (snd (PositionsOnly.execute (fun _ => true) brokenSymbol sampleParams
                   sampleDelegation sampleIncreaseWorld)) = [].
Proof.
  refine (proj2 (positions_only_read_only sim_sent brokenSymbol readsPreserve_sim_sent _
                   (fun _ => true) sampleParams sampleDelegation sampleIncreaseWorld)).
  intros token w. reflexivity.
Defined.

(** ** The address schema *)

Lemma isHexDigit_lower (c : ascii) :
  isHexDigit c = true ->
  isHexDigit (lowerAscii c) = true /\ Ascii.eqb c ":" = false.
Proof. destruct c as [[] [] [] [] [] [] [] []]; vm_compute; auto; discriminate. Qed.

Lemma hexDigits_spec (n : nat) :
  forall s, hexDigits n s = true ->
    String.length s = n /\ colonFree s = true /\ hexDigits n (toLowerCase s) = true.
Proof.
  induction n as [|n IH]; intros [|c s] Hs; cbn [hexDigits] in Hs; try discriminate.
  - auto.
  - apply andb_prop in Hs as [Hc Hs]. destruct (IH s Hs) as (Hlen & Hcolon & Hlow).
    destruct (isHexDigit_lower c Hc) as [Hc' Hne].
    cbn [String.length colonFree toLowerCase hexDigits].
    rewrite Hlen, Hne, Hcolon, Hc', Hlow. auto.
Qed.

Lemma ethereumAddressSchema_inv (s : string) :
  ethereumAddressSchema s = true ->
  exists digits, s = String "0" (String "x" digits) /\ hexDigits 40 digits = true.
Proof.
  intros Hs. destruct s as [|c0 s]; [discriminate|].
  destruct c0 as [[] [] [] [] [] [] [] []]; try (cbn in Hs; discriminate Hs).
  destruct s as [|c1 s]; [discriminate|].
  destruct c1 as [[] [] [] [] [] [] [] []]; try (cbn in Hs; discriminate Hs).
  exists s. split; [reflexivity|exact Hs].
Qed.

Lemma ethereumAddressSchema_colonFree (s : string) :
  ethereumAddressSchema s = true -> colonFree s = true.
Proof.
  intros Hs. apply ethereumAddressSchema_inv in Hs as (digits & -> & Hs).
  apply hexDigits_spec in Hs as (_ & Hcolon & _).
  cbn [colonFree]. now rewrite Hcolon.
Qed.

(** X23: a string accepted by the address schema has 42 characters, is
    not empty, contains no colon, and stays accepted when lower-cased;
    hence, on schema-valid addresses, two token pairs have the same match
    key exactly when they are the same unordered pair up to letter
    case. *)
Theorem ethereumAddressSchema_keys :
  (forall s, ethereumAddressSchema s = true ->
             String.length s = 42%nat
             /\ truthy (Some s) = true
             /\ colonFree s = true
             /\ ethereumAddressSchema (toLowerCase s) = true)
  /\ (forall a b c d,
        ethereumAddressSchema a = true -> ethereumAddressSchema b = true ->
        ethereumAddressSchema c = true -> ethereumAddressSchema d = true ->
        pairKey a b = pairKey c d <->
        (toLowerCase a = toLowerCase c /\ toLowerCase b = toLowerCase d) \/
        (toLowerCase a = toLowerCase d /\ toLowerCase b = toLowerCase c)).
Proof.
  split.
  - intros s Hs. pose proof (ethereumAddressSchema_colonFree s Hs) as Hcolon.
    apply ethereumAddressSchema_inv in Hs as (digits & -> & Hs).
    apply hexDigits_spec in Hs as (Hlen & _ & Hlow).
    cbn [String.length]. rewrite Hlen. repeat split; [exact Hcolon|exact Hlow].
  - intros a b c d Ha Hb Hc Hd.
    apply pairKey_eq_iff; now apply ethereumAddressSchema_colonFree.
Qed.

Lemma ethereumAddressSchema_keys_witness :
  String.length sampleToken = 42%nat
  /\ (pairKey sampleToken sampleStable = pairKey sampleStable (toLowerCase sampleToken)).
Proof.
  split.
  - apply (proj1 ethereumAddressSchema_keys sampleToken). reflexivity.
  - apply (proj2 ethereumAddressSchema_keys sampleToken sampleStable sampleStable
             (toLowerCase sampleToken)); try reflexivity.
    right. split; [|reflexivity]. symmetry. apply toLowerCase_idem.
Defined.

(** ** Evaluation as a whole *)

Section EvaluationWhole.
Context {W : Type} `{Chain W}.

(** X24: the metrics of a registry are all or nothing: a successful
    [fetchAllMetrics] returns one metric per project, in the order of the
    projects, each the result of [fetchProjectMetrics] on its project; a
    failed one returns no metric and fails with the error of one of its
    projects; and it fails whenever the metrics of some project fail
    after those of the projects before it were read.  Which error is
    reported when several projects fail is left open. *)
Theorem fetchAllMetrics_all_or_nothing (config : NetworkConfig) :
  (forall projects (w : W) metrics w',
      fetchAllMetrics projects config w = (Resolved metrics, w') ->
      Forall2 (fun p m => project m = p
                          /\ exists wa wb : W,
                               fetchProjectMetrics p config wa = (Resolved m, wb))
              projects metrics)
  /\ (forall projects (w : W) e w',
        fetchAllMetrics projects config w = (Rejected e, w') ->
        exists p (wa wb : W),
          In p projects /\ fetchProjectMetrics p config wa = (Rejected e, wb))
  /\ (forall before p after (w : W) metrics w1 e w2,
        fetchAllMetrics before config w = (Resolved metrics, w1) ->
        fetchProjectMetrics p config w1 = (Rejected e, w2) ->
        exists e' w',
          fetchAllMetrics (before ++ p :: after) config w = (Rejected e', w')).
Proof.
  split; [|split].
  - induction projects as [|p rest IH]; intros w metrics w' Hrun;
      cbn [fetchAllMetrics] in Hrun.
    + run_inv Hrun. constructor.
    + apply bind_resolved in Hrun as (m & w1 & Hm & Hrun).
      apply bind_resolved in Hrun as (ms & w2 & Hms & Hrun). run_inv Hrun.
      constructor; [|eapply IH; exact Hms].
      split; [|eauto]. now apply fetchProjectMetrics_fresh in Hm as (Hp & _).
  - induction projects as [|p rest IH]; intros w e w' Hrun;
      cbn [fetchAllMetrics] in Hrun; [discriminate Hrun|].
    unfold bind at 1 in Hrun.
    destruct (fetchProjectMetrics p config w) as [[m|e1] w1] eqn:Hp.
    + unfold bind at 1 in Hrun.
      destruct (fetchAllMetrics rest config w1) as [[ms|e2] w2] eqn:Hrest.
      * discriminate Hrun.
      * injection Hrun as <- <-.
        destruct (IH _ _ _ Hrest) as (q & wa & wb & Hq & Hfail).
        exists q, wa, wb. split; [now right|exact Hfail].
    + injection Hrun as <- <-. exists p, w, w1. split; [now left|exact Hp].
  - induction before as [|q before IH]; intros p after w metrics w1 e w2 Hbefore Hp;
      cbn [fetchAllMetrics app] in *.
    + run_inv Hbefore. exists e, w2. now rewrite (bind_rejected _ _ _ _ _ Hp).
    + apply bind_resolved in Hbefore as (m & wa & Hm & Hbefore).
      apply bind_resolved in Hbefore as (ms & wb & Hms & Hbefore). run_inv Hbefore.
      destruct (IH p after _ _ _ _ _ Hms Hp) as (e' & w' & Hrest).
      exists e', w'. rewrite (bind_step _ _ _ _ _ Hm).
      now rewrite (bind_rejected _ _ _ _ _ Hrest).
Qed.

Variable isAddress : string -> bool.

Lemma execute_run_inv abilityParams delegation w reg total backfilled reports w' :
  execute isAddress abilityParams delegation w
    = (Resolved (ExecuteSucceed reg total backfilled reports), w') ->
  exists config metrics w1 pkpAddress pkpPublicKey owned w2 acts,
    isAddress (registryAddress abilityParams) = true
    /\ evaluateRegistry abilityParams w = (Resolved (config, metrics), w1)
    /\ delegation = Some (mkDelegation (Some pkpAddress) (Some pkpPublicKey))
    /\ truthy (Some pkpAddress) = true
    /\ fetchOwnedPositions config pkpAddress w1 = (Resolved owned, w2)
    /\ rebalanceAll config pkpPublicKey pkpAddress
         (attachPositionsToProjects metrics owned) w2 = (Resolved acts, w')
    /\ reports = map (reportProject acts) (attachPositionsToProjects metrics owned)
    /\ reg = registryAddress abilityParams.
Proof.
  unfold execute. intros Hrun.
  apply tryCatch_resolved in Hrun as [Hrun|(e & w1 & _ & Hrun)];
    [|run_inv Hrun; discriminate].
  destruct (isAddress (registryAddress abilityParams)) eqn:Haddr; cbn [negb] in Hrun;
    [|run_inv Hrun].
  apply bind_resolved in Hrun as ([config metrics] & w1 & Heval & Hrun).
  destruct delegation as [[ea pk]|]; cbn [publicKey ethAddress fst snd] in Hrun;
    [|run_inv Hrun].
  destruct pk as [pk|]; [|run_inv Hrun]. destruct ea as [ea|]; [|run_inv Hrun].
  destruct (truthy (Some pk)); cbn [negb orb] in Hrun; [|run_inv Hrun].
  destruct (truthy (Some ea)) eqn:Hea; cbn [negb] in Hrun; [|run_inv Hrun].
  apply bind_resolved in Hrun as (owned & w2 & Howned & Hrun).
  apply bind_resolved in Hrun as (acts & w3 & Hacts & Hrun).
  apply ret_resolved in Hrun as [Hres <-]. injection Hres as <- _ _ <-.
  exists config, metrics, w1, ea, pk, owned, w2, acts. auto 10.
Qed.

(** X25: whenever [execute] succeeds, [precheck] from the same state
    succeeds as well and reports the same projects: its summaries are the
    summaries of the execution report, project by project, and it stops
    in the state in which [execute] starts to dispatch. *)
Theorem execute_agrees_with_precheck abilityParams delegation (w : W)
    reg total backfilled reports w' :
  execute isAddress abilityParams delegation w
    = (Resolved (ExecuteSucceed reg total backfilled reports), w') ->
  exists tracked w2,
    precheck isAddress abilityParams delegation w
      = (Resolved (PrecheckSucceed reg (Z.of_nat (length reports)) tracked 0
                     (map summary reports)), w2).
Proof.
  intros Hrun.
  apply execute_run_inv in Hrun
    as (config & metrics & w1 & pa & pk & owned & w2 & acts
        & Haddr & Heval & -> & Hpa & Howned & _ & -> & ->).
  exists (Z.of_nat (length owned)), w2.
  unfold precheck, tryCatch. rewrite Haddr. cbn [negb].
  rewrite (bind_step _ _ _ _ _ Heval). cbn [ethAddress fst snd]. rewrite Hpa.
  rewrite (bind_step _ _ _ _ _ Howned). unfold ret.
  rewrite length_map, map_map. reflexivity.
Qed.
End EvaluationWhole.

Lemma fetchAllMetrics_all_or_nothing_witness :
  exists e,
    fst (fetchAllMetrics sampleMixedProjects sampleConfig sampleMixedWorld) = Rejected e.
Proof.
  assert (fetchAllMetrics [sampleInfo] sampleConfig sampleMixedWorld
          = (Resolved [sampleFetched sampleMixedWorld], sampleMixedWorld)) as Hbefore
    by (vm_compute; reflexivity).
  destruct (proj2 (proj2 (fetchAllMetrics_all_or_nothing sampleConfig))
              [sampleInfo] (mkProjectInfo sampleOther sampleToken sampleStable)
              [mkProjectInfo samplePool sampleToken sampleStable]
              sampleMixedWorld _ _ (newError targetZeroMessage) sampleMixedWorld
              Hbefore eq_refl) as (e & w' & Hrun).
  exists e. unfold sampleMixedProjects. cbn [app] in Hrun. now rewrite Hrun.
Defined.

Lemma execute_agrees_with_precheck_witness :
  precheckProjects samplePrecheck = map summary (executeReports sampleExecute).
Proof.
  assert (execute (fun _ => true) sampleParams sampleDelegation sampleIncreaseWorld
          = (Resolved (ExecuteSucceed sampleRegistry (executeTotal sampleExecute) 0
                         (executeReports sampleExecute)),
             snd (execute (fun _ => true) sampleParams sampleDelegation
                    sampleIncreaseWorld))) as Hrun
    by (vm_compute; reflexivity).
  destruct (execute_agrees_with_precheck _ _ _ _ _ _ _ _ _ Hrun) as (tracked & w2 & Hpre).
  unfold samplePrecheck. rewrite Hpre. reflexivity.
Defined.

(** ** The action log against the dispatched requests *)

Section Mirror.
Variable config : NetworkConfig.
Variables pkpPublicKey pkpAddress : string.

Lemma approveIfNeeded_mirror (addr : string) (position : PositionInfo)
    (token label : string) (balance allowance : Z) (acts : list ActionRecord) (w : Sim) :
  label = "approveToken0" \/ label = "approveToken1" ->
  exists recorded sent w',
    approveIfNeeded config pkpPublicKey pkpAddress addr position token label
                    balance allowance acts w = (Resolved (acts ++ recorded), w')
    /\ sim_sent w' = sim_sent w ++ sent
    /\ Forall2 (mirrors config pkpPublicKey pkpAddress) recorded sent.
Proof.
  intros Hlabel. unfold approveIfNeeded.
  assert (isApproval (mkActionRecord addr (Some (tokenId position)) label "")) as Happ
    by (unfold isApproval; exact Hlabel).
  destruct (BigNumber.gt balance 0 && BigNumber.lt allowance balance).
  - eexists [_], [_], _. split; [reflexivity|]. split; [reflexivity|].
    constructor; [|constructor]. unfold mirrors, isApproval in *. cbn in *. auto 10.
  - exists [], [], w. rewrite !app_nil_r. repeat split. constructor.
Qed.

Lemma rebalancePosition_mirror (metric : ProjectMetrics) (addr : string)
    (acts : list ActionRecord) (position : PositionInfo) (w : Sim) :
  exists recorded sent w',
    rebalancePosition config pkpPublicKey pkpAddress metric addr acts position w
      = (Resolved (acts ++ recorded), w')
    /\ sim_sent w' = sim_sent w ++ sent
    /\ Forall2 (mirrors config pkpPublicKey pkpAddress) recorded sent.
Proof.
  assert (exists recorded sent w',
             (Resolved acts, w) = (Resolved (acts ++ recorded), w')
             /\ sim_sent w' = sim_sent w ++ sent /\ Forall2 (mirrors config pkpPublicKey pkpAddress) recorded sent) as Hskip.
  { exists [], [], w. rewrite !app_nil_r. repeat split. constructor. }
  unfold rebalancePosition.
  destruct (BigNumber.isZero (liquidity position)); [exact Hskip|].
  unfold BigNumber.div. change (10000 =? 0) with false. cbv iota.
  unfold liftOutcome at 1, bind at 1.
  match goal with
  | |- context [BigNumber.isZero ?q && isDecrease (direction metric)] =>
      destruct (BigNumber.isZero q && isDecrease (direction metric)); [exact Hskip|]
  end.
  destruct (direction metric); [| |exact Hskip].
  - unfold bind at 1 2 3 4. cbn [erc20BalanceOf erc20Allowance simChain read].
    match goal with
    | |- context [BigNumber.isZero ?a && BigNumber.isZero ?b] =>
        destruct (BigNumber.isZero a && BigNumber.isZero b); [exact Hskip|]
    end.
    match goal with
    | |- context [approveIfNeeded _ _ _ _ _ ?t "approveToken0" ?b ?a acts] =>
        destruct (approveIfNeeded_mirror addr position t "approveToken0" b a acts w
                    (or_introl eq_refl)) as (r0 & s0 & w0 & Hstep0 & Hsent0 & Hm0)
    end.
    rewrite (bind_step _ _ _ _ _ Hstep0).
    match goal with
    | |- context [approveIfNeeded _ _ _ _ _ ?t "approveToken1" ?b ?a (acts ++ r0)] =>
        destruct (approveIfNeeded_mirror addr position t "approveToken1" b a
                    (acts ++ r0) w0 (or_intror eq_refl))
          as (r1 & s1 & w1 & Hstep1 & Hsent1 & Hm1)
    end.
    rewrite (bind_step _ _ _ _ _ Hstep1).
    eexists (r0 ++ r1 ++ [_]), (s0 ++ s1 ++ [_]), _.
    split; [unfold deadline, dispatch, bind, ret;
            cbn [dateNow contractCall simChain read]; now rewrite <- !app_assoc|].
    split; [cbn [sim_sent noteCall setTrace]; rewrite Hsent1, Hsent0;
            now rewrite <- !app_assoc|].
    apply Forall2_app; [exact Hm0|]. apply Forall2_app; [exact Hm1|].
    constructor; [|constructor]. unfold mirrors. cbn. auto 10.
  - eexists [_; _], [_; _], _.
    split; [unfold deadline, dispatch, bind, ret;
            cbn [dateNow contractCall simChain read]; now rewrite <- !app_assoc|].
    split; [cbn [sim_sent noteCall setTrace]; now rewrite <- !app_assoc|].
    constructor; [|constructor; [|constructor]]; unfold mirrors; cbn; auto 10.
Qed.

Lemma forEach_positions_mirror (metric : ProjectMetrics) (addr : string)
    (positions : list PositionInfo) :
  forall (acts : list ActionRecord) (w : Sim),
    exists recorded sent w',
      forEach (rebalancePosition config pkpPublicKey pkpAddress metric addr)
              positions acts w = (Resolved (acts ++ recorded), w')
      /\ sim_sent w' = sim_sent w ++ sent
      /\ Forall2 (mirrors config pkpPublicKey pkpAddress) recorded sent.
Proof.
  induction positions as [|p ps IH]; intros acts w; cbn [forEach].
  - exists [], [], w. rewrite !app_nil_r. repeat split. constructor.
  - destruct (rebalancePosition_mirror metric addr acts p w)
      as (r0 & s0 & w0 & Hstep & Hsent0 & Hm0).
    rewrite (bind_step _ _ _ _ _ Hstep).
    destruct (IH (acts ++ r0) w0) as (r1 & s1 & w1 & Hrest & Hsent1 & Hm1).
    exists (r0 ++ r1), (s0 ++ s1), w1. rewrite Hrest, Hsent1, Hsent0, !app_assoc.
    repeat split. now apply Forall2_app.
Qed.

Lemma forEach_projects_mirror (metrics : list ProjectMetrics) :
  forall (acts : list ActionRecord) (w : Sim),
    exists recorded sent w',
      forEach (rebalanceProject config pkpPublicKey pkpAddress) metrics acts w
        = (Resolved (acts ++ recorded), w')
      /\ sim_sent w' = sim_sent w ++ sent
      /\ Forall2 (mirrors config pkpPublicKey pkpAddress) recorded sent.
Proof.
  induction metrics as [|m ms IH]; intros acts w; cbn [forEach].
  - exists [], [], w. rewrite !app_nil_r. repeat split. constructor.
  - assert (exists r0 s0 w0,
               rebalanceProject config pkpPublicKey pkpAddress acts m w
                 = (Resolved (acts ++ r0), w0)
               /\ sim_sent w0 = sim_sent w ++ s0 /\ Forall2 (mirrors config pkpPublicKey pkpAddress) r0 s0)
      as (r0 & s0 & w0 & Hstep & Hsent0 & Hm0).
    { unfold rebalanceProject. destruct (negb (shouldRebalance m)).
      - exists [], [], w. rewrite !app_nil_r. repeat split. constructor.
      - unfold dispatch, bind at 1. cbn [contractCall simChain].
        match goal with
        | |- context [forEach _ (positions m) ?a ?w1] =>
            destruct (forEach_positions_mirror m (projectAddress (project m))
                        (positions m) a w1) as (r1 & s1 & w1' & Hrun & Hsent1 & Hm1)
        end.
        eexists (_ :: r1), (_ :: s1), w1'. rewrite Hrun, Hsent1.
        split; [now rewrite <- app_assoc|].
        split; [cbn [sim_sent noteCall setTrace]; now rewrite <- app_assoc|].
        constructor; [|exact Hm1]. unfold mirrors. cbn. auto 10. }
    rewrite (bind_step _ _ _ _ _ Hstep).
    destruct (IH (acts ++ r0) w0) as (r1 & s1 & w1 & Hrest & Hsent1 & Hm1).
    exists (r0 ++ r1), (s0 ++ s1), w1. rewrite Hrest, Hsent1, Hsent0, !app_assoc.
    repeat split. now apply Forall2_app.
Qed.

(** X26: on the snapshot chain the rebalance loop always runs to the end,
    and its action log mirrors the dispatched requests one for one and in
    order: every request is made with the public key and the address of
    the PKP of the run, accruals go to the project, liquidity calls to the
    position manager, approvals name the position manager as spender,
    and collected funds go to the PKP. *)
Theorem dispatch_log_mirror (metrics : list ProjectMetrics) (w : Sim) :
  exists acts sent w',
    rebalanceAll config pkpPublicKey pkpAddress metrics w = (Resolved acts, w')
    /\ sim_sent w' = sim_sent w ++ sent
    /\ Forall2 (mirrors config pkpPublicKey pkpAddress) acts sent.
Proof.
  unfold rebalanceAll.
  destruct (forEach_projects_mirror metrics [] w) as (acts & sent & w' & Hrun).
  exists acts, sent, w'. exact Hrun.
Qed.
End Mirror.

(** ** Unsupported networks *)

Lemma prefix_occurs (c : ascii) (sub : string) :
  forall s, String.prefix sub s = true -> occurs c sub = true -> occurs c s = true.
Proof.
  induction sub as [|x sub IH]; intros s Hp Hc; [discriminate|].
  destruct s as [|d s]; [discriminate|]. cbn in Hp.
  destruct (Ascii.ascii_dec x d) as [->|Hne]; [|discriminate].
  cbn [occurs] in *. apply orb_prop in Hc as [->|Hc]; [reflexivity|].
  rewrite (IH s Hp Hc). apply orb_true_r.
Qed.

Lemma includes_occurs (c : ascii) (sub s : string) :
  includes s sub = true -> occurs c sub = true -> occurs c s = true.
Proof.
  intros Hin Hc. induction s as [|d s IH]; cbn [includes] in Hin.
  - apply orb_prop in Hin as [Hp|Hp]; [|discriminate].
    exact (prefix_occurs c sub "" Hp Hc).
  - apply orb_prop in Hin as [Hp|Hrest].
    + exact (prefix_occurs c sub _ Hp Hc).
    + cbn [occurs]. rewrite (IH Hrest). apply orb_true_r.
Qed.

Lemma occurs_append (c : ascii) (a b : string) :
  occurs c (a +:+ b) = occurs c a || occurs c b.
Proof.
  induction a as [|x a IH]; [reflexivity|].
  rewrite append_cons_l. cbn [occurs]. rewrite IH. apply orb_assoc.
Qed.

Lemma occurs_string_of_uint (c : ascii) (u : Decimal.uint) :
  forallb (fun d => negb (Ascii.eqb c d))
          ["0"; "1"; "2"; "3"; "4"; "5"; "6"; "7"; "8"; "9"]%char = true ->
  occurs c (NilEmpty.string_of_uint u) = false.
Proof.
  intros Hc. cbn [forallb] in Hc.
  repeat (apply andb_prop in Hc as [?%negb_true_iff Hc]).
  induction u; cbn [NilEmpty.string_of_uint occurs]; [reflexivity|..];
    rewrite IHu, orb_false_r; assumption.
Qed.

Lemma occurs_toString (c : ascii) (z : Z) :
  forallb (fun d => negb (Ascii.eqb c d))
          ["0"; "1"; "2"; "3"; "4"; "5"; "6"; "7"; "8"; "9"; "-"]%char = true ->
  occurs c (BigNumber.toString z) = false.
Proof.
  intros Hc.
  assert (forallb (fun d => negb (Ascii.eqb c d))
            ["0"; "1"; "2"; "3"; "4"; "5"; "6"; "7"; "8"; "9"]%char = true
          /\ Ascii.eqb c "-" = false /\ Ascii.eqb c "0" = false) as (Hdigits & Hminus & Hzero).
  { cbn [forallb] in *. repeat (apply andb_prop in Hc as [? Hc]).
    repeat split; try (apply negb_true_iff; assumption).
    repeat (apply andb_true_intro; split); auto. }
  unfold BigNumber.toString, NilZero.string_of_int.
  destruct (Z.to_int z) as [u|u]; unfold NilZero.string_of_uint.
  - destruct u; try (now apply occurs_string_of_uint).
    cbn. now rewrite Hzero.
  - cbn [occurs]. rewrite Hminus. cbn [orb].
    destruct u; try (now apply occurs_string_of_uint).
    cbn. now rewrite Hzero.
Qed.

(** X27: when the provider reports a chain that has no entry in the
    network table and the RPC URL names neither sepolia nor mainnet (as
    the default endpoint does not), both entry points fail with the
    message "Unsupported network <chain id>", filed under PROVIDER_ERROR,
    right after the network read. *)
Theorem unsupported_network_fails {W : Type} `{Chain W} (isAddress : string -> bool)
    (abilityParams : AbilityParams) (delegation : option Delegation)
    (w w1 : W) (chainId : Z) :
  isAddress (registryAddress abilityParams) = true ->
  inferChainIdFromRpc (rpcUrl abilityParams) = None ->
  getNetwork (createProvider (rpcUrl abilityParams)) w = (Resolved chainId, w1) ->
  NETWORK_CONFIG chainId = None ->
  precheck isAddress abilityParams delegation w
    = (Resolved (PrecheckFail PROVIDER_ERROR
                   ("Unsupported network " +:+ BigNumber.toString chainId)), w1)
  /\ execute isAddress abilityParams delegation w
     = (Resolved (ExecuteFail ("Unsupported network " +:+ BigNumber.toString chainId)
                              PROVIDER_ERROR), w1).
Proof.
  intros Haddr Hinfer Hnet Hnone.
  assert (evaluateRegistry abilityParams w
          = (Rejected (newError ("Unsupported network " +:+ BigNumber.toString chainId)),
             w1)) as Heval.
  { unfold evaluateRegistry. cbv zeta. apply bind_rejected.
    unfold discoverNetworkConfig, tryCatch.
    rewrite (bind_step _ _ _ _ _ Hnet), Hnone, Hinfer. reflexivity. }
  assert (forall c sub,
             occurs c sub = true ->
             occurs c "Unsupported network " = false ->
             forallb (fun d => negb (Ascii.eqb c d))
               ["0"; "1"; "2"; "3"; "4"; "5"; "6"; "7"; "8"; "9"; "-"]%char = true ->
             includes ("Unsupported network " +:+ BigNumber.toString chainId) sub = false)
    as Hclean.
  { intros c sub Hsub Hprefix Hdigits.
    destruct (includes _ sub) eqn:Hin; [|reflexivity].
    apply (includes_occurs c) in Hin; [|exact Hsub].
    rewrite occurs_append, Hprefix, (occurs_toString c chainId Hdigits) in Hin.
    discriminate Hin. }
  split.
  - unfold precheck, tryCatch. rewrite Haddr. cbn [negb].
    rewrite (bind_rejected _ _ _ _ _ Heval). unfold ret, newError.
    cbn [isError message errorText andb].
    rewrite (Hclean "T"%char "Target pool price" eq_refl eq_refl eq_refl). reflexivity.
  - unfold execute, tryCatch. rewrite Haddr. cbn [negb].
    rewrite (bind_rejected _ _ _ _ _ Heval). unfold ret, newError.
    cbn [isError message errorText andb].
    rewrite (Hclean "g"%char "registry address" eq_refl eq_refl eq_refl). reflexivity.
Qed.

Lemma unsupported_network_fails_witness :
  precheck (fun _ => true) sampleParams sampleDelegation sampleYellowstoneWorld
  = (Resolved (PrecheckFail PROVIDER_ERROR "Unsupported network 175188"),
     sampleYellowstoneWorld).
Proof.
  exact (proj1 (unsupported_network_fails (fun _ => true) sampleParams sampleDelegation
                  sampleYellowstoneWorld sampleYellowstoneWorld 175188
                  eq_refl eq_refl eq_refl eq_refl)).
Defined.

(** ** The eligibility gate, end to end *)

Lemma summary_eligible (acts : list ActionRecord) (m : ProjectMetrics) :
  sum_direction (summary (reportProject acts m)) <> none ->
  150 <= sum_deviationBps (summary (reportProject acts m)) ->
  shouldRebalance m = true.
Proof.
  cbn [reportProject summary summarizeMetric sum_direction sum_deviationBps].
  intros Hdir Hbps. apply shouldRebalance_iff.
  unfold DEFAULT_DEVIATION_THRESHOLD_BPS. auto.
Qed.

(** In the log of a run, the records of an eligible project start with
    its accrual. *)
Lemma runBlocks_accrual (ms : list ProjectMetrics) (acts : list ActionRecord)
    (m : ProjectMetrics) :
  runBlocks ms acts -> In m ms -> shouldRebalance m = true ->
  exists a rest,
    actionsOf (projectAddress (project m)) acts = a :: rest
    /\ name a = "accrueInterest" /\ act_tokenId a = None
    /\ act_projectAddress a = projectAddress (project m)
    /\ a ∈ acts.
Proof.
  intros Hrun Hm Hyes.
  pose proof (runBlocks_first _ _ (projectAddress (project m)) Hrun) as Hfirst.
  destruct (actionsOf (projectAddress (project m)) acts) as [|a rest] eqn:Hacts.
  - exfalso. exact (Hfirst m Hm Hyes eq_refl).
  - assert (a ∈ actionsOf (projectAddress (project m)) acts) as Ha
      by (rewrite Hacts; left).
    apply list_elem_of_filter in Ha as [Haddr Ha].
    exists a, rest. destruct Hfirst as [Hname Hid]. auto.
Qed.

Lemma reports_total (ms : list ProjectMetrics) (acts : list ActionRecord) :
  NoDup (projectAddress <$> (project <$> ms)) ->
  runBlocks ms acts ->
  sum_list_with (fun r => length (actions r)) (map (reportProject acts) ms) = length acts.
Proof.
  intros Hnd Hrun. apply runBlocks_provenance in Hrun.
  transitivity (sum_list_with (fun key => length (actionsOf key acts))
                  (projectAddress <$> (project <$> ms))).
  - clear. induction ms as [|m ms IH]; [reflexivity|].
    cbn [map fmap list_fmap sum_list_with] in *. now rewrite IH.
  - apply actionsOf_partition; [exact Hnd|].
    eapply Forall_impl; [exact Hrun|]. intros a (m & Hm & _ & Ha & _).
    rewrite Ha. apply list_elem_of_fmap. exists (project m). split; [reflexivity|].
    apply list_elem_of_fmap. exists m. split; [reflexivity|].
    now apply list_elem_of_In.
Qed.

Lemma mirrors_accrual (config : NetworkConfig) (pkpPublicKey pkpAddress : string)
    (a : ActionRecord) (request : CallRequest) :
  mirrors config pkpPublicKey pkpAddress a request ->
  name a = "accrueInterest" ->
  functionName request = "accrueInterest"
  /\ contractAddress request = act_projectAddress a
  /\ call_args request = AccrueInterestArgs
  /\ callerAddress request = pkpAddress.
Proof.
  intros (_ & Hcaller & Hargs) Hname. unfold isApproval in Hargs.
  destruct (call_args request); rewrite Hname in Hargs.
  - destruct Hargs as (_ & Hfn & _ & Haddr & _). auto.
  - destruct Hargs as (Habs & _). discriminate Habs.
  - destruct Hargs as (Habs & _). discriminate Habs.
  - destruct Hargs as ([Habs|Habs] & _); discriminate Habs.
  - destruct Hargs as (Habs & _). discriminate Habs.
Qed.

(** C9: a project passes the gate iff its direction is not none and its
    deviationBps is at least 150.  In the loop body, a project that passes
    has its accrual dispatched and recorded first, and an ineligible
    project leaves the action log and the world untouched.  In the report
    of a successful [execute], a project is rebalanced iff it is eligible:
    every ineligible project (direction none, or deviation below 150 bps,
    such as 50 bps) has no actions, and the actions of every eligible
    project are not empty and start with its accrual.  On the snapshot
    chain, a successful [execute] dispatches exactly as many calls as the
    reports list actions, so none for an ineligible project, and among
    them the accrual of every eligible project. *)
Theorem eligibility_gate :
  (forall metric,
      shouldRebalance metric = true <->
      direction metric <> none /\ 150 <= deviationBps metric)
  /\ (forall (W : Type) (C : Chain W) config pkpPublicKey pkpAddress acts metric
             (w w' : W) acts',
        shouldRebalance metric = true ->
        rebalanceProject config pkpPublicKey pkpAddress acts metric w
          = (Resolved acts', w') ->
        exists h rest,
          acts' = acts ++ accrueRecord (projectAddress (project metric)) h :: rest)
  /\ (forall (W : Type) (C : Chain W) config pkpPublicKey pkpAddress acts metric (w : W),
        shouldRebalance metric = false ->
        rebalanceProject config pkpPublicKey pkpAddress acts metric w = (Resolved acts, w))
  /\ (forall (W : Type) (C : Chain W) isAddress abilityParams delegation (w w' : W)
             reg total backfilled reports,
        execute isAddress abilityParams delegation w
          = (Resolved (ExecuteSucceed reg total backfilled reports), w') ->
        forall r, In r reports ->
          sum_direction (summary r) = none \/ sum_deviationBps (summary r) < 150 ->
          actions r = [])
  /\ (forall (W : Type) (C : Chain W) isAddress abilityParams delegation (w w' : W)
             reg total backfilled reports,
        execute isAddress abilityParams delegation w
          = (Resolved (ExecuteSucceed reg total backfilled reports), w') ->
        forall r, In r reports ->
          sum_direction (summary r) <> none -> 150 <= sum_deviationBps (summary r) ->
          exists a rest,
            actions r = a :: rest
            /\ name a = "accrueInterest" /\ act_tokenId a = None
            /\ act_projectAddress a = sum_projectAddress (summary r))
  /\ (forall isAddress abilityParams delegation (w w' : Sim)
             reg total backfilled reports,
        execute isAddress abilityParams delegation w
          = (Resolved (ExecuteSucceed reg total backfilled reports), w') ->
        exists sent,
          sim_sent w' = sim_sent w ++ sent
          /\ length sent = sum_list_with (fun r => length (actions r)) reports
          /\ forall r, In r reports ->
               sum_direction (summary r) <> none ->
               150 <= sum_deviationBps (summary r) ->
               exists request,
                 In request sent
                 /\ functionName request = "accrueInterest"
                 /\ contractAddress request = sum_projectAddress (summary r)).
Proof.
  split; [exact shouldRebalance_iff|]. split; [|split; [|split; [|split]]].
  - intros W C config pk addr acts metric w w' acts' Hm Hrun.
    unfold rebalanceProject in Hrun. rewrite Hm in Hrun. cbn [negb] in Hrun.
    run_inv Hrun.
    apply forEach_positions_appends in Hrun as (bs & -> & _).
    exists v, bs. now rewrite <- app_assoc.
  - intros W C config pk addr acts metric w Hm.
    unfold rebalanceProject. now rewrite Hm.
  - intros W C isAddress params delegation w w' reg total backfilled reports Hrun r Hr Hinel.
    apply execute_succeed_inv in Hrun
      as (config & metrics & owned & pk & addr & w1 & acts & Hnd & _ & Hrun & -> & _).
    apply in_map_iff in Hr as (m & <- & Hm). simpl in *.
    assert (shouldRebalance m = false) as Hno.
    { destruct (shouldRebalance m) eqn:Hyes; [|reflexivity].
      apply shouldRebalance_iff in Hyes as [Hdir Hbps].
      unfold DEFAULT_DEVIATION_THRESHOLD_BPS in Hbps.
      destruct Hinel; [contradiction|lia]. }
    apply rebalanceAll_shape in Hrun.
    pose proof (runBlocks_first _ _ (projectAddress (project m)) Hrun) as Hfirst.
    destruct (actionsOf (projectAddress (project m)) acts) as [|a rest] eqn:Hacts;
      [reflexivity|exfalso].
    assert (a ∈ actionsOf (projectAddress (project m)) acts) as Ha
      by (rewrite Hacts; left).
    apply list_elem_of_filter in Ha as [Haddr Ha].
    apply runBlocks_provenance in Hrun.
    rewrite Forall_forall in Hrun.
    destruct (Hrun a Ha) as (m2 & Hm2 & Hyes & Haddr2 & _).
    rewrite <- attach_projects with (ps := owned) in Hnd.
    apply list_elem_of_In, list_elem_of_lookup in Hm as [i Hi].
    apply list_elem_of_In, list_elem_of_lookup in Hm2 as [j Hj].
    assert (i = j) as <-.
    { apply (proj1 (NoDup_alt _) Hnd i j (projectAddress (project m)));
        rewrite !list_lookup_fmap.
      - now rewrite Hi.
      - rewrite Hj. simpl. congruence. }
    congruence.
  - intros W C isAddress params delegation w w' reg total backfilled reports Hrun
           r Hr Hdir Hbps.
    apply execute_succeed_inv in Hrun
      as (config & metrics & owned & pk & addr & w1 & acts & _ & _ & Hrun & -> & _).
    apply in_map_iff in Hr as (m & <- & Hm).
    apply rebalanceAll_shape in Hrun.
    destruct (runBlocks_accrual _ _ m Hrun Hm (summary_eligible acts m Hdir Hbps))
      as (a & rest & Hacts & Hname & Hid & Haddr & _).
    exists a, rest. cbn [reportProject actions summary summarizeMetric sum_projectAddress].
    auto.
  - intros isAddress params delegation w w' reg total backfilled reports Hrun.
    apply execute_run_inv in Hrun
      as (config & metrics & w1 & pa & pk & owned & w2 & acts
          & _ & Heval & _ & _ & Howned & Hacts & -> & _).
    pose proof (preserves_evaluateRegistry sim_sent readsPreserve_sim_sent params w)
      as Hsent1.
    rewrite Heval in Hsent1. cbn [snd] in Hsent1.
    pose proof (preserves_fetchOwnedPositions sim_sent readsPreserve_sim_sent
                  config pa w1) as Hsent2.
    rewrite Howned in Hsent2. cbn [snd] in Hsent2.
    apply evaluateRegistry_resolved in Heval as [Hnd _].
    rewrite <- attach_projects with (ps := owned) in Hnd.
    destruct (forEach_projects_mirror config pk pa
                (attachPositionsToProjects metrics owned) [] w2)
      as (recorded & sent & w3 & Hloop & Hsent3 & Hmirror).
    unfold rebalanceAll in Hacts. rewrite Hloop in Hacts.
    injection Hacts as <- <-. cbn [app] in *.
    pose proof (rebalanceAll_shape config pk pa _ _ _ _ Hloop) as Hshape.
    exists sent. split; [now rewrite Hsent3, Hsent2, Hsent1|]. split.
    + rewrite (reports_total _ _ Hnd Hshape). symmetry.
      exact (Forall2_length _ _ _ Hmirror).
    + intros r Hr Hdir Hbps. apply in_map_iff in Hr as (m & <- & Hm).
      destruct (runBlocks_accrual _ _ m Hshape Hm (summary_eligible recorded m Hdir Hbps))
        as (a & rest & _ & Hname & _ & Haddr & Ha).
      apply list_elem_of_lookup in Ha as [i Hi].
      destruct (Forall2_lookup_l _ _ _ i a Hmirror Hi) as (request & Hreq & Hm').
      destruct (mirrors_accrual _ _ _ _ _ Hm' Hname) as (Hfn & Hto & _).
      exists request. split; [|split; [exact Hfn|]].
      * apply list_elem_of_In. eapply list_elem_of_lookup_2. exact Hreq.
      * rewrite Hto, Haddr. reflexivity.
Qed.

Lemma eligibility_gate_witness :
  (exists r,
      sampleQuietReports = [r]
      /\ sum_deviationBps (summary r) = 49
      /\ actions r = [])
  /\ (exists r a rest,
        executeReports sampleExecute = [r]
        /\ sum_deviationBps (summary r) = 5000
        /\ actions r = a :: rest
        /\ name a = "accrueInterest").
Proof.
  split.
  - eexists. split; [vm_compute; reflexivity|]. split; [reflexivity|].
    refine (proj1 (proj2 (proj2 (proj2 eligibility_gate))) Sim simChain (fun _ => true)
              sampleParams sampleDelegation sampleQuietWorld
              (snd (execute (fun _ => true) sampleParams sampleDelegation sampleQuietWorld))
              sampleRegistry 0 0 sampleQuietReports _ _ _ _).
    + vm_compute. reflexivity.
    + vm_compute. left. reflexivity.
    + right. vm_compute. reflexivity.
  - assert (exists r, executeReports sampleExecute = [r]
                      /\ sum_deviationBps (summary r) = 5000
                      /\ sum_direction (summary r) = increase) as (r & Hr & Hbps & Hdir)
      by (eexists; vm_compute; repeat split).
    destruct (proj1 (proj2 (proj2 (proj2 (proj2 eligibility_gate)))) Sim simChain
                (fun _ => true) sampleParams sampleDelegation sampleIncreaseWorld
                (snd (execute (fun _ => true) sampleParams sampleDelegation
                        sampleIncreaseWorld))
                sampleRegistry (executeTotal sampleExecute) 0
                (executeReports sampleExecute)) with (r := r)
      as (a & rest & Hacts & Hname & _).
    + vm_compute. reflexivity.
    + rewrite Hr. left. reflexivity.
    + rewrite Hdir. discriminate.
    + rewrite Hbps. lia.
    + exists r, a, rest. auto.
Defined.
